(** * Sitemap audit: URL-status sweep, batch orchestrator and sitemap validator

    A shallow embedding of [auditSitemapURLs.js], [automateAudits.js],
    [processElectionGroupings.js], [validateSitemapFiles.js] (the
    [SitemapValidator] class, the functions that validate several
    sitemaps, and the command line) and [sitemapHealthCheck.js].

    Conventions.  A JavaScript string is a [string]; [undefined] is [None]
    of an [option]; counters are [nat]; HTTP status codes are [Z].  The
    asynchronous parts (stream events, the p-limit queue, HTTP replies) are
    modelled by an explicit state and a list of events chosen by the
    runtime: every interleaving the event loop can produce is some event
    list. *)

From Stdlib Require Import List String Ascii ZArith QArith Arith Bool Lia DecimalString DecimalNat
  Permutation.
Import ListNotations.
Close Scope Q_scope.
Open Scope string_scope.
Open Scope list_scope.
Open Scope nat_scope.

(* ================================================================== *)
(** ** Built-ins shared by the scripts                                 *)
(* ================================================================== *)

Module JS.

(** [String(n)] of a non-negative integer, in decimal. *)
Definition String_of_nat (n : nat) : string :=
  NilZero.string_of_uint (Nat.to_uint n).

(** The same for a size held as a binary number. *)
Definition String_of_N (n : N) : string :=
  NilZero.string_of_uint (N.to_uint n).

End JS.

(* ================================================================== *)
(** ** auditSitemapURLs.js: the bounded-concurrency sweep              *)
(* ================================================================== *)

Module Auditor.

(** [row[0]] of a parsed CSV row; [None] when the row has no cell. *)
Definition Url := option string.

(** One parsed line of the input CSV ([csv({ headers: false })]). *)
Definition CsvRow := list string.

(** What the network does with one GET. *)
Inductive NetReply :=
| HttpResponse (status : Z)
| NoResponse
| SetupFailure (message : string).

(** What [axios.get] hands to [checkUrl]: a resolved response, or a
    rejection carrying [error.response], [error.request] or neither. *)
Inductive AxiosError :=
| ErrResponse (status : Z)
| ErrRequest
| ErrMessage (message : string).

(** The settled promise of [axios.get]. *)
Inductive AxiosResult :=
| Resolved (status : Z)
| Rejected (e : AxiosError).

(** axios' default [validateStatus]: 2xx resolves, the rest rejects. *)
Definition validateStatus (status : Z) : bool :=
  ((200 <=? status) && (status <? 300))%Z.

Definition axios_get (r : NetReply) : AxiosResult :=
  match r with
  | HttpResponse st =>
      if validateStatus st then Resolved st else Rejected (ErrResponse st)
  | NoResponse => Rejected ErrRequest
  | SetupFailure m => Rejected (ErrMessage m)
  end.

(** A record of the output CSV: [{ url, status }] or [{ url, error }]. *)
Record ResultRow := mkRow {
  url : Url;
  status : option Z;
  error : option string
}.

(** The options object of [auditSitemapURLs]. *)
Record Options := mkOptions {
  outputCsv : string;
  firstRow : nat;
  lastRow : nat;
  concurrencyLimit : nat;
  timeout : N;
  maxNon404Results : nat
}.

(** A scheduled [() => checkUrl(url)], named by its data-row number. *)
Record Task := mkTask {
  task_row : nat;
  task_url : Url
}.

(** Per-execution state.  [queue] and [active] are the waiting and the
    running thunks of the p-limit instance, [stream] the rows the read
    stream has not emitted yet.  [requested] and [replies] are ghost logs
    of the [axios.get] calls issued and of the replies received. *)
Record State := mkState {
  results : list ResultRow;
  rowNumber : nat;
  count404 : nat;
  non404ErrorCount : nat;
  shouldStop : bool;
  queue : list Task;
  active : list Task;
  stream : list CsvRow;
  requested : list Task;
  replies : list (Task * NetReply)
}.

(** The state when the stream is opened on the rows of [inputCsv]. *)
Definition init (rows : list CsvRow) : State :=
  mkState [] 0 0 0 false [] [] rows [] [].

(** [results.push(r)]. *)
Definition push_result (r : ResultRow) (s : State) : State :=
  mkState (results s ++ [r]) (rowNumber s) (count404 s) (non404ErrorCount s)
          (shouldStop s) (queue s) (active s) (stream s) (requested s)
          (replies s).

(** [count404++]. *)
Definition incr_count404 (s : State) : State :=
  mkState (results s) (rowNumber s) (S (count404 s)) (non404ErrorCount s)
          (shouldStop s) (queue s) (active s) (stream s) (requested s)
          (replies s).

(** [non404ErrorCount++; if (maxNon404Results > 0 &&
    non404ErrorCount >= maxNon404Results) shouldStop = true]. *)
Definition incr_non404 (o : Options) (s : State) : State :=
  let n := S (non404ErrorCount s) in
  mkState (results s) (rowNumber s) (count404 s) n
          (if (0 <? maxNon404Results o) && (maxNon404Results o <=? n)
           then true else shouldStop s)
          (queue s) (active s) (stream s) (requested s) (replies s).

(** [results.push({ url, status }); if (status === 404) count404++ else ...]. *)
Definition record_status (o : Options) (u : Url) (st : Z) (s : State) : State :=
  let s1 := push_result (mkRow u (Some st) None) s in
  if (st =? 404)%Z then incr_count404 s1 else incr_non404 o s1.

(** [results.push({ url, error }); non404ErrorCount++; ...]. *)
Definition record_error (o : Options) (u : Url) (m : string) (s : State) : State :=
  incr_non404 o (push_result (mkRow u None (Some m)) s).

(** The part of [checkUrl] after [await axios.get(url, { timeout })]. *)
Definition checkUrl_resume (o : Options) (u : Url) (res : AxiosResult)
    (s : State) : State :=
  match res with
  | Resolved st =>
      if (st =? 200)%Z then s else record_status o u st s
  | Rejected (ErrResponse st) => record_status o u st s
  | Rejected ErrRequest => record_error o u "No response received" s
  | Rejected (ErrMessage m) => record_error o u m s
  end.

(** The part of [checkUrl] before the [await]: [if (shouldStop) return],
    else the request is issued and the task is in flight. *)
Definition checkUrl_begin (t : Task) (s : State) : State :=
  if shouldStop s then s
  else mkState (results s) (rowNumber s) (count404 s) (non404ErrorCount s)
               (shouldStop s) (queue s) (active s ++ [t]) (stream s)
               (requested s ++ [t]) (replies s).

(** The ['data'] handler of the stream. *)
Definition on_data (o : Options) (row : CsvRow) (s : State) : State :=
  if shouldStop s then s
  else
    let rn := S (rowNumber s) in
    let s1 := mkState (results s) rn (count404 s) (non404ErrorCount s)
                      (shouldStop s) (queue s) (active s) (stream s)
                      (requested s) (replies s) in
    if 1 <? rn then
      let dataRowNumber := rn - 1 in
      if (firstRow o <=? dataRowNumber) && (dataRowNumber <=? lastRow o) then
        mkState (results s1) (rowNumber s1) (count404 s1)
                (non404ErrorCount s1) (shouldStop s1)
                (queue s1 ++ [mkTask dataRowNumber (nth_error row 0)])
                (active s1) (stream s1) (requested s1) (replies s1)
      else s1
    else s1.

(** What the event loop can do next: the stream emits its next row, the
    limiter starts its oldest waiting thunk, or the request of the task
    of data row [id] is answered. *)
Inductive Event :=
| EvData
| EvStart
| EvReply (id : nat) (r : NetReply).

(** The task of data row [id] among those in flight, and the others. *)
Fixpoint take_task (id : nat) (l : list Task) : option (Task * list Task) :=
  match l with
  | [] => None
  | t :: l' =>
      if task_row t =? id then Some (t, l')
      else match take_task id l' with
           | Some (t', r) => Some (t', t :: r)
           | None => None
           end
  end.

(** One event, when the state allows it: a row needs the stream not to be
    exhausted, a start needs a free slot of the limiter and a waiting
    thunk, a reply needs its request to be in flight. *)
Definition step (o : Options) (s : State) (e : Event) : option State :=
  match e with
  | EvData =>
      match stream s with
      | [] => None
      | row :: rest =>
          Some (on_data o row
                  (mkState (results s) (rowNumber s) (count404 s)
                           (non404ErrorCount s) (shouldStop s) (queue s)
                           (active s) rest (requested s) (replies s)))
      end
  | EvStart =>
      if List.length (active s) <? concurrencyLimit o then
        match queue s with
        | [] => None
        | t :: q =>
            Some (checkUrl_begin t
                    (mkState (results s) (rowNumber s) (count404 s)
                             (non404ErrorCount s) (shouldStop s) q
                             (active s) (stream s) (requested s)
                             (replies s)))
        end
      else None
  | EvReply id r =>
      match take_task id (active s) with
      | None => None
      | Some (t, rest) =>
          Some (checkUrl_resume o (task_url t) (axios_get r)
                  (mkState (results s) (rowNumber s) (count404 s)
                           (non404ErrorCount s) (shouldStop s) (queue s)
                           rest (stream s) (requested s)
                           (replies s ++ [(t, r)])))
      end
  end.

(** A schedule, event by event. *)
Fixpoint exec (o : Options) (s : State) (evs : list Event) : option State :=
  match evs with
  | [] => Some s
  | e :: evs' =>
      match step o s e with
      | Some s' => exec o s' evs'
      | None => None
      end
  end.

(** The value the returned promise resolves to, and the records handed to
    [csvWriter.writeRecords]. *)
Record Summary := mkSummary {
  sum_count404 : nat;
  sum_non404ErrorCount : nat
}.

(** How a call ends under a schedule. *)
Inductive Outcome :=
| Threw (message : string)
| Pending
| Done (summary : Summary) (written : list ResultRow) (final : State).

(** The stream has ended and [Promise.all(tasks)] has settled. *)
Definition settled (s : State) : bool :=
  match stream s, queue s, active s with
  | [], [], [] => true
  | _, _, _ => false
  end.

(** [auditSitemapURLs(options)] on the rows of [inputCsv], under the
    schedule [evs].  [Pending] covers a schedule that is not one of this
    run or that stops before the promise resolves. *)
Definition auditSitemapURLs (o : Options) (rows : list CsvRow)
    (evs : list Event) : Outcome :=
  if (outputCsv o =? "")%string || (firstRow o =? 0) || (lastRow o =? 0) then
    Threw "outputCsv, firstRow and lastRow are required parameters"
  else if concurrencyLimit o =? 0 then
    Threw "Expected `concurrency` to be a number from 1 and up"
  else
    match exec o (init rows) evs with
    | Some s =>
        if settled s then
          Done (mkSummary (count404 s) (non404ErrorCount s)) (results s) s
        else Pending
    | None => Pending
    end.

End Auditor.


(* ================================================================== *)
(** ** automateAudits.js: the batch orchestrator                       *)
(* ================================================================== *)

Module Orchestrator.
Import JS.

(** A row object of csv-parser: its own properties in column order. *)
Definition Row := list (string * string).

(** [row[k]]. *)
Fixpoint get (k : string) (r : Row) : option string :=
  match r with
  | [] => None
  | (k', v) :: r' => if (k' =? k)%string then Some v else get k r'
  end.

(** [row[k] = v]: an existing property keeps its place, a new one is
    added last. *)
Fixpoint set (k v : string) (r : Row) : Row :=
  match r with
  | [] => [(k, v)]
  | (k', v') :: r' =>
      if (k' =? k)%string then (k, v) :: r' else (k', v') :: set k v r'
  end.

(** [Object.keys(row)]. *)
Definition keys (r : Row) : list string := map fst r.

(** The white space [String.prototype.trim] strips, among the code units
    below 256: TAB, LF, VT, FF, CR, SP and NBSP. *)
Definition isWhiteSpace (c : ascii) : bool :=
  let n := nat_of_ascii c in
  ((9 <=? n) && (n <=? 13)) || (n =? 32) || (n =? 160).

(** [String.prototype.trim], from its two halves. *)
Fixpoint trimStart (s : string) : string :=
  match s with
  | EmptyString => EmptyString
  | String c s' => if isWhiteSpace c then trimStart s' else s
  end.

Fixpoint trimEnd (s : string) : string :=
  match s with
  | EmptyString => EmptyString
  | String c s' =>
      match trimEnd s' with
      | EmptyString => if isWhiteSpace c then EmptyString else String c EmptyString
      | t => String c t
      end
  end.

Definition trim (s : string) : string := trimEnd (trimStart s).

(** [row['404s'] && row['404s'].trim() !== ''] (line 44). *)
Definition has_results (row : Row) : bool :=
  match get "404s" row with
  | None => false
  | Some v => negb (v =? "")%string && negb (trim v =? "")%string
  end.

(** [String.prototype.padStart(n, '0')]. *)
Definition padStart0 (n : nat) (s : string) : string :=
  (string_of_list_ascii (repeat "0"%char (n - String.length s)) ++ s)%string.

(** A value interpolated in a template literal. *)
Definition interpolate (v : option string) : string :=
  match v with
  | Some s => s
  | None => "undefined"
  end.

(** [buildOutputFilename(row)]; [None] is the TypeError of calling
    [padStart] on a missing ['Number']. *)
Definition buildOutputFilename (row : Row) : option string :=
  match get "Number" row with
  | None => None
  | Some n =>
      Some ("csv_output/" ++ padStart0 2 n ++ "_" ++ interpolate (get "State" row)
            ++ "_elections_" ++ interpolate (get "Type" row)
            ++ "_non_200_responses.csv")%string
  end.

Definition GROUPINGS_FILE : string := "election_groupings.csv".
Definition SITEMAP_CSV : string := "goodparty_sitemap_urls.csv".

(** What [await auditSitemapURLs(...)] yields. *)
Inductive AuditResult :=
| Resolved (count404 non404ErrorCount : nat)
| Rejected (err : string).

(** The file written by [csvWriter.writeRecords(rows)]: the header titles
    and, per record, the value of each header's field (empty when the
    record has no such field). *)
Record CsvFile := mkCsvFile {
  csv_path : string;
  csv_header : list string;
  csv_records : list (list string)
}.

(** The cell written for header [h] of record [r]. *)
Definition field (r : Row) (h : string) : string :=
  match get h r with
  | Some v => v
  | None => ""
  end.

Definition writeRecords (path : string) (headers : list string) (rows : list Row) : CsvFile :=
  mkCsvFile path headers (map (fun r => map (field r) headers) rows).

(** How [run] ends: the outer [catch] and [process.exit(1)], or the file
    written from the rows. *)
Inductive RunResult :=
| Fatal
| Written (file : CsvFile) (rows : list Row).

(** The two counts written back on success (lines 61-62). *)
Definition with_counts (count404 non404ErrorCount : nat) (row : Row) : Row :=
  set "Non-404 Errors" (String_of_nat non404ErrorCount)
      (set "404s" (String_of_nat count404) row).

Section Run.

(** The value of [Number(row['First Row'])], and the range auditor with
    the world it acts on. *)
Variable Num : Type.
Variable Number : option string -> Num.
Variable World : Type.

(** The options object passed to the range auditor. *)
Record AuditArgs := mkArgs {
  inputCsv : string;
  outputCsv : string;
  firstRow : Num;
  lastRow : Num
}.

Variable auditSitemapURLs : AuditArgs -> World -> AuditResult * World.

(** The calls made, in order, each with what it yielded. *)
Definition Log := list (AuditArgs * AuditResult).

(** The argument of the call for [row] (lines 46-58). *)
Definition args_of (row : Row) : option AuditArgs :=
  match buildOutputFilename row with
  | None => None
  | Some out =>
      Some (mkArgs SITEMAP_CSV out (Number (get "First Row" row))
                   (Number (get "Last Row" row)))
  end.

(** The [for (const row of rows)] loop: the rows as they are afterwards
    ([None] when a TypeError escaped the loop), the world, and the calls
    made with their results. *)
Fixpoint loop (rows : list Row) (w : World) : option (list Row) * World * Log :=
  match rows with
  | [] => (Some [], w, [])
  | row :: rest =>
      if has_results row then
        match loop rest w with
        | (Some rest', w', log) => (Some (row :: rest'), w', log)
        | (None, w', log) => (None, w', log)
        end
      else
        match args_of row with
        | None => (None, w, [])
        | Some a =>
            let (res, w1) := auditSitemapURLs a w in
            let row' :=
              match res with
              | Resolved c n => with_counts c n row
              | Rejected _ => row
              end in
            match loop rest w1 with
            | (Some rest', w', log) => (Some (row' :: rest'), w', (a, res) :: log)
            | (None, w', log) => (None, w', (a, res) :: log)
            end
        end
  end.

(** The body of [run], on the rows read from [GROUPINGS_FILE]. *)
Definition run (rows : list Row) (w : World) : RunResult * World * Log :=
  match rows with
  | [] => (Fatal, w, [])
  | first :: _ =>
      let headers := keys first in
      match loop rows w with
      | (Some rows', w', log) =>
          (Written (writeRecords GROUPINGS_FILE headers rows') rows', w', log)
      | (None, w', log) => (Fatal, w', log)
      end
  end.

End Run.

End Orchestrator.

(* ================================================================== *)
(** ** validateSitemapFiles.js: the SitemapValidator class             *)
(* ================================================================== *)

Module Validator.
Import JS.

Definition SITEMAP_NAMESPACE : string := "http://www.sitemaps.org/schemas/sitemap/0.9".
Definition VALID_CHANGEFREQ : list string :=
  ["always"; "hourly"; "daily"; "weekly"; "monthly"; "yearly"; "never"].
Definition MAX_URLS_PER_SITEMAP : N := 50000.
Definition MAX_SITEMAP_SIZE : N := 50 * 1024 * 1024.

(** *** Values of the parsed document

    What fast-xml-parser yields for a tag holding text: the text itself (a
    string, or a number when the text is numeric), or, when the tag has
    attributes, an object whose ['#text'] is that text.  A missing tag is
    [undefined].  Repeated tags (arrays) and nested elements are outside
    the shapes modelled here. *)
Inductive prim :=
| PStr (s : string)
| PNum (q : Q).

Inductive xval :=
| VUndefined
| VPrim (p : prim)
| VObj (text : option prim).

Definition truthy_prim (p : prim) : bool :=
  match p with
  | PStr s => negb (s =? "")%string
  | PNum q => negb (Qeq_bool q 0)
  end.

Definition truthy (v : xval) : bool :=
  match v with
  | VUndefined => false
  | VPrim p => truthy_prim p
  | VObj _ => true
  end.

(** [v['#text'] || v], for a [v] that is not [undefined]. *)
Definition text_or_self (v : xval) : xval :=
  match v with
  | VObj (Some p) => if truthy_prim p then VPrim p else v
  | _ => v
  end.

(** SameValueZero of [Set.prototype.has]; two parsed objects are never
    the same object. *)
Definition same_value (a b : xval) : bool :=
  match a, b with
  | VUndefined, VUndefined => true
  | VPrim (PStr s), VPrim (PStr t) => (s =? t)%string
  | VPrim (PNum p), VPrim (PNum q) => Qeq_bool p q
  | _, _ => false
  end.

Definition set_has (v : xval) (s : list xval) : bool := existsb (same_value v) s.
Definition set_add (v : xval) (s : list xval) : list xval :=
  if set_has v s then s else s ++ [v].

(** [String.prototype.includes]. *)
Fixpoint includes (needle hay : string) : bool :=
  String.prefix needle hay
  || match hay with
     | EmptyString => false
     | String _ hay' => includes needle hay'
     end.

(** One of [<url>]'s children of interest, and one of [<sitemap>]'s. *)
Record UrlEntry := mkUrl {
  loc : xval;
  lastmod : xval;
  changefreq : xval;
  priority : xval
}.

Record SitemapEntry := mkSitemap {
  sm_loc : xval;
  sm_lastmod : xval
}.

(** [node.url] / [node.sitemap]: absent, one entry, or an array. *)
Inductive entries (A : Type) :=
| Absent
| Single (e : A)
| Many (l : list A).
Arguments Absent {A}.
Arguments Single {A} e.
Arguments Many {A} l.

(** [Array.isArray(x) ? x : (x ? [x] : [])]. *)
Definition as_array {A : Type} (x : entries A) : list A :=
  match x with
  | Absent => []
  | Single e => [e]
  | Many l => l
  end.

Record UrlsetNode := mkUrlset {
  urlset_xmlns : option string;
  url : entries UrlEntry
}.

Record IndexNode := mkIndex {
  index_xmlns : option string;
  sitemap : entries SitemapEntry
}.

(** [parser.parse(content)]: the two roots looked at, [None] for a root
    that is absent or falsy (an empty element). *)
Record Parsed := mkParsed {
  sitemapindex : option IndexNode;
  urlset : option UrlsetNode
}.

(** The XML side of a content string: what [XMLValidator.validate] and
    [parser.parse] make of it. *)
Inductive Xml :=
| Malformed (report : string)
| ParseThrows (message : string)
| Parses (p : Parsed).

Record Content := mkContent {
  byteLength : N;
  xml : Xml
}.

(** *** The validator instance and its results

    [this.errors] and [this.warnings].  Both entry points, [validateFile]
    and [validateUrl], replace the two arrays before anything else, so a
    result handed out by an earlier call is not touched by a later one;
    results are therefore modelled as values. *)

Record Instance := mkInstance {
  errors : list string;
  warnings : list string
}.

Definition fresh : Instance := mkInstance [] [].

Definition push_error (m : string) (v : Instance) : Instance :=
  mkInstance (errors v ++ [m]) (warnings v).

Definition push_warning (m : string) (v : Instance) : Instance :=
  mkInstance (errors v) (warnings v ++ [m]).

(** A validation result; [childSitemaps] and [childResults] are the two
    optional properties [validateUrl] reads and writes. *)
#[warnings="-register-all"]
Inductive Results :=
| mkResults (valid : bool) (errs warns : list string)
            (childSitemaps : option (list string))
            (childResults : option (list (string * Results))).

Definition valid (r : Results) : bool :=
  match r with mkResults v _ _ _ _ => v end.
Definition result_errors (r : Results) : list string :=
  match r with mkResults _ e _ _ _ => e end.
Definition result_warnings (r : Results) : list string :=
  match r with mkResults _ _ w _ _ => w end.
Definition childSitemaps (r : Results) : option (list string) :=
  match r with mkResults _ _ _ c _ => c end.
Definition childResults (r : Results) : option (list (string * Results)) :=
  match r with mkResults _ _ _ _ c => c end.

(** [getResults()]. *)
Definition getResults (v : Instance) : Results :=
  mkResults (List.length (errors v) =? 0) (errors v) (warnings v) None None.

(** A call either returns or throws, leaving the instance as it is then. *)
Inductive completion (A : Type) :=
| Normal (a : A)
| Throw (message : string).
Arguments Normal {A} a.
Arguments Throw {A} message.

(** [(sizeInBytes / 1024 / 1024).toFixed(2)]: the quotient is exact, and
    [toFixed] rounds it to hundredths, halves upwards. *)
Definition megabytes_toFixed2 (sizeInBytes : N) : string :=
  let cents := ((200 * sizeInBytes + 1048576) / 2097152)%N in
  let frac := (cents mod 100)%N in
  (String_of_N (cents / 100) ++ "."
   ++ String_of_N (frac / 10) ++ String_of_N (frac mod 10))%string.

(** *** The date patterns of [isValidDate] *)

Inductive pat :=
| Digit
| Lit (c : ascii)
| Sign.

Definition is_digit (c : ascii) : bool :=
  let n := nat_of_ascii c in (48 <=? n) && (n <=? 57).

Definition pat_match (p : pat) (c : ascii) : bool :=
  match p with
  | Digit => is_digit c
  | Lit d => Ascii.eqb c d
  | Sign => Ascii.eqb c "+" || Ascii.eqb c "-"
  end.

(** [/^...$/.test(s)] for a pattern of fixed length. *)
Fixpoint test (p : list pat) (s : string) : bool :=
  match p, s with
  | [], EmptyString => true
  | x :: p', String c s' => pat_match x c && test p' s'
  | _, _ => false
  end.

Definition pat_date : list pat :=
  [Digit; Digit; Digit; Digit; Lit "-"; Digit; Digit; Lit "-"; Digit; Digit].
Definition pat_time : list pat :=
  [Lit "T"; Digit; Digit; Lit ":"; Digit; Digit; Lit ":"; Digit; Digit].
Definition patterns : list (list pat) :=
  [ pat_date;
    pat_date ++ pat_time ++ [Sign; Digit; Digit; Lit ":"; Digit; Digit];
    pat_date ++ pat_time ++ [Lit "Z"];
    pat_date ++ pat_time ++ [Lit "."; Digit; Digit; Digit; Lit "Z"] ].

(** [validateUrl]'s options; [None] is a depth that is [undefined] or
    [NaN]. *)
Record Options := mkOptions {
  recursive : bool;
  depth : option Z;
  maxDepth : option Z
}.

(** [a < b] on such numbers. *)
Definition js_lt (a b : option Z) : bool :=
  match a, b with
  | Some x, Some y => (x <? y)%Z
  | _, _ => false
  end.

(** [a === 0]. *)
Definition js_is_zero (a : option Z) : bool :=
  match a with
  | Some x => (x =? 0)%Z
  | None => false
  end.

(** [{ ...options, depth: options.depth + 1 }]. *)
Definition childOptions (options : Options) : Options :=
  mkOptions (recursive options) (option_map Z.succ (depth options))
            (maxDepth options).

(** [obj[key] = value] on an object used as a map from URL to result. *)
Fixpoint assign {A : Type} (key : string) (value : A) (obj : list (string * A))
    : list (string * A) :=
  match obj with
  | [] => [(key, value)]
  | (k, v) :: obj' =>
      if (k =? key)%string then (k, value) :: obj'
      else (k, v) :: assign key value obj'
  end.

(** What [fetch(url)] and [response.text()] give. *)
Inductive Body :=
| TextThrows (message : string)
| Text (content : Content).

Inductive FetchResult :=
| FetchThrows (message : string)
| Response (ok : bool) (status : nat) (statusText : string) (body : Body).

Inductive ReadResult :=
| ReadThrows (message : string)
| ReadOk (content : Content).

Section Builtins.

(** The built-ins the class calls: [new URL(s).protocol] ([None] when the
    constructor throws), [!isNaN(new Date(v).getTime())], [parseFloat]
    ([None] for [NaN]) and the string of a number. *)
Variable URL_protocol : string -> option string.
Variable Date_isValid : xval -> bool.
Variable parseFloat : string -> option Q.
Variable Number_toString : Q -> string.

(** The string of a value, as a template literal or a built-in sees it. *)
Definition toString (v : xval) : string :=
  match v with
  | VUndefined => "undefined"
  | VPrim (PStr s) => s
  | VPrim (PNum q) => Number_toString q
  | VObj _ => "[object Object]"
  end.

(** [isValidUrl(url)]. *)
Definition isValidUrl (v : xval) : bool :=
  match URL_protocol (toString v) with
  | Some protocol => (protocol =? "http:")%string || (protocol =? "https:")%string
  | None => false
  end.

(** [isValidDate(date)]. *)
Definition isValidDate (v : xval) : bool :=
  let isValidFormat := existsb (fun p => test p (toString v)) patterns in
  if negb isValidFormat then false else Date_isValid v.

Definition label (kind : string) (index : nat) : string :=
  (kind ++ " " ++ String_of_nat (index + 1) ++ ": ")%string.

(** The namespace check shared by both root kinds. *)
Definition check_xmlns (xmlns : option string) (v : Instance) : Instance :=
  let bad := match xmlns with
             | None => true
             | Some s => (s =? "")%string || negb (includes "sitemaps.org" s)
             end in
  if bad then push_error "Missing or invalid xmlns namespace" v else v.

(** The callback of [sitemaps.forEach] in [validateSitemapIndex]. *)
Definition check_sitemap (index : nat) (e : SitemapEntry) (v : Instance) : Instance :=
  let v1 :=
    if negb (truthy (sm_loc e)) then
      push_error (label "Sitemap" index ++ "Missing required <loc> element") v
    else if negb (isValidUrl (sm_loc e)) then
      push_error (label "Sitemap" index ++ "Invalid URL: " ++ toString (sm_loc e)) v
    else v in
  if truthy (sm_lastmod e) && negb (isValidDate (sm_lastmod e)) then
    push_warning (label "Sitemap" index ++ "Invalid lastmod date: "
                  ++ toString (sm_lastmod e)) v1
  else v1.

Fixpoint forEach_sitemaps (index : nat) (l : list SitemapEntry) (v : Instance) : Instance :=
  match l with
  | [] => v
  | e :: l' => forEach_sitemaps (S index) l' (check_sitemap index e v)
  end.

(** [validateSitemapIndex(sitemapindex, source)]. *)
Definition validateSitemapIndex (node : IndexNode) (v : Instance) : Results * Instance :=
  let v1 := check_xmlns (index_xmlns node) v in
  let sitemaps := as_array (sitemap node) in
  let v2 := if List.length sitemaps =? 0
            then push_warning "Sitemap index contains no sitemaps" v1 else v1 in
  let v3 := forEach_sitemaps 0 sitemaps v2 in
  (getResults v3, v3).

(** The three optional fields of a URL entry. *)
Definition check_lastmod (index : nat) (u : UrlEntry) (v : Instance) : Instance :=
  if truthy (lastmod u) then
    let lm := text_or_self (lastmod u) in
    if negb (isValidDate lm) then
      push_warning (label "URL" index ++ "Invalid lastmod date: " ++ toString lm) v
    else v
  else v.

Definition check_changefreq (index : nat) (u : UrlEntry) (v : Instance) : Instance :=
  if truthy (changefreq u) then
    let cf := text_or_self (changefreq u) in
    let known := match cf with
                 | VPrim (PStr s) => existsb (String.eqb s) VALID_CHANGEFREQ
                 | _ => false
                 end in
    if negb known then
      push_warning (label "URL" index ++ "Invalid changefreq: " ++ toString cf) v
    else v
  else v.

Definition check_priority (index : nat) (u : UrlEntry) (v : Instance) : Instance :=
  if truthy (priority u) then
    let bad := match parseFloat (toString (text_or_self (priority u))) with
               | None => true
               | Some p => negb (Qle_bool 0 p) || negb (Qle_bool p 1)
               end in
    if bad then
      push_warning (label "URL" index ++ "Invalid priority: " ++ toString (priority u)) v
    else v
  else v.

(** The two closing checks on [loc]; a [loc] that is no string has no
    [includes] method. *)
Definition check_common (index : nat) (l : xval) (v : Instance) : completion unit * Instance :=
  match l with
  | VPrim (PStr s) =>
      let v1 := if includes " " s then
                  push_error (label "URL" index ++ "Contains spaces (should be encoded): " ++ s) v
                else v in
      let v2 := if includes "&" s && negb (includes "&amp;" s) then
                  push_error (label "URL" index ++ "Unescaped ampersand: " ++ s) v1
                else v1 in
      (Normal tt, v2)
  | _ => (Throw "loc.includes is not a function", v)
  end.

(** The callback of [urls.forEach] in [validateUrlset], on the instance
    and the set of locations seen. *)
Definition check_url (index : nat) (u : UrlEntry) (st : Instance * list xval)
    : completion unit * (Instance * list xval) :=
  let (v, urlSet) := st in
  if negb (truthy (loc u)) then
    (Normal tt, (push_error (label "URL" index ++ "Missing required <loc> element") v, urlSet))
  else
    let l := text_or_self (loc u) in
    let v1 := if negb (isValidUrl l) then
                push_error (label "URL" index ++ "Invalid URL format: " ++ toString l) v
              else v in
    let v2 := if set_has l urlSet then
                push_warning (label "URL" index ++ "Duplicate URL: " ++ toString l) v1
              else v1 in
    let urlSet' := set_add l urlSet in
    let v3 := check_priority index u (check_changefreq index u (check_lastmod index u v2)) in
    let (c, v4) := check_common index l v3 in
    (c, (v4, urlSet')).

Fixpoint forEach_urls (index : nat) (l : list UrlEntry) (st : Instance * list xval)
    : completion unit * (Instance * list xval) :=
  match l with
  | [] => (Normal tt, st)
  | u :: l' =>
      match check_url index u st with
      | (Normal _, st') => forEach_urls (S index) l' st'
      | (Throw m, st') => (Throw m, st')
      end
  end.

(** [validateUrlset(urlset, source)]. *)
Definition validateUrlset (node : UrlsetNode) (v : Instance) : completion Results * Instance :=
  let v1 := check_xmlns (urlset_xmlns node) v in
  let urls := as_array (url node) in
  let v2 := if List.length urls =? 0
            then push_warning "Sitemap contains no URLs" v1 else v1 in
  let v3 := if (MAX_URLS_PER_SITEMAP <? N.of_nat (List.length urls))%N
            then push_error ("Too many URLs (" ++ String_of_nat (List.length urls)
                             ++ "). Maximum is " ++ String_of_N MAX_URLS_PER_SITEMAP) v2
            else v2 in
  match forEach_urls 0 urls (v3, []) with
  | (Normal _, (v4, _)) => (Normal (getResults v4), v4)
  | (Throw m, (v4, _)) => (Throw m, v4)
  end.

(** [validateContent(content, source, options)]. *)
Definition validateContent (content : Content) (v : Instance) : completion Results * Instance :=
  let v1 := if (MAX_SITEMAP_SIZE <? byteLength content)%N
            then push_error ("File size (" ++ megabytes_toFixed2 (byteLength content)
                             ++ "MB) exceeds 50MB limit") v
            else v in
  match xml content with
  | Malformed report =>
      let v2 := push_error ("Invalid XML: " ++ report) v1 in
      (Normal (getResults v2), v2)
  | ParseThrows m =>
      let v2 := push_error ("XML parsing error: " ++ m) v1 in
      (Normal (getResults v2), v2)
  | Parses p =>
      match sitemapindex p with
      | Some node =>
          let (r, v2) := validateSitemapIndex node v1 in (Normal r, v2)
      | None =>
          match urlset p with
          | Some node => validateUrlset node v1
          | None =>
              let v2 := push_error "Root element must be either <urlset> or <sitemapindex>" v1 in
              (Normal (getResults v2), v2)
          end
      end
  end.

(** *** Fetching and walking *)

Variable World : Type.
Variable fetch : string -> World -> FetchResult * World.
Variable readFile : string -> World -> ReadResult * World.

(** [validateFile(filePath)]; the instance starts from empty lists. *)
Definition validateFile (filePath : string) (w : World) : Results * World :=
  let (rd, w1) := readFile filePath w in
  match rd with
  | ReadThrows m =>
      (getResults (push_error ("Failed to read file: " ++ m) fresh), w1)
  | ReadOk content =>
      match validateContent content fresh with
      | (Normal r, _) => (r, w1)
      | (Throw m, v) => (getResults (push_error ("Failed to read file: " ++ m) v), w1)
      end
  end.

(** The [for (const childUrl of childSitemapsToProcess)] loop; [self] is
    [validateUrl] of a new [SitemapValidator]. *)
Fixpoint walk_children (self : string -> Options -> World -> Results * World)
    (children : list string) (options : Options)
    (acc : list (string * Results)) (w : World)
    : list (string * Results) * World :=
  match children with
  | [] => (acc, w)
  | childUrl :: rest =>
      let (r, w1) := self childUrl (childOptions options) w in
      walk_children self rest options (assign childUrl r acc) w1
  end.

(** Lines 68-93: the recursive part of [validateUrl], on the results of
    [validateContent]. *)
Definition walk (self : string -> Options -> World -> Results * World)
    (results : Results) (options : Options) (w : World) : Results * World :=
  match childSitemaps results with
  | Some children =>
      if recursive options && (0 <? List.length children)
         && js_lt (depth options) (maxDepth options) then
        let maxChildSitemaps :=
          if js_is_zero (depth options) then List.length children else 10 in
        let childSitemapsToProcess := firstn maxChildSitemaps children in
        let (kids, w1) := walk_children self childSitemapsToProcess options [] w in
        let warns :=
          if List.length childSitemapsToProcess <? List.length children then
            result_warnings results
            ++ [("Only validated " ++ String_of_nat maxChildSitemaps ++ " of "
                 ++ String_of_nat (List.length children) ++ " child sitemaps")%string]
          else result_warnings results in
        (mkResults (valid results) (result_errors results) warns
                   (childSitemaps results) (Some kids), w1)
      else (results, w)
  | None => (results, w)
  end.

(** [validateUrl(url, options)] with a bound on the nesting of calls; at
    the bound no nested call is due, since [depth >= maxDepth] there. *)
Fixpoint validateUrl_fuel (fuel : nat) (u : string) (options : Options) (w : World)
    : Results * World :=
  let (f, w1) := fetch u w in
  match f with
  | FetchThrows m =>
      (getResults (push_error ("Failed to fetch URL: " ++ m) fresh), w1)
  | Response ok status statusText body =>
      if negb ok then
        (getResults (push_error ("HTTP " ++ String_of_nat status ++ ": " ++ statusText) fresh), w1)
      else
        match body with
        | TextThrows m =>
            (getResults (push_error ("Failed to fetch URL: " ++ m) fresh), w1)
        | Text content =>
            match validateContent content fresh with
            | (Throw m, v) =>
                (getResults (push_error ("Failed to fetch URL: " ++ m) v), w1)
            | (Normal results, _) =>
                match fuel with
                | 0 => (results, w1)
                | S fuel' => walk (validateUrl_fuel fuel') results options w1
                end
            end
        end
  end.

(** Each nested call has a depth one larger, and none is made unless
    [depth < maxDepth]: this many levels can follow the first call. *)
Definition levels (options : Options) : nat :=
  match depth options, maxDepth options with
  | Some d, Some m => Z.to_nat (m - d)
  | _, _ => 0
  end.

Definition validateUrl (u : string) (options : Options) (w : World) : Results * World :=
  validateUrl_fuel (levels options) u options w.

End Builtins.

End Validator.

(* ================================================================== *)
(** ** processElectionGroupings.js: the ranges of the grouping file    *)
(* ================================================================== *)

Module Groupings.
Import JS.

Definition inputFile : string := "goodparty_sitemap_urls.csv".
Definition outputFile : string := "election_groupings.csv".
Definition startRow : nat := 949.

(** [s.split(sep)] for a separator of one character: never empty. *)
Fixpoint split (sep : ascii) (s : string) : list string :=
  match s with
  | EmptyString => [EmptyString]
  | String c s' =>
      if Ascii.eqb c sep then EmptyString :: split sep s'
      else match split sep s' with
           | [] => [String c EmptyString]
           | p :: ps => String c p :: ps
           end
  end.

(** [parts[i]] where the index is known to be in range. *)
Definition part (i : nat) (parts : list string) : string := nth i parts "".

Definition is_letter (c : ascii) : bool :=
  let n := nat_of_ascii c in
  ((65 <=? n) && (n <=? 90)) || ((97 <=? n) && (n <=? 122)).

(** [s.match(/^[a-z]+$/i)] as a truth value. *)
Definition letters_only (s : string) : bool :=
  negb (s =? "")%string && forallb is_letter (list_ascii_of_string s).

(** [parseUrl(url)]: [{ state, type }] or [null]. *)
Definition parseUrl (url : string) : option (string * string) :=
  let parts := split "/" url in
  if (5 <=? List.length parts) && (part 3 parts =? "elections")%string then
    if (part 4 parts =? "position")%string && (6 <=? List.length parts)
       && (String.length (part 5 parts) =? 2) then
      Some (part 5 parts, "positions")
    else if (String.length (part 4 parts) =? 2) && letters_only (part 4 parts) then
      Some (part 4 parts, "counties")
    else None
  else None.

(** An element of [ranges]; the first two fields hold whatever
    [currentState] and [currentType] are when it is pushed. *)
Record Range := mkRange {
  State : option string;
  Type_ : option string;
  First_Row : nat;
  Last_Row : nat
}.

(** The variables of [processCsv] that the callback updates. *)
Record Loop := mkLoop {
  currentState : option string;
  currentType : option string;
  startRowNum : nat;
  ranges : list Range
}.

Definition loop_init : Loop := mkLoop None None startRow [].

(** [ranges.push({ State: currentState, Type: currentType,
    'First Row': startRowNum, 'Last Row': last })]. *)
Definition push_range (last : nat) (st : Loop) : Loop :=
  mkLoop (currentState st) (currentType st) (startRowNum st)
         (ranges st ++ [mkRange (currentState st) (currentType st)
                                (startRowNum st) last]).

(** A string or [null] as a condition. *)
Definition truthy (v : option string) : bool :=
  match v with
  | Some s => negb (s =? "")%string
  | None => false
  end.

(** [s !== v]. *)
Definition differs (s : string) (v : option string) : bool :=
  match v with
  | Some t => negb (s =? t)%string
  | None => true
  end.

(** [row[Object.keys(row)[0]]]: the value of the first column. *)
Definition first_cell (row : Orchestrator.Row) : option string :=
  match row with
  | [] => None
  | (_, v) :: _ => Some v
  end.

(** The callback of [rows.forEach] for the row at [index] of [n] rows;
    [None] is the TypeError of [url.split] on [undefined]. *)
Definition visit (n index : nat) (row : Orchestrator.Row) (st : Loop) : option Loop :=
  match first_cell row with
  | None => None
  | Some url =>
      match parseUrl url with
      | None => Some st
      | Some (state, type) =>
          let st1 :=
            if differs state (currentState st) then
              let st' := if truthy (currentState st)
                         then push_range (startRow + index - 1) st else st in
              mkLoop (Some state) (Some type) (startRow + index) (ranges st')
            else if differs type (currentType st) then
              let st' := push_range (startRow + index - 1) st in
              mkLoop (currentState st') (Some type) (startRow + index) (ranges st')
            else st in
          Some (if index =? n - 1
                then push_range (startRow + index) st1 else st1)
      end
  end.

(** [rows.forEach(...)] from [index] on. *)
Fixpoint forEach (n index : nat) (rows : list Orchestrator.Row) (st : Loop)
    : option Loop :=
  match rows with
  | [] => Some st
  | row :: rest =>
      match visit n index row st with
      | Some st' => forEach n (S index) rest st'
      | None => None
      end
  end.

(** The rows kept by the ['data'] handler: those numbered [startRow] and
    up, the first data row being number 1. *)
Definition kept (data : list Orchestrator.Row) : list Orchestrator.Row :=
  skipn (startRow - 1) data.

(** The cell csv-writer writes for a field that may be [null]. *)
Definition cell (v : option string) : string :=
  match v with
  | Some s => s
  | None => ""
  end.

(** [processCsv()] on the data rows of [inputFile]: the file written, or
    [None] when the callback threw and nothing was written. *)
Definition processCsv (data : list Orchestrator.Row) : option Orchestrator.CsvFile :=
  let rows := kept data in
  match forEach (List.length rows) 0 rows loop_init with
  | None => None
  | Some st =>
      Some (Orchestrator.mkCsvFile outputFile
              ["State"; "Type"; "First Row"; "Last Row"]
              (map (fun r => [cell (State r);
                              cell (Type_ r);
                              String_of_nat (First_Row r);
                              String_of_nat (Last_Row r)])
                   (ranges st)))
  end.

End Groupings.

(* ================================================================== *)
(** ** sitemapHealthCheck.js: the SitemapHealthCheck class             *)
(* ================================================================== *)

Module HealthCheck.
Import JS Validator.

(** *** [this.results] *)

Record Broken := mkBroken {
  broken_url : string;
  broken_error : string;
  broken_identifier : string
}.

Record Empty := mkEmpty {
  empty_url : string;
  empty_identifier : string;
  empty_reason : option string
}.

Record Redirect := mkRedirect {
  redirect_url : string;
  redirect_status : nat;
  redirect_location : option string
}.

Record Suspicious := mkSuspicious {
  suspicious_url : string;
  suspicious_sitemap : string;
  suspicious_reason : string
}.

(** [urlsByStatus] is an object from status to count; the order of its
    keys, which only the printed report shows, is not modelled.
    [duplicateUrls] is the [Set] of every location met by
    [processUrlset]. *)
Record HealthResults := mkHealth {
  totalUrls : nat;
  urlsByStatus : list (string * nat);
  brokenSitemaps : list Broken;
  emptySitemaps : list Empty;
  urlsWithRedirects : list Redirect;
  urlsWith404s : list string;
  duplicateUrls : list xval;
  suspiciousUrls : list Suspicious
}.

(** The results the constructor builds. *)
Definition constructor : HealthResults := mkHealth 0 [] [] [] [] [] [] [].

Definition incr_totalUrls (r : HealthResults) : HealthResults :=
  mkHealth (totalUrls r + 1) (urlsByStatus r) (brokenSitemaps r) (emptySitemaps r)
           (urlsWithRedirects r) (urlsWith404s r) (duplicateUrls r) (suspiciousUrls r).

Definition set_urlsByStatus (o : list (string * nat)) (r : HealthResults) : HealthResults :=
  mkHealth (totalUrls r) o (brokenSitemaps r) (emptySitemaps r)
           (urlsWithRedirects r) (urlsWith404s r) (duplicateUrls r) (suspiciousUrls r).

Definition push_broken (b : Broken) (r : HealthResults) : HealthResults :=
  mkHealth (totalUrls r) (urlsByStatus r) (brokenSitemaps r ++ [b]) (emptySitemaps r)
           (urlsWithRedirects r) (urlsWith404s r) (duplicateUrls r) (suspiciousUrls r).

Definition push_empty (e : Empty) (r : HealthResults) : HealthResults :=
  mkHealth (totalUrls r) (urlsByStatus r) (brokenSitemaps r) (emptySitemaps r ++ [e])
           (urlsWithRedirects r) (urlsWith404s r) (duplicateUrls r) (suspiciousUrls r).

Definition push_redirect (x : Redirect) (r : HealthResults) : HealthResults :=
  mkHealth (totalUrls r) (urlsByStatus r) (brokenSitemaps r) (emptySitemaps r)
           (urlsWithRedirects r ++ [x]) (urlsWith404s r) (duplicateUrls r) (suspiciousUrls r).

Definition push_404 (u : string) (r : HealthResults) : HealthResults :=
  mkHealth (totalUrls r) (urlsByStatus r) (brokenSitemaps r) (emptySitemaps r)
           (urlsWithRedirects r) (urlsWith404s r ++ [u]) (duplicateUrls r) (suspiciousUrls r).

Definition add_duplicateUrls (l : xval) (r : HealthResults) : HealthResults :=
  mkHealth (totalUrls r) (urlsByStatus r) (brokenSitemaps r) (emptySitemaps r)
           (urlsWithRedirects r) (urlsWith404s r) (set_add l (duplicateUrls r))
           (suspiciousUrls r).

Definition push_suspicious (s : Suspicious) (r : HealthResults) : HealthResults :=
  mkHealth (totalUrls r) (urlsByStatus r) (brokenSitemaps r) (emptySitemaps r)
           (urlsWithRedirects r) (urlsWith404s r) (duplicateUrls r) (suspiciousUrls r ++ [s]).

(** [obj[key]]. *)
Fixpoint lookup (key : string) (obj : list (string * nat)) : option nat :=
  match obj with
  | [] => None
  | (k, n) :: obj' => if (k =? key)%string then Some n else lookup key obj'
  end.

(** [obj[key] = (obj[key] || 0) + 1]. *)
Definition tally (key : string) (obj : list (string * nat)) : list (string * nat) :=
  assign key (match lookup key obj with Some n => n | None => 0 end + 1) obj.

(** *** The URL patterns *)

(** [isSuspiciousUrl(url)], for a string. *)
Definition isSuspiciousUrl (u : string) : bool :=
  if includes "/elections/position/" u && includes "-(joint)" u then true
  else if includes "//" u && negb (includes "://" u) then true
  else if includes " " u || includes "%20" u then true
  else false.

(** [getSuspiciousReason(url)], for a string. *)
Definition getSuspiciousReason (u : string) : string :=
  if includes "-(joint)" u then "Malformed position name"
  else if includes "//" u then "Double slashes in path"
  else if includes " " u || includes "%20" u then "Contains spaces"
  else "Unknown pattern".

(** *** Pages

    What [response.text()] gives: whether the content is empty or white
    space only, and what [parser.parse] makes of it. *)
Inductive ParseResult :=
| ParseFails (message : string)
| Parsed_ (p : Parsed).

Record Page := mkPage {
  blank : bool;
  parse : ParseResult
}.

Inductive PageBody :=
| BodyThrows (message : string)
| BodyText (page : Page).

(** A GET: [fetch(url, ...)] rejects, or resolves to a response. *)
Inductive Reply :=
| ReplyThrows (message : string)
| ReplyResponse (ok : bool) (status : nat) (body : PageBody).

(** A HEAD with [redirect: 'manual']: the status and the [location]
    header. *)
Inductive HeadReply :=
| HeadThrows
| HeadResponse (status : nat) (location : option string).

(** The states of [checkStateSitemaps]. *)
Definition states : list string :=
  ["ak"; "al"; "ar"; "co"; "ct"; "dc"; "de"; "fl"; "ga"; "hi";
   "ia"; "id"; "il"; "in"; "ky"; "la"; "md"; "me"; "mn"; "mo";
   "mt"; "nc"; "nd"; "nh"; "nj"; "nm"; "nv"; "oh"; "ri"; "sc";
   "va"; "vt"; "wi"; "wv"; "wy"].

(** [processUrlset(sitemapUrl, urlset)]: the body of the loop, and the
    loop. *)
Definition count_url (u : UrlEntry) (r : HealthResults) : HealthResults :=
  let l := text_or_self (loc u) in
  if truthy l then add_duplicateUrls l (incr_totalUrls r) else r.

Definition processUrlset (urlset : UrlsetNode) (r : HealthResults) : HealthResults :=
  fold_left (fun r u => count_url u r) (as_array (url urlset)) r.

(** The three figures of the report's overview: URLs found, unique
    URLs, duplicate URLs. *)
Definition overview (r : HealthResults) : Z * Z * Z :=
  (Z.of_nat (totalUrls r),
   Z.of_nat (List.length (duplicateUrls r)),
   (Z.of_nat (totalUrls r) - Z.of_nat (List.length (duplicateUrls r)))%Z).

Section Network.

(** The network and [Math.random], each a reading of the world.  The
    argument of [fetch] is a string, or whatever a [<loc>] held; the
    number drawn is compared with a tenth, as [Math.random() < 0.1]
    does. *)
Variable World : Type.
Variable fetch : xval -> World -> Reply * World.
Variable head : string -> World -> HeadReply * World.
Variable random : World -> Q * World.

(** [checkUrlStatus(url)]. *)
Definition checkUrlStatus (u : string) (s : HealthResults * World) : HealthResults * World :=
  let (r, w) := s in
  let (reply, w1) := head u w in
  match reply with
  | HeadThrows => (set_urlsByStatus (tally "error" (urlsByStatus r)) r, w1)
  | HeadResponse status location =>
      let r1 := set_urlsByStatus (tally (String_of_nat status) (urlsByStatus r)) r in
      if status =? 404 then (push_404 u r1, w1)
      else if (300 <=? status) && (status <? 400) then
        (push_redirect (mkRedirect u status location) r1, w1)
      else (r1, w1)
  end.

(** [sampleCheckUrls(urls, sitemapIdentifier)]; a location that is
    there and is no string has no [includes], and the call throws. *)
Fixpoint sampleCheckUrls (urls : list UrlEntry) (sitemapIdentifier : string)
    (s : HealthResults * World) : completion unit * (HealthResults * World) :=
  match urls with
  | [] => (Normal tt, s)
  | u :: rest =>
      let l := text_or_self (loc u) in
      if negb (truthy l) then sampleCheckUrls rest sitemapIdentifier s
      else
        match l with
        | VPrim (PStr a) =>
            let (r, w) := s in
            let r1 := if isSuspiciousUrl a
                      then push_suspicious
                             (mkSuspicious a sitemapIdentifier (getSuspiciousReason a)) r
                      else r in
            let r2 := incr_totalUrls r1 in
            let (x, w1) := random w in
            if Qlt_le_dec x (1 # 10)
            then sampleCheckUrls rest sitemapIdentifier (checkUrlStatus a (r2, w1))
            else sampleCheckUrls rest sitemapIdentifier (r2, w1)
        | _ => (Throw "url.includes is not a function", s)
        end
  end.

(** [checkSingleSitemap(url, identifier)]. *)
Definition checkSingleSitemap (u identifier : string) (s : HealthResults * World)
    : HealthResults * World :=
  let (r, w) := s in
  let (reply, w1) := fetch (VPrim (PStr u)) w in
  match reply with
  | ReplyThrows m => (push_broken (mkBroken u m identifier) r, w1)
  | ReplyResponse ok status body =>
      if negb ok then
        if status =? 404
        then (push_broken (mkBroken u "404 Not Found" identifier) r, w1)
        else (push_broken (mkBroken u ("HTTP " ++ String_of_nat status) identifier) r, w1)
      else
        match body with
        | BodyThrows m => (push_broken (mkBroken u m identifier) r, w1)
        | BodyText page =>
            if blank page then (push_empty (mkEmpty u identifier None) r, w1)
            else
              match parse page with
              | ParseFails m => (push_broken (mkBroken u m identifier) r, w1)
              | Parsed_ p =>
                  match urlset p with
                  | None => (r, w1)
                  | Some node =>
                      let urls := as_array (url node) in
                      if List.length urls =? 0 then
                        (push_empty (mkEmpty u identifier (Some "No URLs in urlset")) r, w1)
                      else
                        match sampleCheckUrls (firstn 10 urls) identifier (r, w1) with
                        | (Normal _, s') => s'
                        | (Throw m, (r2, w2)) =>
                            (push_broken (mkBroken u m identifier) r2, w2)
                        end
                  end
              end
        end
  end.

(** The loop of [checkStateSitemaps], from index [i] on. *)
Fixpoint checkStates (baseUrl : string) (i : nat) (l : list string)
    (s : HealthResults * World) : HealthResults * World :=
  match l with
  | [] => s
  | state :: l' =>
      let candidateUrl := (baseUrl ++ "/sitemaps/candidates/" ++ state ++ "/sitemap/"
                           ++ String_of_nat i ++ ".xml")%string in
      let s1 := checkSingleSitemap candidateUrl ("candidates-" ++ state) s in
      let electionUrl := (baseUrl ++ "/sitemaps/state/" ++ state ++ "/sitemap/"
                          ++ String_of_nat i ++ ".xml")%string in
      let s2 := checkSingleSitemap electionUrl ("elections-" ++ state) s1 in
      checkStates baseUrl (S i) l' s2
  end.

(** [checkStateSitemaps()]. *)
Definition checkStateSitemaps (baseUrl : string) (s : HealthResults * World)
    : HealthResults * World :=
  checkStates baseUrl 0 states s.

(** [fetchAndParseSitemap(url)]; [None] is [null]. *)
Definition fetchAndParseSitemap (u : xval) (w : World) : option Parsed * World :=
  let (reply, w1) := fetch u w in
  match reply with
  | ReplyThrows _ => (None, w1)
  | ReplyResponse ok _ body =>
      if negb ok then (None, w1)
      else
        match body with
        | BodyThrows _ => (None, w1)
        | BodyText page =>
            match parse page with
            | ParseFails _ => (None, w1)
            | Parsed_ p => (Some p, w1)
            end
        end
  end.

(** [processSitemapIndex(sitemapindex)]: the loop over the entries. *)
Fixpoint processSitemaps (l : list SitemapEntry) (s : HealthResults * World)
    : HealthResults * World :=
  match l with
  | [] => s
  | e :: l' =>
      let (r, w) := s in
      let lc := text_or_self (sm_loc e) in
      if truthy lc then
        let (parsed, w1) := fetchAndParseSitemap lc w in
        match parsed with
        | Some p =>
            match urlset p with
            | Some node => processSitemaps l' (processUrlset node r, w1)
            | None => processSitemaps l' (r, w1)
            end
        | None => processSitemaps l' (r, w1)
        end
      else processSitemaps l' s
  end.

Definition processSitemapIndex (sitemapindex : IndexNode) (s : HealthResults * World)
    : HealthResults * World :=
  processSitemaps (as_array (sitemap sitemapindex)) s.

(** [runFullCheck()] of [new SitemapHealthCheck(baseUrl)]; the report is
    printed from the results returned. *)
Definition runFullCheck (baseUrl : string) (w : World) : HealthResults * World :=
  let mainSitemapUrl := (baseUrl ++ "/sitemap.xml")%string in
  let (mainSitemap, w1) := fetchAndParseSitemap (VPrim (PStr mainSitemapUrl)) w in
  match mainSitemap with
  | None => (constructor, w1)
  | Some p =>
      let s1 :=
        match sitemapindex p with
        | Some node => processSitemapIndex node (constructor, w1)
        | None =>
            match urlset p with
            | Some node => (processUrlset node constructor, w1)
            | None => (constructor, w1)
            end
        end in
      checkStateSitemaps baseUrl s1
  end.

End Network.

End HealthCheck.

(* ================================================================== *)
(** ** validateSitemapFiles.js: validating several sitemaps            *)
(* ================================================================== *)

Module Batch.
Import JS Validator.

(** The three counters the summary prints. *)
Record Totals := mkTotals {
  totalErrors : nat;
  totalWarnings : nat;
  totalChildSitemaps : nat
}.

(** [results[key]] for a key the object got by assignment; the paths are
    taken to be ordinary property names. *)
Fixpoint property (key : string) (obj : list (string * Results)) : option Results :=
  match obj with
  | [] => None
  | (k, r) :: obj' => if (k =? key)%string then Some r else property key obj'
  end.

(** The loop over [Object.entries(result.childResults)]. *)
Definition add_children (kids : list (string * Results)) (t : Totals) : Totals :=
  fold_left (fun t kid =>
               mkTotals (totalErrors t + List.length (result_errors (snd kid)))
                        (totalWarnings t + List.length (result_warnings (snd kid)))
                        (totalChildSitemaps t))
            kids t.

(** The states of [validateGoodPartyProblemSitemaps] and the index of
    the sitemap of each. *)
Definition problemStates : list string :=
  ["ak"; "al"; "ar"; "az"; "ca"; "co"; "ct"; "de"; "dc"; "fl";
   "ga"; "hi"; "ia"; "id"; "il"; "in"; "ks"; "ky"; "la"; "ma";
   "md"; "me"; "mi"; "mn"; "mo"; "ms"; "mt"; "nc"; "nd"; "ne";
   "nh"; "nj"; "nm"; "nv"; "ny"; "oh"; "ok"; "or"; "pa"; "ri";
   "sc"; "sd"; "tn"; "tx"; "ut"; "va"; "vt"; "wa"; "wi"; "wv";
   "wy"].

Definition stateIndexMap : list (string * nat) :=
  [("ak", 0); ("al", 1); ("ar", 2); ("az", 3); ("ca", 4); ("co", 5); ("ct", 6);
   ("de", 7); ("dc", 8); ("fl", 9); ("ga", 10); ("hi", 11); ("ia", 12); ("id", 13);
   ("il", 14); ("in", 15); ("ks", 16); ("ky", 17); ("la", 18); ("ma", 19); ("md", 20);
   ("me", 21); ("mi", 22); ("mn", 23); ("mo", 24); ("ms", 25); ("mt", 26); ("nc", 27);
   ("nd", 28); ("ne", 29); ("nh", 30); ("nj", 31); ("nm", 32); ("nv", 33); ("ny", 34);
   ("oh", 35); ("ok", 36); ("or", 37); ("pa", 38); ("ri", 39); ("sc", 40); ("sd", 41);
   ("tn", 42); ("tx", 43); ("ut", 44); ("va", 45); ("vt", 46); ("wa", 47); ("wi", 48);
   ("wv", 49); ("wy", 50)].

(** [stateIndexMap[state]]. *)
Fixpoint index_of (state : string) (m : list (string * nat)) : option nat :=
  match m with
  | [] => None
  | (k, i) :: m' => if (k =? state)%string then Some i else index_of state m'
  end.

(** *** The command line *)

Record Cli := mkCli {
  cli_recursive : bool;
  cli_goodparty : bool;
  cli_problemSitemaps : bool;
  cli_baseUrl : option string;
  cli_paths : list string
}.

(** The loop over the arguments; after [--goodparty] and
    [--problem-sitemaps] an argument that starts with [http] is taken
    for the base URL and skipped. *)
Fixpoint parseArgs (args : list string) (c : Cli) : Cli :=
  match args with
  | [] => c
  | a :: rest =>
      if (a =? "--recursive")%string then
        parseArgs rest (mkCli true (cli_goodparty c) (cli_problemSitemaps c)
                              (cli_baseUrl c) (cli_paths c))
      else if (a =? "--goodparty")%string then
        match rest with
        | next :: rest' =>
            if String.prefix "http" next
            then parseArgs rest' (mkCli (cli_recursive c) true (cli_problemSitemaps c)
                                        (Some next) (cli_paths c))
            else parseArgs rest (mkCli (cli_recursive c) true (cli_problemSitemaps c)
                                       (cli_baseUrl c) (cli_paths c))
        | [] => mkCli (cli_recursive c) true (cli_problemSitemaps c)
                      (cli_baseUrl c) (cli_paths c)
        end
      else if (a =? "--problem-sitemaps")%string then
        match rest with
        | next :: rest' =>
            if String.prefix "http" next
            then parseArgs rest' (mkCli (cli_recursive c) (cli_goodparty c) true
                                        (Some next) (cli_paths c))
            else parseArgs rest (mkCli (cli_recursive c) (cli_goodparty c) true
                                       (cli_baseUrl c) (cli_paths c))
        | [] => mkCli (cli_recursive c) (cli_goodparty c) true
                      (cli_baseUrl c) (cli_paths c)
        end
      else
        parseArgs rest (mkCli (cli_recursive c) (cli_goodparty c) (cli_problemSitemaps c)
                              (cli_baseUrl c) (cli_paths c ++ [a]))
  end.

(** What the command line ends in. *)
Inductive Outcome :=
| Usage
| Problems (results : list (string * (Results * Results))) (validCount errorCount : nat)
| Sitemaps (results : list (string * Results)) (t : Totals).

Section Batch.

Variable URL_protocol : string -> option string.
Variable Date_isValid : xval -> bool.
Variable parseFloat : string -> option Q.
Variable Number_toString : Q -> string.
Variable World : Type.
Variable fetch : string -> World -> FetchResult * World.
Variable readFile : string -> World -> ReadResult * World.

(** The body of the loop of [validateMultipleSitemaps]; one validator
    serves every path, and each of its two entry points starts from
    empty lists. *)
Definition validateOne (pathOrUrl : string) (options : Options)
    (acc : list (string * Results) * Totals * World)
    : list (string * Results) * Totals * World :=
  let '(results, t, w) := acc in
  let isUrl := String.prefix "http://" pathOrUrl || String.prefix "https://" pathOrUrl in
  let (result, w1) :=
    if isUrl
    then validateUrl URL_protocol Date_isValid parseFloat Number_toString World fetch
                     pathOrUrl options w
    else validateFile URL_protocol Date_isValid parseFloat Number_toString World readFile
                      pathOrUrl w in
  let results1 := assign pathOrUrl result results in
  let t1 := mkTotals (totalErrors t + List.length (result_errors result))
                     (totalWarnings t + List.length (result_warnings result))
                     (totalChildSitemaps t) in
  let t2 :=
    match childResults result with
    | Some kids =>
        if recursive options then
          add_children kids
            (mkTotals (totalErrors t1) (totalWarnings t1)
                      (totalChildSitemaps t1 + List.length kids))
        else t1
    | None => t1
    end in
  (results1, t2, w1).

(** [validateMultipleSitemaps(paths, options)]: the results returned,
    and the totals of the summary. *)
Definition validateMultipleSitemaps (paths : list string) (options : Options) (w : World)
    : list (string * Results) * Totals * World :=
  fold_left (fun acc pathOrUrl => validateOne pathOrUrl options acc)
            paths ([], mkTotals 0 0 0, w).

(** A base URL in a template literal; [None] is [null], which the
    command line passes when no base URL is given, and which the default
    value of the parameter does not replace. *)
Definition template (baseUrl : option string) : string :=
  match baseUrl with
  | Some b => b
  | None => "null"
  end.

(** [validateGoodPartySitemaps(baseUrl)]; the options are the object
    [{ recursive: true }], which has no depth. *)
Definition validateGoodPartySitemaps (baseUrl : option string) (w : World)
    : list (string * Results) * Totals * World :=
  let mainSitemap := (template baseUrl ++ "/sitemap.xml")%string in
  validateMultipleSitemaps [mainSitemap] (mkOptions true None None) w.

(** The body of the loop of [validateGoodPartyProblemSitemaps]: two new
    validators, each called with the default options. *)
Definition validateState (baseUrl : option string) (state : string)
    (acc : list (string * (Results * Results)) * nat * nat * World)
    : list (string * (Results * Results)) * nat * nat * World :=
  let '(results, validCount, errorCount, w) := acc in
  let index := match index_of state stateIndexMap with
               | Some i => String_of_nat i
               | None => "undefined"
               end in
  let candidateUrl := (template baseUrl ++ "/sitemaps/candidates/" ++ state
                       ++ "/sitemap/" ++ index ++ ".xml")%string in
  let stateUrl := (template baseUrl ++ "/sitemaps/state/" ++ state
                   ++ "/sitemap/" ++ index ++ ".xml")%string in
  let defaults := mkOptions false (Some 0%Z) (Some 3%Z) in
  let (candidateResult, w1) :=
    validateUrl URL_protocol Date_isValid parseFloat Number_toString World fetch
                candidateUrl defaults w in
  let '(validCount1, errorCount1) :=
    if valid candidateResult then (validCount + 1, errorCount)
    else (validCount, errorCount + 1) in
  let (stateResult, w2) :=
    validateUrl URL_protocol Date_isValid parseFloat Number_toString World fetch
                stateUrl defaults w1 in
  let '(validCount2, errorCount2) :=
    if valid stateResult then (validCount1 + 1, errorCount1)
    else (validCount1, errorCount1 + 1) in
  (assign state (candidateResult, stateResult) results, validCount2, errorCount2, w2).

(** [validateGoodPartyProblemSitemaps(baseUrl)]: the results returned,
    and the two counts of the summary. *)
Definition validateGoodPartyProblemSitemaps (baseUrl : option string) (w : World)
    : list (string * (Results * Results)) * nat * nat * World :=
  fold_left (fun acc state => validateState baseUrl state acc)
            problemStates ([], 0, 0, w).

(** The command line interface, on [process.argv.slice(2)]. *)
Definition main (args : list string) (w : World) : Outcome * World :=
  if List.length args =? 0 then (Usage, w)
  else
    let c := parseArgs args (mkCli false false false None []) in
    if cli_problemSitemaps c then
      let '(results, validCount, errorCount, w1) :=
        validateGoodPartyProblemSitemaps (cli_baseUrl c) w in
      (Problems results validCount errorCount, w1)
    else if cli_goodparty c then
      let '(results, t, w1) := validateGoodPartySitemaps (cli_baseUrl c) w in
      (Sitemaps results t, w1)
    else
      let '(results, t, w1) :=
        validateMultipleSitemaps (cli_paths c)
                                 (mkOptions (cli_recursive c) None None) w in
      (Sitemaps results t, w1).

End Batch.

End Batch.

(* ================================================================== *)
(** ** Notions used to state the facts about the sweep                 *)
(* ================================================================== *)

Module AuditorSpec.
Import Auditor.

(** The rows [checkUrl] pushes for one reply (lines 1132-1169): nothing
    for a 200, a status row for any other response, an error row when no
    response was obtained. *)
Definition outcome_rows (u : Url) (r : NetReply) : list ResultRow :=
  match r with
  | HttpResponse st => if (st =? 200)%Z then [] else [mkRow u (Some st) None]
  | NoResponse => [mkRow u None (Some "No response received")]
  | SetupFailure m => [mkRow u None (Some m)]
  end.

(** The same for an entry of the log of replies. *)
Definition rows_of_reply (p : Task * NetReply) : list ResultRow :=
  outcome_rows (task_url (fst p)) (snd p).

(** The accounting invariant of a sweep. *)
Definition accounted (s : State) : Prop :=
  count404 s + non404ErrorCount s = List.length (results s)
  /\ results s = flat_map rows_of_reply (replies s).

(** The reply counts as a 404. *)
Definition is_404 (r : NetReply) : bool :=
  match r with
  | HttpResponse st => (st =? 404)%Z
  | _ => false
  end.

(** The reply counts as a non-404 error: a response that is neither 200
    nor 404, or no response at all. *)
Definition is_non404_error (r : NetReply) : bool :=
  match r with
  | HttpResponse st => negb (st =? 200)%Z && negb (st =? 404)%Z
  | _ => true
  end.

(** The increment a test contributes to a counter. *)
Definition b2n (b : bool) : nat := if b then 1 else 0.

(** [shouldStop] is raised exactly when the counter reaches the threshold. *)
Definition stop_flag_ok (o : Options) (s : State) : Prop :=
  shouldStop s
  = (0 <? maxNon404Results o) && (maxNon404Results o <=? non404ErrorCount s).

(** The effect of a run from [s] to [s'] that starts with the stop flag
    up: the flag stays up, no request is issued, no task comes into
    flight, and the replies [new] received meanwhile all answer requests
    that were in flight in [s]; each is recorded and counted. *)
Record stopped_effect (o : Options) (s s' : State) (new : list (Task * NetReply)) : Prop := {
  se_stop : shouldStop s' = true;
  se_requested : requested s' = requested s;
  se_active : forall t, In t (active s') -> In t (active s);
  se_replies : replies s' = replies s ++ new;
  se_inflight : forall t rep, In (t, rep) new -> In t (active s);
  se_results : results s' = results s ++ flat_map rows_of_reply new;
  se_count404 :
    count404 s' = count404 s + List.length (filter is_404 (map snd new));
  se_non404 :
    non404ErrorCount s'
    = non404ErrorCount s + List.length (filter is_non404_error (map snd new))
}.

(** The data handler's test on a row emitted as number [i + 1]. *)
Definition picked (o : Options) (p : nat * CsvRow) : bool :=
  (1 <=? fst p) && ((firstRow o <=? fst p) && (fst p <=? lastRow o)).

(** The range test on a 1-based data-row index. *)
Definition in_range (o : Options) (p : nat * CsvRow) : bool :=
  (firstRow o <=? fst p) && (fst p <=? lastRow o).

(** The thunk created for data row [fst p]. *)
Definition task_of (p : nat * CsvRow) : Task :=
  mkTask (fst p) (nth_error (snd p) 0).

(** The thunks created while reading the rows [done], in order. *)
Definition tasks_of (o : Options) (done : list CsvRow) : list Task :=
  map task_of (filter (picked o) (combine (seq 0 (List.length done)) done)).

(** Rows read so far and the thunks created for them. *)
Definition selection_ok (o : Options) (rows : list CsvRow) (s : State) : Prop :=
  shouldStop s = false
  /\ exists done, rows = done ++ stream s
       /\ rowNumber s = List.length done
       /\ requested s ++ queue s = tasks_of o done.

(** All rows are read first, then each waiting thunk is started and
    answered in turn. *)
Definition sequential (net : Task -> NetReply) (n : nat) (ts : list Task) : list Event :=
  repeat EvData n
  ++ flat_map (fun t => [EvStart; EvReply (task_row t) (net t)]) ts.

(** The event is a row of the stream. *)
Definition is_data (e : Event) : Prop :=
  match e with EvData => True | _ => False end.

(** *** A sweep of three rows *)

(** A header and three URLs. *)
Definition demo_rows : list CsvRow :=
  [["URL"]; ["https://example.com/a"]; ["https://example.com/b"];
   ["https://example.com/c"]].

(** Rows 1 to 3, two requests at a time, threshold [T]. *)
Definition demo_options (T : nat) : Options :=
  mkOptions "csv_output/demo.csv" 1 3 2 10000 T.

(** All rows are read; the requests of rows 1 and 2 start; row 2 is
    answered 404, which frees a slot for row 3; row 1 is answered 200 and
    row 3 is not answered at all. *)
Definition demo_schedule : list Event :=
  [EvData; EvData; EvData; EvData; EvStart; EvStart;
   EvReply 2 (HttpResponse 404); EvStart; EvReply 1 (HttpResponse 200);
   EvReply 3 NoResponse].

(** The state a schedule leads to (the state itself when the schedule is
    not one of the run). *)
Definition state_after (o : Options) (s : State) (evs : list Event) : State :=
  match exec o s evs with
  | Some s' => s'
  | None => s
  end.

Definition demo_final : State :=
  Eval vm_compute in state_after (demo_options 0) (init demo_rows) demo_schedule.

(** With threshold 1: the 500 answered for row 1 raises the flag while
    row 2 is in flight and row 3 waits; afterwards row 3 is started and
    row 2 is answered 404. *)
Definition demo_until_stop : list Event :=
  [EvData; EvData; EvData; EvData; EvStart; EvStart; EvReply 1 (HttpResponse 500)].

Definition demo_after_stop : list Event :=
  [EvStart; EvReply 2 (HttpResponse 404)].

Definition demo_stopped : State :=
  Eval vm_compute in state_after (demo_options 1) (init demo_rows) demo_until_stop.

Definition demo_drained : State :=
  Eval vm_compute in state_after (demo_options 1) demo_stopped demo_after_stop.

End AuditorSpec.

(* ================================================================== *)
(** ** Notions used to state the facts about the orchestrator          *)
(* ================================================================== *)

Module OrchestratorSpec.
Import JS Orchestrator.

(** A recorded count is blank: missing, empty or white space only. *)
Definition blank (v : option string) : bool :=
  match v with
  | None => true
  | Some s => forallb isWhiteSpace (list_ascii_of_string s)
  end.

(** The row is still to be audited, as line 44 decides it. *)
Definition pending (row : Row) : bool := blank (get "404s" row).

(** Both recorded counts of the row are blank. *)
Definition counts_blank (row : Row) : bool :=
  blank (get "404s" row) && blank (get "Non-404 Errors" row).

(** Some recorded count of the row is blank. *)
Definition some_count_blank (row : Row) : bool :=
  blank (get "404s" row) || blank (get "Non-404 Errors" row).

(** Every row still to be audited has the ['Number'] column that
    [buildOutputFilename] pads. *)
Definition numbered (rows : list Row) : Prop :=
  forall r, In r rows -> pending r = true -> get "Number" r <> None.

(** What the audit of one pending row leaves in its place. *)
Definition row_after (res : AuditResult) (row : Row) : Row :=
  match res with
  | Resolved c n => with_counts c n row
  | Rejected _ => row
  end.

Section Processed.

Variable Num : Type.
Variable Number : option string -> Num.

(** How the rows after the loop relate to the rows before it and to the
    calls made: a row with results is kept and costs no call; a pending
    row costs one call and receives the two counts when the call
    resolves, and is kept as it was when the call rejects. *)
Inductive processed : list Row -> Log Num -> list Row -> Prop :=
| processed_nil : processed [] [] []
| processed_skip : forall row rest log rest',
    pending row = false ->
    processed rest log rest' ->
    processed (row :: rest) log (row :: rest')
| processed_ok : forall row a c n rest log rest',
    pending row = true -> args_of Num Number row = Some a ->
    processed rest log rest' ->
    processed (row :: rest) ((a, Resolved c n) :: log)
              (with_counts c n row :: rest')
| processed_failed : forall row a err rest log rest',
    pending row = true -> args_of Num Number row = Some a ->
    processed rest log rest' ->
    processed (row :: rest) ((a, Rejected err) :: log) (row :: rest').

End Processed.

(** A store of three ranges and an auditor that fails once. *)
Definition demo_row (number state l404 lnon : string) : Row :=
  [("Number", number); ("State", state); ("Type", "counties");
   ("First Row", "949"); ("Last Row", "1010");
   ("404s", l404); ("Non-404 Errors", lnon)].

Definition demo_store : list Row :=
  [demo_row "1" "ak" "" ""; demo_row "2" "al" " " ""; demo_row "3" "ar" "" ""].

(** The world counts the calls; the second call rejects. *)
Definition demo_audit (a : AuditArgs (option string)) (w : nat) : AuditResult * nat :=
  (if w =? 1 then Rejected "timeout" else Resolved 3 1, S w).

Definition demo_run := run (option string) (fun v => v) nat demo_audit.
Definition demo_args_of := args_of (option string) (fun v => v).

(** A store whose two columns disagree. *)
Definition mixed_rows : list Row :=
  [demo_row "1" "ak" "" "7"; demo_row "2" "al" "3" ""].

End OrchestratorSpec.

(* ================================================================== *)
(** ** Notions used to state the facts about the validator             *)
(* ================================================================== *)

Module ValidatorSpec.
Import JS Validator.

(** The instance [v] with [es] and [ws] pushed after its own messages. *)
Definition ext (v : Instance) (es ws : list string) : Instance :=
  mkInstance (errors v ++ es) (warnings v ++ ws).

(** [f] only pushes messages, and which ones does not depend on the
    instance it is given. *)
Definition framed (f : Instance -> Instance) : Prop :=
  exists es ws, forall v, f v = ext v es ws.

(** The location has an ampersand that does not start an [&amp;]. *)
Fixpoint has_bare_ampersand (s : string) : bool :=
  match s with
  | EmptyString => false
  | String c s' =>
      (Ascii.eqb c "&" && negb (String.prefix "amp;" s')) || has_bare_ampersand s'
  end.

(** *** A small site *)

(** A stand-in for [new URL(s).protocol] that knows the two schemes. *)
Definition demo_protocol (s : string) : option string :=
  if String.prefix "https://" s then Some "https:"
  else if String.prefix "http://" s then Some "http:"
  else None.

(** A 200 response holding a sitemap index with the given children. *)
Definition demo_index (children : list string) : FetchResult :=
  Response true 200 "OK"
    (Text (mkContent 400
             (Parses (mkParsed
                        (Some (mkIndex (Some SITEMAP_NAMESPACE)
                                       (Many (map (fun c => mkSitemap (VPrim (PStr c)) VUndefined)
                                                  children))))
                        None)))).

(** A URL set with the given locations and no optional field. *)
Definition demo_urlset (locs : list string) : Content :=
  mkContent 400
    (Parses (mkParsed None
               (Some (mkUrlset (Some SITEMAP_NAMESPACE)
                               (Many (map (fun l => mkUrl (VPrim (PStr l)) VUndefined
                                                          VUndefined VUndefined)
                                          locs)))))).

(** An index whose two children are indexes themselves; the world is the
    list of the URLs fetched so far. *)
Definition demo_fetch (u : string) (w : list string) : FetchResult * list string :=
  ((if (u =? "https://example.com/sitemap.xml")%string then
      demo_index ["https://example.com/a.xml"; "https://example.com/b.xml"]
    else if (u =? "https://example.com/a.xml")%string then
      demo_index ["https://example.com/a1.xml"]
    else if (u =? "https://example.com/b.xml")%string then
      demo_index ["https://example.com/b1.xml"]
    else if (u =? "https://example.com/a1.xml")%string then
      Response true 200 "OK" (Text (demo_urlset ["https://example.com/page"]))
    else Response false 404 "Not Found" (Text (mkContent 0 (Malformed "")))),
   w ++ [u]).

(** The validator on that site; the other built-ins are not reached by
    the documents above. *)
Definition demo_validateUrl :=
  validateUrl demo_protocol (fun _ => true) (fun _ => None) (fun _ => "0")
              (list string) demo_fetch.

Definition demo_validateContent :=
  validateContent demo_protocol (fun _ => true) (fun _ => None) (fun _ => "0").

End ValidatorSpec.

(* ================================================================== *)
(** ** Notions used to state the facts about the grouping ranges       *)
(* ================================================================== *)

Module GroupingsSpec.
Import JS Groupings.

(** The group a range stands for. *)
Definition label (r : Range) : option string * option string :=
  (State r, Type_ r).

(** The range names a two-character state and one of the two types. *)
Definition labelled (r : Range) : Prop :=
  exists s t, State r = Some s /\ Type_ r = Some t
              /\ String.length s = 2 /\ (t = "positions" \/ t = "counties").

(** The ranges are not empty inside and follow one another without gap
    or overlap, from row [first] up to the row before [next]. *)
Fixpoint chained (first : nat) (rs : list Range) (next : nat) : Prop :=
  match rs with
  | [] => first = next
  | r :: rs' =>
      First_Row r = first /\ First_Row r <= Last_Row r
      /\ chained (S (Last_Row r)) rs' next
  end.

(** Two ranges that follow one another stand for different groups. *)
Fixpoint distinct_neighbours (rs : list Range) : Prop :=
  match rs with
  | r1 :: (r2 :: _) as rs' => label r1 <> label r2 /\ distinct_neighbours rs'
  | _ => True
  end.

(** The last range, if any, does not stand for group [l]. *)
Definition last_differs (rs : list Range) (l : option string * option string) : Prop :=
  forall pre r, rs = pre ++ [r] -> label r <> l.

(** The row is read and is an election URL. *)
Definition parses (row : Orchestrator.Row) : Prop :=
  exists u g, first_cell row = Some u /\ parseUrl u = Some g.

(** The row is read and is no election URL. *)
Definition unparsed (row : Orchestrator.Row) : Prop :=
  exists u, first_cell row = Some u /\ parseUrl u = None.

(** What holds of the loop variables before the row at index [i], while
    the closing push of the last row has not been made: nothing was
    recognised yet, or the ranges pushed so far end just before the
    start of the current group, which began before index [i]. *)
Definition open_at (i : nat) (st : Loop) : Prop :=
  match currentState st with
  | None => ranges st = [] /\ currentType st = None
  | Some s =>
      exists t first,
        currentType st = Some t
        /\ String.length s = 2 /\ (t = "positions" \/ t = "counties")
        /\ startRow <= first
        /\ startRowNum st < startRow + i
        /\ chained first (ranges st) (startRowNum st)
        /\ Forall labelled (ranges st)
        /\ distinct_neighbours (ranges st)
        /\ last_differs (ranges st) (Some s, Some t)
  end.

(** What holds after the closing push at the last of [n] rows. *)
Definition closed_at (n : nat) (st : Loop) : Prop :=
  ranges st <> []
  /\ Forall labelled (ranges st)
  /\ distinct_neighbours (ranges st)
  /\ exists first, startRow <= first /\ chained first (ranges st) (startRow + n).

(** The row where the first range starts, or would start. *)
Definition head_start (st : Loop) : nat :=
  match ranges st with
  | r :: _ => First_Row r
  | [] => startRowNum st
  end.

(** What the rows [seen] so far say about the loop variables: no group is
    current as long as none of them is an election URL, and the first
    range starts at the first of them that is one. *)
Definition anchored (seen : list Orchestrator.Row) (st : Loop) : Prop :=
  match currentState st with
  | None => Forall unparsed seen /\ ranges st = []
  | Some _ =>
      exists pre x post,
        seen = pre ++ x :: post /\ Forall unparsed pre /\ parses x
        /\ head_start st = startRow + List.length pre
  end.

(** The current group was opened by one of the rows [seen], an election
    URL of that group, and [startRowNum] is the number of that row. *)
Definition started (seen : list Orchestrator.Row) (st : Loop) : Prop :=
  match currentState st with
  | None => True
  | Some s =>
      exists t pre x post u,
        currentType st = Some t
        /\ seen = pre ++ x :: post
        /\ first_cell x = Some u /\ parseUrl u = Some (s, t)
        /\ startRowNum st = startRow + List.length pre
  end.

(** No character of [s] is [sep]. *)
Definition free_of (sep : ascii) (s : string) : bool :=
  forallb (fun c => negb (Ascii.eqb c sep)) (list_ascii_of_string s).

(** The rows csv-parser yields for a file written by csv-writer: one
    object per record, keyed by the header. *)
Definition read_back (f : Orchestrator.CsvFile) : list Orchestrator.Row :=
  map (combine (Orchestrator.csv_header f)) (Orchestrator.csv_records f).

(** *** A sitemap tail *)

(** A row of the sitemap CSV holding an election URL. *)
Definition demo_url (path : string) : Orchestrator.Row :=
  [("URL", ("https://goodparty.org/elections/" ++ path)%string)].

(** A row holding a URL that is no election URL. *)
Definition demo_other : Orchestrator.Row :=
  [("URL", "https://goodparty.org/about")].

(** Two county rows of one state, a position row of the same state, a
    foreign row, and a county row of another state. *)
Definition demo_kept : list Orchestrator.Row :=
  [demo_url "ak/anchorage"; demo_url "ak/juneau"; demo_url "position/ak/mayor";
   demo_other; demo_url "al/mobile"].

(** The loop variables after a loop that ran to its end. *)
Definition loop_after (rows : list Orchestrator.Row) : Loop :=
  match forEach (List.length rows) 0 rows loop_init with
  | Some st => st
  | None => loop_init
  end.

Definition demo_tiled : Loop :=
  Eval vm_compute in loop_after (demo_kept ++ [demo_url "al/shelby"]).

Definition demo_cut : Loop :=
  Eval vm_compute in loop_after (demo_kept ++ [demo_other]).

(** A sitemap whose rows before [startRow] are of no interest. *)
Definition demo_data : list Orchestrator.Row :=
  repeat demo_other (startRow - 1) ++ demo_kept ++ [demo_url "al/shelby"].

Definition demo_file : Orchestrator.CsvFile :=
  Eval vm_compute in
    match processCsv demo_data with
    | Some f => f
    | None => Orchestrator.mkCsvFile "" [] []
    end.

End GroupingsSpec.

(* ================================================================== *)
(** ** Further notions about the sweep                                 *)
(* ================================================================== *)

Module AuditorMoreSpec.
Import Auditor AuditorSpec.

(** At most [concurrencyLimit] requests are in flight, the stop flag is
    as the counter says, and once it is up the counter can still grow by
    the requests in flight only, which leaves it below
    [maxNon404Results + concurrencyLimit]. *)
Definition bounded (o : Options) (s : State) : Prop :=
  List.length (active s) <= concurrencyLimit o
  /\ stop_flag_ok o s
  /\ (shouldStop s = true ->
      non404ErrorCount s + List.length (active s)
      <= maxNon404Results o + concurrencyLimit o - 1).

(** The row records a 404. *)
Definition row_is_404 (row : ResultRow) : bool :=
  match status row with
  | Some st => (st =? 404)%Z
  | None => false
  end.

(** Exactly one of [status] and [error] is set. *)
Definition one_populated (row : ResultRow) : Prop :=
  (status row <> None /\ error row = None)
  \/ (status row = None /\ error row <> None).

(** The two counters are the numbers of recorded rows of each kind. *)
Definition tallied (s : State) : Prop :=
  count404 s = List.length (filter row_is_404 (results s))
  /\ non404ErrorCount s
     = List.length (filter (fun row => negb (row_is_404 row)) (results s))
  /\ Forall one_populated (results s).

(** Every request issued was answered or is in flight. *)
Definition answered (s : State) : Prop :=
  Permutation (requested s) (map fst (replies s) ++ active s).

(** The requests issued so far are the first of the thunks created for
    the rows [done] read before the stop flag went up; while the flag is
    down, the others wait in the limiter and the stream holds the rows
    that follow. *)
Definition in_row_order (o : Options) (rows : list CsvRow) (s : State) : Prop :=
  exists done rest q,
    rows = done ++ rest
    /\ requested s ++ q = tasks_of o done
    /\ (shouldStop s = false ->
        rest = stream s /\ q = queue s /\ rowNumber s = List.length done).

End AuditorMoreSpec.

(* ================================================================== *)
(** ** Further notions about the validator                             *)
(* ================================================================== *)

Module ValidatorMoreSpec.
Import JS Validator ValidatorSpec.

(** The namespace attribute passes the check of lines 149 and 187. *)
Definition xmlns_ok (xmlns : option string) : bool :=
  match xmlns with
  | Some s => negb (s =? "")%string && includes "sitemaps.org" s
  | None => false
  end.

(** The location of the entry is there and its text is no string, so
    that [loc.includes] is no function. *)
Definition breaks (u : UrlEntry) : bool :=
  truthy (loc u)
  && match text_or_self (loc u) with
     | VPrim (PStr _) => false
     | _ => true
     end.

(** The location of the entry is there, with a value [Set.prototype.has]
    finds equal to [x]. *)
Definition seen_as (x : xval) (u : UrlEntry) : bool :=
  truthy (loc u) && same_value x (text_or_self (loc u)).

Section Accepted.

Variable URL_protocol : string -> option string.
Variable Number_toString : Q -> string.

(** The entry of a URL set draws no error: its location is there, is
    text, is an http or https URL, has no space, and has no ampersand
    unless it has an [&amp;] somewhere. *)
Definition accepted (u : UrlEntry) : bool :=
  truthy (loc u)
  && match text_or_self (loc u) with
     | VPrim (PStr s) =>
         isValidUrl URL_protocol Number_toString (VPrim (PStr s))
         && negb (includes " " s)
         && negb (includes "&" s && negb (includes "&amp;" s))
     | _ => false
     end.

(** The entry of a sitemap index draws no error. *)
Definition listed (e : SitemapEntry) : bool :=
  truthy (sm_loc e) && isValidUrl URL_protocol Number_toString (sm_loc e).

End Accepted.

(** The message of the size check. *)
Definition size_message (size : N) : string :=
  ("File size (" ++ megabytes_toFixed2 size ++ "MB) exceeds 50MB limit")%string.

(** A URL set document of the given size. *)
Definition urlset_document (size : N) (node : UrlsetNode) : Content :=
  mkContent size (Parses (mkParsed None (Some node))).

(** A sitemap index document of the given size. *)
Definition index_document (size : N) (node : IndexNode) : Content :=
  mkContent size (Parses (mkParsed (Some node) None)).

(** *** Documents to run the validator on *)

(** Two entries with the same location and a third with another. *)
Definition demo_duplicates : list UrlEntry :=
  [mkUrl (VPrim (PStr "https://example.com/a")) VUndefined VUndefined VUndefined;
   mkUrl (VPrim (PStr "https://example.com/a")) VUndefined VUndefined VUndefined;
   mkUrl (VPrim (PStr "https://example.com/b")) VUndefined VUndefined VUndefined].

(** An entry whose location is the number 123, between two sound ones. *)
Definition demo_numeric : list UrlEntry :=
  [mkUrl (VPrim (PStr "https://example.com/a")) VUndefined VUndefined VUndefined;
   mkUrl (VPrim (PNum (123 # 1))) VUndefined VUndefined VUndefined;
   mkUrl (VPrim (PStr "https://example.com/b c")) VUndefined VUndefined VUndefined].

Definition demo_node (urls : list UrlEntry) : UrlsetNode :=
  mkUrlset (Some SITEMAP_NAMESPACE) (Many urls).

(** A file system with one file, holding [demo_numeric]. *)
Definition demo_readFile (path : string) (w : list string) : ReadResult * list string :=
  ((if (path =? "sitemap.xml")%string
    then ReadOk (urlset_document 400 (demo_node demo_numeric))
    else ReadThrows "ENOENT: no such file or directory"),
   w ++ [path]).

End ValidatorMoreSpec.

(* ================================================================== *)
(** ** Notions for the health check                                    *)
(* ================================================================== *)

Module HealthSpec.
Import JS Validator HealthCheck.

(** The count the status object holds for a key, 0 when the key is not
    there. *)
Definition tallied (key : string) (o : list (string * nat)) : nat :=
  match lookup key o with
  | Some n => n
  | None => 0
  end.

(** The number of statuses tallied. *)
Definition total (o : list (string * nat)) : nat := list_sum (map snd o).

(** The entry has a location. *)
Definition located (u : UrlEntry) : bool := truthy (loc u).

Definition is_redirect (x : Redirect) : bool :=
  (300 <=? redirect_status x) && (redirect_status x <? 400).

(** The entry was flagged by [isSuspiciousUrl] and carries one of the
    three reasons that name a pattern. *)
Definition well_flagged (s : Suspicious) : bool :=
  isSuspiciousUrl (suspicious_url s)
  && negb (suspicious_reason s =? "Unknown pattern")%string.

(** The figures of the results agree with each other:
    - the tally of status 404 is the length of the 404 list;
    - the 404s and the redirects are among the statuses tallied;
    - the unique URLs and the statuses tallied are among the URLs
      counted, so that the duplicates figure of the report is not
      negative;
    - every redirect listed has a status from 300 to 399;
    - every suspicious URL listed is one, with a reason. *)
Definition consistent (r : HealthResults) : Prop :=
  tallied "404" (urlsByStatus r) = List.length (urlsWith404s r)
  /\ List.length (urlsWith404s r) + List.length (urlsWithRedirects r)
     <= total (urlsByStatus r)
  /\ List.length (duplicateUrls r) + total (urlsByStatus r) <= totalUrls r
  /\ forallb is_redirect (urlsWithRedirects r) = true
  /\ forallb well_flagged (suspiciousUrls r) = true.

(** *** URLs to try the patterns on *)

Definition demo_joint : string :=
  "https://goodparty.org/elections/position/governor-(joint)".

Definition demo_spaced : string := "https://goodparty.org/elections/new york".

End HealthSpec.

(* ================================================================== *)
(** ** Notions for validating several sitemaps                         *)
(* ================================================================== *)

Module BatchSpec.
Import JS Validator ValidatorSpec ValidatorMoreSpec Batch.

(** No path is given twice. *)
Fixpoint distinct (paths : list string) : bool :=
  match paths with
  | [] => true
  | p :: paths' => negb (existsb (String.eqb p) paths') && distinct paths'
  end.

(** The number of errors, and of warnings, the returned object holds for
    a path. *)
Definition errors_at (results : list (string * Results)) (p : string) : nat :=
  match property p results with
  | Some r => List.length (result_errors r)
  | None => 0
  end.

Definition warnings_at (results : list (string * Results)) (p : string) : nat :=
  match property p results with
  | Some r => List.length (result_warnings r)
  | None => 0
  end.

(** The path is taken for a URL. *)
Definition isUrl (pathOrUrl : string) : bool :=
  String.prefix "http://" pathOrUrl || String.prefix "https://" pathOrUrl.

(** The flag is among the arguments. *)
Definition given (flag : string) (args : list string) : bool :=
  existsb (String.eqb flag) args.

(** No argument starts with [http]. *)
Definition no_base_url (args : list string) : bool :=
  forallb (fun a => negb (String.prefix "http" a)) args.

(** [results[state]] of the object [validateGoodPartyProblemSitemaps]
    returns, and the number of valid results it holds for a state. *)
Fixpoint pair_at (state : string) (obj : list (string * (Results * Results)))
    : option (Results * Results) :=
  match obj with
  | [] => None
  | (k, r) :: obj' => if (k =? state)%string then Some r else pair_at state obj'
  end.

Definition valid_count (r : Results) : nat := if valid r then 1 else 0.

Definition valid_at (results : list (string * (Results * Results))) (state : string) : nat :=
  match pair_at state results with
  | Some (candidates, state_) => valid_count candidates + valid_count state_
  | None => 0
  end.

(** *** The functions on the small site of [demo_fetch] and the file of
    [demo_readFile] *)

Definition demo_validateMultipleSitemaps :=
  validateMultipleSitemaps demo_protocol (fun _ => true) (fun _ => None) (fun _ => "123")
                           (list string) demo_fetch demo_readFile.

Definition demo_validateGoodPartySitemaps :=
  validateGoodPartySitemaps demo_protocol (fun _ => true) (fun _ => None) (fun _ => "123")
                            (list string) demo_fetch demo_readFile.

Definition demo_main :=
  main demo_protocol (fun _ => true) (fun _ => None) (fun _ => "123")
       (list string) demo_fetch demo_readFile.

Definition demo_paths : list string :=
  ["https://example.com/a1.xml"; "sitemap.xml"; "https://example.com/missing.xml"].

End BatchSpec.
(* ================================================================== *)
(** ** Facts about the sweep                                           *)
(* ================================================================== *)

Module AuditorFacts.
Import Auditor AuditorSpec.

Lemma validateStatus_200 : forall st, validateStatus st = false -> (st =? 200)%Z = false.
Proof.
  intros st H. unfold validateStatus in H.
  destruct (Z.eqb_spec st 200) as [->|]; [discriminate H | reflexivity].
Qed.

Lemma results_resume : forall o u r s,
  results (checkUrl_resume o u (axios_get r) s) = results s ++ outcome_rows u r.
Proof.
  intros o u r s. destruct r as [st| |m]; simpl.
  - destruct (validateStatus st) eqn:V; simpl.
    + destruct (st =? 200)%Z; [now rewrite app_nil_r|].
      unfold record_status. now destruct (st =? 404)%Z.
    + rewrite (validateStatus_200 _ V).
      unfold record_status. now destruct (st =? 404)%Z.
  - reflexivity.
  - reflexivity.
Qed.

Lemma counts_resume : forall o u r s,
  count404 (checkUrl_resume o u (axios_get r) s)
  + non404ErrorCount (checkUrl_resume o u (axios_get r) s)
  = count404 s + non404ErrorCount s + List.length (outcome_rows u r).
Proof.
  intros o u r s. destruct r as [st| |m]; simpl.
  - destruct (validateStatus st) eqn:V; simpl.
    + destruct (st =? 200)%Z; simpl; [lia|].
      unfold record_status. destruct (st =? 404)%Z; simpl; lia.
    + rewrite (validateStatus_200 _ V).
      unfold record_status. destruct (st =? 404)%Z; simpl; lia.
  - lia.
  - lia.
Qed.

Lemma replies_resume : forall o u res s,
  replies (checkUrl_resume o u res s) = replies s.
Proof.
  intros o u res s. destruct res as [st|[st| |m]]; simpl; try reflexivity.
  - destruct (st =? 200)%Z; [reflexivity|].
    unfold record_status. now destruct (st =? 404)%Z.
  - unfold record_status. now destruct (st =? 404)%Z.
Qed.

Lemma on_data_accounting : forall o row s,
  results (on_data o row s) = results s
  /\ count404 (on_data o row s) = count404 s
  /\ non404ErrorCount (on_data o row s) = non404ErrorCount s
  /\ replies (on_data o row s) = replies s
  /\ shouldStop (on_data o row s) = shouldStop s
  /\ active (on_data o row s) = active s
  /\ requested (on_data o row s) = requested s.
Proof.
  intros o row s. unfold on_data.
  destruct (shouldStop s) eqn:E; [now rewrite E|].
  destruct (1 <? S (rowNumber s)); [|simpl; now rewrite ?E].
  cbv zeta.
  destruct ((firstRow o <=? S (rowNumber s) - 1)
            && (S (rowNumber s) - 1 <=? lastRow o)); simpl; now rewrite ?E.
Qed.

Lemma checkUrl_begin_accounting : forall t s,
  results (checkUrl_begin t s) = results s
  /\ count404 (checkUrl_begin t s) = count404 s
  /\ non404ErrorCount (checkUrl_begin t s) = non404ErrorCount s
  /\ replies (checkUrl_begin t s) = replies s
  /\ shouldStop (checkUrl_begin t s) = shouldStop s.
Proof.
  intros t s. unfold checkUrl_begin. destruct (shouldStop s) eqn:E; simpl; now rewrite ?E.
Qed.

Lemma accounted_step : forall o s e s',
  step o s e = Some s' -> accounted s -> accounted s'.
Proof.
  intros o s e s' Hs [Hc Hr]. destruct e as [| |id r]; simpl in Hs.
  - destruct (stream s) as [|row rest]; [discriminate|].
    injection Hs as <-.
    match goal with |- accounted (on_data ?o ?r ?x) =>
      destruct (on_data_accounting o r x) as (E1 & E2 & E3 & E4 & _) end.
    unfold accounted. rewrite E1, E2, E3, E4. simpl. now split.
  - destruct (List.length (active s) <? concurrencyLimit o); [|discriminate].
    destruct (queue s) as [|t q]; [discriminate|].
    injection Hs as <-.
    match goal with |- accounted (checkUrl_begin ?t ?x) =>
      destruct (checkUrl_begin_accounting t x) as (E1 & E2 & E3 & E4 & _) end.
    unfold accounted. rewrite E1, E2, E3, E4. simpl. now split.
  - destruct (take_task id (active s)) as [[t rest]|]; [|discriminate].
    injection Hs as <-. split.
    + rewrite counts_resume, results_resume, length_app. simpl. lia.
    + rewrite results_resume, replies_resume. simpl.
      rewrite flat_map_app. simpl. rewrite app_nil_r. now rewrite Hr.
Qed.

Lemma accounted_run : forall o evs s s',
  exec o s evs = Some s' -> accounted s -> accounted s'.
Proof.
  intros o evs. induction evs as [|e evs IH]; intros s s' Hrun Hacc; simpl in Hrun.
  - now injection Hrun as <-.
  - destruct (step o s e) as [s1|] eqn:Hs; [|discriminate].
    eapply IH; [eassumption|]. eapply accounted_step; eassumption.
Qed.

Lemma outcome_rows_not_200 : forall u r row,
  In row (outcome_rows u r) -> status row <> Some 200%Z /\ url row = u /\ r <> HttpResponse 200.
Proof.
  intros u r row H. destruct r as [st| |m]; simpl in H.
  - destruct (Z.eqb_spec st 200) as [->|Hne]; [contradiction|].
    destruct H as [<-|[]]; simpl. repeat split; congruence.
  - destruct H as [<-|[]]; simpl. repeat split; congruence.
  - destruct H as [<-|[]]; simpl. repeat split; congruence.
Qed.

Lemma auditSitemapURLs_Done : forall o rows evs summary written final,
  auditSitemapURLs o rows evs = Done summary written final ->
  exec o (init rows) evs = Some final
  /\ settled final = true
  /\ summary = mkSummary (count404 final) (non404ErrorCount final)
  /\ written = results final
  /\ outputCsv o <> "" /\ firstRow o <> 0 /\ lastRow o <> 0
  /\ concurrencyLimit o <> 0.
Proof.
  intros o rows evs summary written final H. unfold auditSitemapURLs in H.
  destruct (String.eqb_spec (outputCsv o) ""); [discriminate|].
  destruct (Nat.eqb_spec (firstRow o) 0); [discriminate|].
  destruct (Nat.eqb_spec (lastRow o) 0); [discriminate|].
  destruct (Nat.eqb_spec (concurrencyLimit o) 0); [discriminate|].
  simpl in H.
  destruct (exec o (init rows) evs) as [s|]; [|discriminate].
  destruct (settled s) eqn:Hset; [|discriminate].
  injection H as <- <- <-. repeat split; assumption.
Qed.

(** C1: at the end of every sweep the two counters add up to the number
    of recorded rows; the recorded rows are exactly the rows of the
    non-200 replies, so no recorded row carries status 200 and a URL all
    of whose requests were answered with status 200 is not recorded. *)
Theorem sweep_counts_equal_recorded_rows :
  forall o rows evs summary written final,
    auditSitemapURLs o rows evs = Done summary written final ->
    sum_count404 summary + sum_non404ErrorCount summary = List.length written
    /\ written = flat_map rows_of_reply (replies final)
    /\ (forall row, In row written -> status row <> Some 200%Z)
    /\ (forall u,
          (forall t rep, In (t, rep) (replies final) -> task_url t = u ->
                         rep = HttpResponse 200) ->
          forall row, In row written -> url row <> u).
Proof.
  intros o rows evs summary written final H.
  apply auditSitemapURLs_Done in H.
  destruct H as (Hrun & _ & -> & -> & _).
  assert (Hacc : accounted final).
  { eapply accounted_run; [eassumption|]. split; reflexivity. }
  destruct Hacc as [Hc Hr]. simpl. repeat split.
  - exact Hc.
  - exact Hr.
  - intros row Hin. rewrite Hr in Hin. apply in_flat_map in Hin.
    destruct Hin as ([t rep] & _ & Hin).
    now apply outcome_rows_not_200 in Hin.
  - intros u Hall row Hin Hu. rewrite Hr in Hin. apply in_flat_map in Hin.
    destruct Hin as ([t rep] & Hrep & Hin).
    apply outcome_rows_not_200 in Hin. simpl in Hin.
    destruct Hin as (_ & Hurl & Hne). apply Hne.
    apply (Hall t); [assumption | congruence].
Qed.

(** *** Early stop *)

Lemma resume_counters : forall o u r s,
  count404 (checkUrl_resume o u (axios_get r) s) = count404 s + b2n (is_404 r)
  /\ non404ErrorCount (checkUrl_resume o u (axios_get r) s)
     = non404ErrorCount s + b2n (is_non404_error r).
Proof.
  intros o u r s. destruct r as [st| |m]; simpl; try (split; lia).
  destruct (validateStatus st) eqn:V; simpl.
  - destruct (Z.eqb_spec st 200) as [->|]; simpl; [split; lia|].
    unfold record_status. destruct (st =? 404)%Z; simpl; split; lia.
  - rewrite (validateStatus_200 _ V).
    unfold record_status. destruct (st =? 404)%Z; simpl; split; lia.
Qed.

Lemma resume_frame : forall o u res s,
  queue (checkUrl_resume o u res s) = queue s
  /\ active (checkUrl_resume o u res s) = active s
  /\ stream (checkUrl_resume o u res s) = stream s
  /\ requested (checkUrl_resume o u res s) = requested s
  /\ rowNumber (checkUrl_resume o u res s) = rowNumber s.
Proof.
  intros o u res s. destruct res as [st|[st| |m]]; simpl; try (repeat split; reflexivity).
  - destruct (st =? 200)%Z; [repeat split; reflexivity|].
    unfold record_status. destruct (st =? 404)%Z; repeat split; reflexivity.
  - unfold record_status. destruct (st =? 404)%Z; repeat split; reflexivity.
Qed.

Lemma incr_non404_flag : forall o s,
  stop_flag_ok o s -> stop_flag_ok o (incr_non404 o s).
Proof.
  intros o s H. unfold stop_flag_ok in *. simpl. rewrite H.
  destruct (0 <? maxNon404Results o); simpl; [|reflexivity].
  destruct (Nat.leb_spec (maxNon404Results o) (S (non404ErrorCount s)));
    destruct (Nat.leb_spec (maxNon404Results o) (non404ErrorCount s));
    try reflexivity; lia.
Qed.

Lemma resume_flag : forall o u res s,
  stop_flag_ok o s -> stop_flag_ok o (checkUrl_resume o u res s).
Proof.
  intros o u res s H.
  assert (Hst : forall st, stop_flag_ok o (record_status o u st s)).
  { intros st. unfold record_status. destruct (st =? 404)%Z.
    - exact H.
    - apply incr_non404_flag. exact H. }
  destruct res as [st|[st| |m]]; simpl.
  - destruct (st =? 200)%Z; [exact H | apply Hst].
  - apply Hst.
  - apply incr_non404_flag. exact H.
  - apply incr_non404_flag. exact H.
Qed.

Lemma step_flag : forall o s e s',
  step o s e = Some s' -> stop_flag_ok o s -> stop_flag_ok o s'.
Proof.
  intros o s e s' Hs H. destruct e as [| |id r]; simpl in Hs.
  - destruct (stream s) as [|row rest]; [discriminate|].
    injection Hs as <-.
    match goal with |- stop_flag_ok _ (on_data ?o ?r ?x) =>
      destruct (on_data_accounting o r x) as (_ & _ & E3 & _ & E5 & _) end.
    unfold stop_flag_ok. rewrite E3, E5. exact H.
  - destruct (List.length (active s) <? concurrencyLimit o); [|discriminate].
    destruct (queue s) as [|t q]; [discriminate|].
    injection Hs as <-.
    match goal with |- stop_flag_ok _ (checkUrl_begin ?t ?x) =>
      destruct (checkUrl_begin_accounting t x) as (_ & _ & E3 & _ & E5) end.
    unfold stop_flag_ok. rewrite E3, E5. exact H.
  - destruct (take_task id (active s)) as [[t rest]|]; [|discriminate].
    injection Hs as <-. apply resume_flag. exact H.
Qed.

Lemma run_flag : forall o evs s s',
  exec o s evs = Some s' -> stop_flag_ok o s -> stop_flag_ok o s'.
Proof.
  intros o evs. induction evs as [|e evs IH]; intros s s' Hrun H; simpl in Hrun.
  - now injection Hrun as <-.
  - destruct (step o s e) as [s1|] eqn:Hs; [|discriminate].
    eapply IH; [eassumption|]. eapply step_flag; eassumption.
Qed.

Lemma take_task_In : forall id l t rest,
  take_task id l = Some (t, rest) ->
  task_row t = id /\ In t l /\ (forall x, In x rest -> In x l).
Proof.
  intros id l. induction l as [|a l IH]; intros t rest H; simpl in H.
  - discriminate.
  - destruct (Nat.eqb_spec (task_row a) id) as [E|E].
    + injection H as <- <-. repeat split; [assumption | now left | intros; now right].
    + destruct (take_task id l) as [[t' r]|]; [|discriminate].
      injection H as <- <-. destruct (IH t' r eq_refl) as (H1 & H2 & H3).
      repeat split; [assumption | now right |].
      intros x [<-|Hx]; [now left | right; now apply H3].
Qed.

Lemma shouldStop_resume : forall o u res s,
  shouldStop s = true -> shouldStop (checkUrl_resume o u res s) = true.
Proof.
  intros o u res s H.
  assert (Hn : forall x, shouldStop x = true -> shouldStop (incr_non404 o x) = true).
  { intros x Hx. simpl. rewrite Hx. now destruct (_ && _). }
  assert (Hst : forall st, shouldStop (record_status o u st s) = true).
  { intros st. unfold record_status. destruct (st =? 404)%Z; [exact H | now apply Hn]. }
  destruct res as [st|[st| |m]]; simpl.
  - destruct (st =? 200)%Z; [exact H | apply Hst].
  - apply Hst.
  - now apply Hn.
  - now apply Hn.
Qed.

Lemma stopped_step : forall o s e s',
  shouldStop s = true -> step o s e = Some s' ->
  exists new, stopped_effect o s s' new.
Proof.
  intros o s e s' Hstop Hs. destruct e as [| |id r]; simpl in Hs.
  - destruct (stream s) as [|row rest]; [discriminate|].
    injection Hs as <-. exists []. unfold on_data. simpl. rewrite Hstop.
    constructor; simpl; rewrite ?app_nil_r; auto; try lia; contradiction.
  - destruct (List.length (active s) <? concurrencyLimit o); [|discriminate].
    destruct (queue s) as [|t q]; [discriminate|].
    injection Hs as <-. exists []. unfold checkUrl_begin. simpl. rewrite Hstop.
    constructor; simpl; rewrite ?app_nil_r; auto; try lia; contradiction.
  - destruct (take_task id (active s)) as [[t rest]|] eqn:Ht; [|discriminate].
    injection Hs as <-. apply take_task_In in Ht. destruct Ht as (_ & Hin & Hrest).
    exists [(t, r)].
    match goal with |- stopped_effect _ _ (checkUrl_resume ?o ?u ?res ?x) _ =>
      destruct (resume_frame o u res x) as (_ & Ea & _ & Er & _);
      destruct (resume_counters o u r x) as (E4 & En);
      pose proof (results_resume o u r x) as Eres;
      pose proof (replies_resume o u res x) as Erep;
      pose proof (shouldStop_resume o u res x Hstop) as Est
    end.
    constructor.
    + exact Est.
    + rewrite Er. reflexivity.
    + rewrite Ea. simpl. exact Hrest.
    + rewrite Erep. reflexivity.
    + intros t0 rep [E|[]]. now injection E as <- <-.
    + rewrite Eres. simpl. now rewrite app_nil_r.
    + rewrite E4. simpl. now destruct (is_404 r).
    + rewrite En. simpl. now destruct (is_non404_error r).
Qed.

Lemma stopped_run : forall o evs s s',
  shouldStop s = true -> exec o s evs = Some s' ->
  exists new, stopped_effect o s s' new.
Proof.
  intros o evs. induction evs as [|e evs IH]; intros s s' Hstop Hrun; simpl in Hrun.
  - injection Hrun as <-. exists [].
    constructor; simpl; rewrite ?app_nil_r; auto; try lia; contradiction.
  - destruct (step o s e) as [s1|] eqn:Hs; [|discriminate].
    destruct (stopped_step _ _ _ _ Hstop Hs) as (n1 & H1).
    destruct (IH _ _ (se_stop _ _ _ _ H1) Hrun) as (n2 & H2).
    exists (n1 ++ n2).
    destruct H1 as [_ A2 A3 A4 A5 A6 A7 A8].
    destruct H2 as [B1 B2 B3 B4 B5 B6 B7 B8]. constructor.
    + assumption.
    + congruence.
    + auto.
    + rewrite B4, A4. now rewrite app_assoc.
    + intros t rep Hin. apply in_app_or in Hin. destruct Hin as [Hin|Hin]; eauto.
    + rewrite B6, A6, flat_map_app. now rewrite app_assoc.
    + rewrite B7, A7, map_app, filter_app, length_app. lia.
    + rewrite B8, A8, map_app, filter_app, length_app. lia.
Qed.

(** A reply to a request in flight is always accepted and accounted,
    stopped or not. *)
Lemma inflight_reply_accepted : forall o s t r,
  In t (active s) ->
  exists t' s', step o s (EvReply (task_row t) r) = Some s'
    /\ In t' (active s) /\ task_row t' = task_row t
    /\ results s' = results s ++ outcome_rows (task_url t') r
    /\ count404 s' = count404 s + b2n (is_404 r)
    /\ non404ErrorCount s' = non404ErrorCount s + b2n (is_non404_error r).
Proof.
  intros o s t r Hin. simpl.
  assert (Hex : exists t' rest, take_task (task_row t) (active s) = Some (t', rest)).
  { induction (active s) as [|a l IH]; [contradiction|]. simpl.
    destruct (Nat.eqb_spec (task_row a) (task_row t)) as [E|E]; [eauto|].
    destruct Hin as [->|Hin]; [contradiction|].
    destruct (IH Hin) as (t' & rest & ->). eauto. }
  destruct Hex as (t' & rest & Ht). rewrite Ht.
  apply take_task_In in Ht. destruct Ht as (Hrow & Hin' & _).
  eexists t', _. split; [reflexivity|].
  rewrite results_resume.
  match goal with |- context [checkUrl_resume ?o ?u (axios_get ?r) ?x] =>
    destruct (resume_counters o u r x) as (E4 & En) end.
  rewrite E4, En. simpl. repeat split; assumption.
Qed.

(** C5: with threshold [T > 0], once the counter of a sweep has reached
    [T] the stop flag is up, and whatever happens afterwards no further
    request is issued; the only outcomes recorded and counted afterwards
    are those of requests that were already in flight, and each of these
    is recorded and counted as usual when its reply arrives. *)
Theorem early_stop_only_inflight_complete :
  forall o rows evs0 s evs s',
    0 < maxNon404Results o ->
    exec o (init rows) evs0 = Some s ->
    maxNon404Results o <= non404ErrorCount s ->
    exec o s evs = Some s' ->
    shouldStop s = true
    /\ (exists new, stopped_effect o s s' new)
    /\ (forall t r, In t (active s') ->
          exists t' s'', step o s' (EvReply (task_row t) r) = Some s''
            /\ In t' (active s') /\ task_row t' = task_row t
            /\ results s'' = results s' ++ outcome_rows (task_url t') r
            /\ count404 s'' = count404 s' + b2n (is_404 r)
            /\ non404ErrorCount s''
               = non404ErrorCount s' + b2n (is_non404_error r)).
Proof.
  intros o rows evs0 s evs s' HT Hreach Hcnt Hrun.
  assert (Hstop : shouldStop s = true).
  { assert (Hf : stop_flag_ok o s).
    { eapply run_flag; [eassumption|]. unfold stop_flag_ok. simpl.
      destruct (Nat.ltb_spec 0 (maxNon404Results o)); [|lia]. simpl.
      destruct (Nat.leb_spec (maxNon404Results o) 0); [lia | reflexivity]. }
    rewrite Hf.
    destruct (Nat.ltb_spec 0 (maxNon404Results o)); [|lia].
    destruct (Nat.leb_spec (maxNon404Results o) (non404ErrorCount s)); [reflexivity | lia]. }
  split; [exact Hstop|]. split.
  - eapply stopped_run; eassumption.
  - intros t r Hin. apply inflight_reply_accepted. exact Hin.
Qed.

(** *** Row selection *)

Lemma combine_snoc : forall (A B : Type) (l : list A) (l' : list B) a b,
  List.length l = List.length l' ->
  combine (l ++ [a]) (l' ++ [b]) = combine l l' ++ [(a, b)].
Proof.
  intros A B l. induction l as [|x l IH]; intros [|y l'] a b H; simpl in *;
    try discriminate; [reflexivity|].
  f_equal. apply IH. lia.
Qed.

Lemma tasks_of_snoc : forall o done row,
  tasks_of o (done ++ [row])
  = tasks_of o done
    ++ (if picked o (List.length done, row) then [task_of (List.length done, row)] else []).
Proof.
  intros o done row. unfold tasks_of.
  rewrite length_app. simpl. rewrite seq_app. simpl.
  rewrite combine_snoc by now rewrite length_seq.
  rewrite filter_app, map_app. simpl.
  now destruct (picked o (List.length done, row)).
Qed.

Lemma on_data_running : forall o row s,
  shouldStop s = false ->
  shouldStop (on_data o row s) = false
  /\ rowNumber (on_data o row s) = S (rowNumber s)
  /\ stream (on_data o row s) = stream s
  /\ active (on_data o row s) = active s
  /\ requested (on_data o row s) = requested s
  /\ queue (on_data o row s)
     = queue s ++ (if picked o (rowNumber s, row) then [task_of (rowNumber s, row)] else []).
Proof.
  intros o row s H. unfold on_data, picked, task_of. rewrite H. simpl fst. simpl snd.
  replace (S (rowNumber s) - 1) with (rowNumber s) by lia.
  replace (1 <? S (rowNumber s)) with (1 <=? rowNumber s)
    by (destruct (Nat.leb_spec 1 (rowNumber s)), (Nat.ltb_spec 1 (S (rowNumber s))); try reflexivity; lia).
  destruct (1 <=? rowNumber s); simpl.
  - destruct ((firstRow o <=? rowNumber s) && (rowNumber s <=? lastRow o)); simpl;
      rewrite ?app_nil_r; repeat split; assumption.
  - rewrite app_nil_r. repeat split; assumption.
Qed.

Lemma selection_step : forall o rows s e s',
  maxNon404Results o = 0 ->
  step o s e = Some s' -> selection_ok o rows s -> selection_ok o rows s'.
Proof.
  intros o rows s e s' HT Hs (Hstop & done & Hrows & Hrn & Htasks).
  assert (Hflag : forall x, shouldStop x = false -> stop_flag_ok o x).
  { intros x Hx. unfold stop_flag_ok. now rewrite HT, Hx. }
  assert (Hback : forall x, stop_flag_ok o x -> shouldStop x = false).
  { intros x Hx. unfold stop_flag_ok in Hx. now rewrite HT in Hx. }
  split.
  { apply Hback. eapply step_flag; [eassumption|]. now apply Hflag. }
  destruct e as [| |id r]; simpl in Hs.
  - destruct (stream s) as [|row rest] eqn:Est; [discriminate|].
    injection Hs as <-.
    match goal with |- context [on_data ?o ?r ?x] =>
      destruct (on_data_running o r x Hstop) as (_ & E2 & E3 & _ & E5 & E6) end.
    exists (done ++ [row]). rewrite E2, E3, E5, E6. simpl.
    rewrite <- app_assoc. simpl. repeat split.
    + exact Hrows.
    + rewrite length_app. simpl. lia.
    + rewrite app_assoc, Htasks, tasks_of_snoc, Hrn. reflexivity.
  - destruct (List.length (active s) <? concurrencyLimit o); [|discriminate].
    destruct (queue s) as [|t q] eqn:Eq; [discriminate|].
    injection Hs as <-. unfold checkUrl_begin. simpl. rewrite Hstop. simpl.
    exists done. repeat split; try assumption.
    rewrite <- app_assoc. exact Htasks.
  - destruct (take_task id (active s)) as [[t rest]|]; [|discriminate].
    injection Hs as <-.
    match goal with |- context [checkUrl_resume ?o ?u ?res ?x] =>
      destruct (resume_frame o u res x) as (E1 & _ & E3 & E4 & E5) end.
    exists done. rewrite E1, E3, E4, E5. simpl. repeat split; assumption.
Qed.

Lemma selection_run : forall o rows evs s s',
  maxNon404Results o = 0 ->
  exec o s evs = Some s' -> selection_ok o rows s -> selection_ok o rows s'.
Proof.
  intros o rows evs. induction evs as [|e evs IH]; intros s s' HT Hrun H; simpl in Hrun.
  - now injection Hrun as <-.
  - destruct (step o s e) as [s1|] eqn:Hs; [|discriminate].
    eapply IH; try eassumption. eapply selection_step; eassumption.
Qed.

Lemma settled_inv : forall s,
  settled s = true -> stream s = [] /\ queue s = [] /\ active s = [].
Proof.
  intros s H. unfold settled in H.
  destruct (stream s); [|discriminate].
  destruct (queue s); [|discriminate].
  destruct (active s); [|discriminate]. now repeat split.
Qed.

Lemma filter_ext_in : forall (A : Type) (f g : A -> bool) (l : list A),
  (forall x, In x l -> f x = g x) -> filter f l = filter g l.
Proof.
  intros A f g l. induction l as [|a l IH]; intros H; simpl; [reflexivity|].
  rewrite (H a) by now left. rewrite IH; [reflexivity|].
  intros x Hx. apply H. now right.
Qed.

Lemma tasks_of_header : forall o header data,
  tasks_of o (header :: data)
  = map task_of (filter (in_range o) (combine (seq 1 (List.length data)) data)).
Proof.
  intros o header data. unfold tasks_of. simpl. f_equal.
  apply filter_ext_in. intros [i row] Hin. unfold picked, in_range. cbn [fst].
  apply in_combine_l in Hin. apply in_seq in Hin.
  destruct (Nat.leb_spec 1 i); [reflexivity | lia].
Qed.

Lemma range_count : forall o (l : list CsvRow) k,
  List.length (filter (in_range o) (combine (seq k (List.length l)) l))
  = Nat.min (S (lastRow o)) (k + List.length l) - Nat.max (firstRow o) k.
Proof.
  intros o l. induction l as [|x l IH]; intros k.
  - cbn [List.length seq combine filter]. lia.
  - cbn [List.length seq combine filter]. unfold in_range at 1. cbn [fst].
    destruct (Nat.leb_spec (firstRow o) k); destruct (Nat.leb_spec k (lastRow o));
      cbn [andb List.length]; rewrite IH; lia.
Qed.

Lemma range_filter : forall o (l : list CsvRow) k,
  filter (in_range o) (combine (seq k (List.length l)) l)
  = combine
      (seq (Nat.max (firstRow o) k)
           (Nat.min (S (lastRow o)) (k + List.length l) - Nat.max (firstRow o) k))
      (firstn (Nat.min (S (lastRow o)) (k + List.length l) - Nat.max (firstRow o) k)
              (skipn (Nat.max (firstRow o) k - k) l)).
Proof.
  intros o l. induction l as [|x l IH]; intros k.
  - cbn [List.length seq combine filter].
    replace (Nat.min (S (lastRow o)) (k + 0) - Nat.max (firstRow o) k) with 0 by lia.
    reflexivity.
  - cbn [List.length seq combine filter]. unfold in_range at 1. cbn [fst].
    rewrite IH.
    destruct (Nat.leb_spec (firstRow o) k) as [Ha|Ha];
      destruct (Nat.leb_spec k (lastRow o)) as [Hb|Hb]; cbn [andb].
    + replace (Nat.max (firstRow o) k) with k by lia.
      replace (Nat.max (firstRow o) (S k)) with (S k) by lia.
      replace (Nat.min (S (lastRow o)) (k + S (List.length l)) - k)
        with (S (Nat.min (S (lastRow o)) (S k + List.length l) - S k)) by lia.
      replace (S k - S k) with 0 by lia. replace (k - k) with 0 by lia.
      reflexivity.
    + replace (Nat.min (S (lastRow o)) (S k + List.length l) - Nat.max (firstRow o) (S k))
        with 0 by lia.
      replace (Nat.min (S (lastRow o)) (k + S (List.length l)) - Nat.max (firstRow o) k)
        with 0 by lia.
      reflexivity.
    + replace (Nat.max (firstRow o) (S k)) with (firstRow o) by lia.
      replace (Nat.max (firstRow o) k) with (firstRow o) by lia.
      replace (k + S (List.length l)) with (S k + List.length l) by lia.
      replace (firstRow o - k) with (S (firstRow o - S k)) by lia.
      reflexivity.
    + replace (Nat.min (S (lastRow o)) (S k + List.length l) - Nat.max (firstRow o) (S k))
        with 0 by lia.
      replace (Nat.min (S (lastRow o)) (k + S (List.length l)) - Nat.max (firstRow o) k)
        with 0 by lia.
      reflexivity.
Qed.

Lemma map_task_row_combine : forall (idx : list nat) (l : list CsvRow),
  List.length idx = List.length l ->
  map task_row (map task_of (combine idx l)) = idx
  /\ map task_url (map task_of (combine idx l)) = map (fun r => nth_error r 0) l.
Proof.
  induction idx as [|i idx IH]; intros [|x l] H; simpl in *; try discriminate.
  - now split.
  - destruct (IH l) as [E1 E2]; [lia|]. rewrite E1, E2. now split.
Qed.

(** *** A schedule that completes the sweep *)

Lemma run_app : forall o a b s,
  exec o s (a ++ b)
  = match exec o s a with Some s1 => exec o s1 b | None => None end.
Proof.
  intros o a. induction a as [|e a IH]; intros b s; simpl; [reflexivity|].
  destruct (step o s e); [apply IH | reflexivity].
Qed.

Lemma read_all : forall o n s,
  shouldStop s = false -> n = List.length (stream s) ->
  exists s1, exec o s (repeat EvData n) = Some s1
    /\ stream s1 = [] /\ active s1 = active s /\ shouldStop s1 = false.
Proof.
  intros o n. induction n as [|n IH]; intros s Hstop Hn; simpl.
  - exists s. destruct (stream s); [now repeat split | discriminate].
  - destruct (stream s) as [|row rest] eqn:Est; [discriminate|].
    match goal with |- context [on_data ?o ?r ?x] =>
      destruct (on_data_running o r x Hstop) as (F1 & _ & F3 & F4 & _);
      destruct (IH (on_data o r x) F1) as (s1 & R1 & R2 & R3 & R4)
    end.
    { rewrite F3. simpl. simpl in Hn. lia. }
    exists s1. rewrite R3, F4. now repeat split.
Qed.

Lemma start_one : forall o s t q,
  1 <= concurrencyLimit o ->
  shouldStop s = false -> active s = [] -> queue s = t :: q ->
  exists s1, step o s EvStart = Some s1
    /\ shouldStop s1 = false /\ active s1 = [t] /\ queue s1 = q
    /\ stream s1 = stream s.
Proof.
  intros o s t q HC Hstop Hact Hq. cbn [step]. rewrite Hact, Hq.
  cbn [List.length].
  destruct (Nat.ltb_spec 0 (concurrencyLimit o)); [|lia].
  unfold checkUrl_begin. cbn [shouldStop]. rewrite Hstop.
  eexists. split; [reflexivity|]. cbn. now repeat split.
Qed.

Lemma answer_one : forall o s t r,
  maxNon404Results o = 0 ->
  shouldStop s = false -> active s = [t] ->
  exists s1, step o s (EvReply (task_row t) r) = Some s1
    /\ shouldStop s1 = false /\ active s1 = [] /\ queue s1 = queue s
    /\ stream s1 = stream s.
Proof.
  intros o s t r HT Hstop Hact. cbn [step]. rewrite Hact.
  cbn [take_task]. rewrite Nat.eqb_refl.
  eexists. split; [reflexivity|].
  match goal with |- context [checkUrl_resume ?o ?u ?res ?x] =>
    destruct (resume_frame o u res x) as (E1 & E2 & E3 & _);
    assert (Hf : stop_flag_ok o (checkUrl_resume o u res x))
      by (apply resume_flag; unfold stop_flag_ok; cbn; now rewrite HT, Hstop)
  end.
  rewrite E1, E2, E3. cbn. repeat split; try reflexivity.
  unfold stop_flag_ok in Hf. now rewrite HT in Hf.
Qed.

Lemma drain_all : forall o net ts s,
  maxNon404Results o = 0 -> 1 <= concurrencyLimit o ->
  shouldStop s = false -> active s = [] -> stream s = [] -> queue s = ts ->
  exists s1,
    exec o s (flat_map (fun t => [EvStart; EvReply (task_row t) (net t)]) ts) = Some s1
    /\ settled s1 = true.
Proof.
  intros o net ts. induction ts as [|t ts IH]; intros s HT HC Hstop Hact Hstr Hq.
  - exists s. split; [reflexivity|]. unfold settled. now rewrite Hstr, Hq, Hact.
  - destruct (start_one o s t ts HC Hstop Hact Hq) as (s1 & S1 & S2 & S3 & S4 & S5).
    destruct (answer_one o s1 t (net t) HT S2 S3) as (s2 & A1 & A2 & A3 & A4 & A5).
    destruct (IH s2 HT HC A2 A3) as (s3 & R1 & R2).
    { now rewrite A5, S5. }
    { now rewrite A4. }
    exists s3. split; [|exact R2].
    cbn [flat_map app exec]. rewrite S1, A1. exact R1.
Qed.

Lemma stopped_or_not : forall o evs s s',
  exec o s evs = Some s' ->
  (forall e, In e evs -> is_data e) ->
  requested s' = requested s /\ active s' = active s.
Proof.
  intros o evs. induction evs as [|e evs IH]; intros s s' Hrun Hall; simpl in Hrun.
  - injection Hrun as <-. now split.
  - destruct (step o s e) as [s1|] eqn:Hs; [|discriminate].
    destruct (IH _ _ Hrun) as [E1 E2]; [intros x Hx; apply Hall; now right|].
    rewrite E1, E2. clear E1 E2 Hrun IH.
    assert (He : is_data e) by (apply Hall; now left).
    destruct e; try contradiction. simpl in Hs.
    destruct (stream s) as [|row rest]; [discriminate|].
    injection Hs as <-.
    match goal with |- context [on_data ?o ?r ?x] =>
      destruct (on_data_accounting o r x) as (_ & _ & _ & _ & _ & E6 & E7) end.
    rewrite E6, E7. now split.
Qed.

(** C2: for a range with [1 <= firstRow <= lastRow], an input of a header
    row and at least [lastRow] data rows, and early stop disabled, the
    sweep runs to completion, and every completed sweep has issued a
    request for exactly the data rows numbered [firstRow..lastRow], in
    row order: [lastRow - firstRow + 1] requests, for the first cells of
    the rows that follow the first [firstRow - 1] data rows. *)
Theorem range_auditor_checks_exact_rows :
  forall o header data,
    1 <= firstRow o -> firstRow o <= lastRow o ->
    lastRow o <= List.length data ->
    maxNon404Results o = 0 ->
    outputCsv o <> "" -> 1 <= concurrencyLimit o ->
    (forall net, exists summary written final,
        auditSitemapURLs o (header :: data)
          (sequential net (S (List.length data)) (tasks_of o (header :: data)))
        = Done summary written final)
    /\ (forall evs summary written final,
          auditSitemapURLs o (header :: data) evs = Done summary written final ->
          requested final
          = map task_of
              (filter (in_range o) (combine (seq 1 (List.length data)) data))
          /\ List.length (requested final) = lastRow o - firstRow o + 1
          /\ map task_row (requested final)
             = seq (firstRow o) (lastRow o - firstRow o + 1)
          /\ map task_url (requested final)
             = map (fun r => nth_error r 0)
                 (firstn (lastRow o - firstRow o + 1) (skipn (firstRow o - 1) data))).
Proof.
  intros o header data H1 H2 H3 HT Hout HC. split.
  - intros net. unfold auditSitemapURLs.
    destruct (String.eqb_spec (outputCsv o) ""); [contradiction|].
    destruct (Nat.eqb_spec (firstRow o) 0); [lia|].
    destruct (Nat.eqb_spec (lastRow o) 0); [lia|].
    destruct (Nat.eqb_spec (concurrencyLimit o) 0); [lia|]. simpl orb. cbv iota.
    unfold sequential. rewrite run_app.
    destruct (read_all o (S (List.length data)) (init (header :: data)))
      as (s1 & R1 & R2 & R3 & R4); [reflexivity | reflexivity |].
    rewrite R1.
    assert (Hsel : selection_ok o (header :: data) s1).
    { eapply selection_run; [exact HT | exact R1 |].
      split; [reflexivity|]. exists []. now repeat split. }
    destruct Hsel as (_ & done & Hrows & _ & Htasks).
    rewrite R2, app_nil_r in Hrows. subst done.
    assert (Hreq : requested s1 = []).
    { destruct (stopped_or_not o (repeat EvData (S (List.length data)))
                  (init (header :: data)) s1 R1) as [Hreq _].
      - intros e He. apply repeat_spec in He. subst e. exact I.
      - exact Hreq. }
    rewrite Hreq in Htasks. simpl in Htasks.
    destruct (drain_all o net (tasks_of o (header :: data)) s1 HT HC R4 R3 R2 Htasks)
      as (s2 & D1 & D2).
    rewrite D1, D2. eauto.
  - intros evs summary written final Hd.
    apply auditSitemapURLs_Done in Hd. destruct Hd as (Hrun & Hset & _).
    assert (Hsel : selection_ok o (header :: data) final).
    { eapply selection_run; [exact HT | exact Hrun |].
      split; [reflexivity|]. exists []. now repeat split. }
    destruct Hsel as (_ & done & Hrows & _ & Htasks).
    apply settled_inv in Hset. destruct Hset as (Es & Eq & _).
    rewrite Es, app_nil_r in Hrows. subst done.
    rewrite Eq, app_nil_r in Htasks.
    rewrite Htasks, tasks_of_header. split; [reflexivity|].
    split; [rewrite length_map, range_count; lia|].
    rewrite range_filter.
    replace (Nat.max (firstRow o) 1) with (firstRow o) by lia.
    replace (Nat.min (S (lastRow o)) (1 + List.length data) - firstRow o)
      with (lastRow o - firstRow o + 1) by lia.
    apply map_task_row_combine.
    rewrite length_seq, length_firstn, length_skipn. lia.
Qed.

(** *** The facts on a sweep of three rows *)

Lemma sweep_counts_equal_recorded_rows_witness :
  auditSitemapURLs (demo_options 0) demo_rows demo_schedule
  = Done (mkSummary 1 1) (results demo_final) demo_final
  /\ (1 + 1 = List.length (results demo_final)
      /\ results demo_final = flat_map rows_of_reply (replies demo_final)
      /\ (forall row, In row (results demo_final) -> status row <> Some 200%Z)
      /\ (forall u,
            (forall t rep, In (t, rep) (replies demo_final) -> task_url t = u ->
                           rep = HttpResponse 200) ->
            forall row, In row (results demo_final) -> url row <> u)).
Proof.
  split.
  - vm_compute. reflexivity.
  - apply (sweep_counts_equal_recorded_rows (demo_options 0) demo_rows demo_schedule
             (mkSummary 1 1) (results demo_final) demo_final).
    vm_compute. reflexivity.
Defined.

Lemma range_auditor_checks_exact_rows_witness :
  (1 <= firstRow (demo_options 0)
   /\ firstRow (demo_options 0) <= lastRow (demo_options 0)
   /\ lastRow (demo_options 0) <= List.length (tl demo_rows)
   /\ maxNon404Results (demo_options 0) = 0
   /\ outputCsv (demo_options 0) <> ""
   /\ 1 <= concurrencyLimit (demo_options 0))
  /\ (forall evs summary written final,
        auditSitemapURLs (demo_options 0) (["URL"] :: tl demo_rows) evs
        = Done summary written final ->
        requested final
        = map task_of (filter (in_range (demo_options 0))
                         (combine (seq 1 (List.length (tl demo_rows))) (tl demo_rows)))
        /\ List.length (requested final) = 3 - 1 + 1
        /\ map task_row (requested final) = seq 1 (3 - 1 + 1)
        /\ map task_url (requested final)
           = map (fun r => nth_error r 0)
               (firstn (3 - 1 + 1) (skipn (1 - 1) (tl demo_rows)))).
Proof.
  assert (H : 1 <= firstRow (demo_options 0)
              /\ firstRow (demo_options 0) <= lastRow (demo_options 0)
              /\ lastRow (demo_options 0) <= List.length (tl demo_rows)
              /\ maxNon404Results (demo_options 0) = 0
              /\ outputCsv (demo_options 0) <> ""
              /\ 1 <= concurrencyLimit (demo_options 0)).
  { simpl. repeat split; try lia. discriminate. }
  split; [exact H|].
  destruct H as (H1 & H2 & H3 & H4 & H5 & H6).
  exact (proj2 (range_auditor_checks_exact_rows (demo_options 0) ["URL"] (tl demo_rows)
                  H1 H2 H3 H4 H5 H6)).
Defined.

Lemma early_stop_only_inflight_complete_witness :
  (0 < maxNon404Results (demo_options 1)
   /\ exec (demo_options 1) (init demo_rows) demo_until_stop = Some demo_stopped
   /\ maxNon404Results (demo_options 1) <= non404ErrorCount demo_stopped
   /\ exec (demo_options 1) demo_stopped demo_after_stop = Some demo_drained)
  /\ (shouldStop demo_stopped = true
      /\ (exists new, stopped_effect (demo_options 1) demo_stopped demo_drained new)
      /\ (forall t r, In t (active demo_drained) ->
            exists t' s'', step (demo_options 1) demo_drained (EvReply (task_row t) r) = Some s''
              /\ In t' (active demo_drained) /\ task_row t' = task_row t
              /\ results s'' = results demo_drained ++ outcome_rows (task_url t') r
              /\ count404 s'' = count404 demo_drained + b2n (is_404 r)
              /\ non404ErrorCount s''
                 = non404ErrorCount demo_drained + b2n (is_non404_error r))).
Proof.
  assert (H : 0 < maxNon404Results (demo_options 1)
              /\ exec (demo_options 1) (init demo_rows) demo_until_stop = Some demo_stopped
              /\ maxNon404Results (demo_options 1) <= non404ErrorCount demo_stopped
              /\ exec (demo_options 1) demo_stopped demo_after_stop = Some demo_drained).
  { repeat split; vm_compute; try reflexivity; lia. }
  split; [exact H|].
  destruct H as (H1 & H2 & H3 & H4).
  exact (early_stop_only_inflight_complete (demo_options 1) demo_rows demo_until_stop
           demo_stopped demo_after_stop demo_drained H1 H2 H3 H4).
Defined.

(** In that run the third URL is never requested although its row was
    read, and the 404 of the second, in flight when the flag went up, is
    recorded. *)
Example early_stop_demo :
  map task_row (requested demo_drained) = [1; 2]
  /\ results demo_drained
     = [mkRow (Some "https://example.com/a") (Some 500%Z) None;
        mkRow (Some "https://example.com/b") (Some 404%Z) None]
  /\ count404 demo_drained = 1 /\ non404ErrorCount demo_drained = 1
  /\ settled demo_drained = true.
Proof. repeat split. Qed.

End AuditorFacts.

(* ================================================================== *)
(** ** Facts about the batch orchestrator                              *)
(* ================================================================== *)

Module OrchestratorFacts.
Import JS Orchestrator OrchestratorSpec.

Lemma trimStart_empty : forall s,
  trimStart s = EmptyString <-> forallb isWhiteSpace (list_ascii_of_string s) = true.
Proof.
  induction s as [|c s IH]; simpl.
  - tauto.
  - destruct (isWhiteSpace c); simpl; [exact IH|]. split; discriminate.
Qed.

Lemma trimStart_head : forall s c t,
  trimStart s = String c t -> isWhiteSpace c = false.
Proof.
  induction s as [|a s IH]; intros c t H; simpl in H.
  - discriminate.
  - destruct (isWhiteSpace a) eqn:E; [eauto|]. now injection H as <- <-.
Qed.

Lemma trim_empty : forall s,
  trim s = EmptyString <-> forallb isWhiteSpace (list_ascii_of_string s) = true.
Proof.
  intros s. rewrite <- trimStart_empty. unfold trim.
  destruct (trimStart s) as [|c t] eqn:E.
  - simpl. tauto.
  - apply trimStart_head in E. simpl. rewrite E.
    split; [|discriminate]. destruct (trimEnd t); discriminate.
Qed.

Lemma has_results_pending : forall row, has_results row = negb (pending row).
Proof.
  intros row. unfold has_results, pending. destruct (get "404s" row) as [v|]; [|reflexivity].
  simpl. destruct (String.eqb_spec v "") as [->|Hv]; [reflexivity|]. simpl.
  destruct (String.eqb_spec (trim v) "") as [E|E].
  - apply trim_empty in E. now rewrite E.
  - destruct (forallb isWhiteSpace (list_ascii_of_string v)) eqn:F; [|reflexivity].
    apply trim_empty in F. contradiction.
Qed.

Lemma get_set_same : forall k v r, get k (set k v r) = Some v.
Proof.
  intros k v r. induction r as [|[k' v'] r IH]; simpl.
  - now rewrite String.eqb_refl.
  - destruct (String.eqb_spec k' k); simpl.
    + now rewrite String.eqb_refl.
    + destruct (String.eqb_spec k' k); [contradiction | exact IH].
Qed.

Lemma get_set_other : forall k k' v r, k <> k' -> get k (set k' v r) = get k r.
Proof.
  intros k k' v r Hne. induction r as [|[a b] r IH]; simpl.
  - destruct (String.eqb_spec k' k); [congruence | reflexivity].
  - destruct (String.eqb_spec a k') as [->|E]; simpl.
    + destruct (String.eqb_spec k' k); [congruence | reflexivity].
    + destruct (String.eqb_spec a k); [reflexivity | exact IH].
Qed.

Lemma String_of_nat_not_blank : forall n, blank (Some (String_of_nat n)) = false.
Proof.
  intros n. unfold String_of_nat.
  destruct (Nat.to_uint n); reflexivity.
Qed.

Lemma with_counts_not_pending : forall c n row, pending (with_counts c n row) = false.
Proof.
  intros c n row. unfold pending, with_counts.
  rewrite get_set_other by discriminate. rewrite get_set_same.
  apply String_of_nat_not_blank.
Qed.

Section Facts.

Variable Num : Type.
Variable Number : option string -> Num.
Variable World : Type.
Variable auditSitemapURLs : AuditArgs Num -> World -> AuditResult * World.

Local Abbreviation args_of := (args_of Num Number).
Local Abbreviation loop := (loop Num Number World auditSitemapURLs).
Local Abbreviation run := (run Num Number World auditSitemapURLs).
Local Abbreviation processed := (processed Num Number).

Lemma args_of_numbered : forall r, get "Number" r <> None -> exists a, args_of r = Some a.
Proof.
  intros r H. unfold Orchestrator.args_of, buildOutputFilename.
  destruct (get "Number" r); [eauto | contradiction].
Qed.

Lemma loop_processed : forall rows w,
  numbered rows ->
  exists rows' w' log,
    loop rows w = (Some rows', w', log) /\ processed rows log rows'.
Proof.
  induction rows as [|row rest IH]; intros w Hn; simpl.
  - exists [], w, []. split; [reflexivity | constructor].
  - assert (Hrest : numbered rest) by (intros r Hr; apply Hn; now right).
    rewrite has_results_pending. destruct (pending row) eqn:Hp; simpl.
    + destruct (args_of_numbered row) as (a & Ha); [apply Hn; [now left | exact Hp]|].
      rewrite Ha. destruct (auditSitemapURLs a w) as [res w1].
      destruct (IH w1 Hrest) as (rest' & w' & log & E & P). rewrite E.
      eexists _, w', _. split; [reflexivity|].
      destruct res; [apply processed_ok | apply processed_failed]; assumption.
    + destruct (IH w Hrest) as (rest' & w' & log & E & P). rewrite E.
      eexists _, w', _. split; [reflexivity|]. now apply processed_skip.
Qed.

Lemma processed_calls : forall rows log rows',
  processed rows log rows' ->
  map Some (map fst log) = map args_of (filter pending rows).
Proof.
  intros rows log rows' P. induction P; simpl; rewrite ?H; simpl; congruence.
Qed.

Lemma processed_length : forall rows log rows',
  processed rows log rows' -> List.length rows' = List.length rows.
Proof.
  intros rows log rows' P. induction P; simpl; congruence.
Qed.

Lemma processed_split : forall pre r post log rows',
  processed (pre ++ r :: post) log rows' ->
  pending r = true ->
  exists pre' post' log1 a res log2,
    rows' = pre' ++ row_after res r :: post'
    /\ log = log1 ++ (a, res) :: log2
    /\ args_of r = Some a
    /\ processed pre log1 pre'
    /\ processed post log2 post'.
Proof.
  induction pre as [|x pre IH]; intros r post log rows' P Hp; simpl in P.
  - inversion P; subst.
    + congruence.
    + exists [], rest', [], a, (Resolved c n), log0. repeat split; auto. constructor.
    + exists [], rest', [], a, (Rejected err), log0. repeat split; auto. constructor.
  - inversion P; subst.
    + destruct (IH _ _ _ _ H4 Hp) as (pre' & post' & log1 & a & res & log2 & E1 & E2 & E3 & P1 & P2).
      exists (x :: pre'), post', log1, a, res, log2. subst. repeat split; auto.
      now constructor.
    + destruct (IH _ _ _ _ H5 Hp) as (pre' & post' & log1 & a0 & res & log2 & E1 & E2 & E3 & P1 & P2).
      exists (with_counts c n x :: pre'), post', ((a, Resolved c n) :: log1), a0, res, log2.
      subst. repeat split; auto. now constructor.
    + destruct (IH _ _ _ _ H5 Hp) as (pre' & post' & log1 & a0 & res & log2 & E1 & E2 & E3 & P1 & P2).
      exists (x :: pre'), post', ((a, Rejected err) :: log1), a0, res, log2.
      subst. repeat split; auto. now constructor.
Qed.

Lemma processed_all_resolved : forall rows log rows',
  processed rows log rows' ->
  (forall a res, In (a, res) log -> exists c n, res = Resolved c n) ->
  forall r, In r rows' -> pending r = false.
Proof.
  intros rows log rows' P. induction P; intros Hall r Hr.
  - contradiction.
  - destruct Hr as [<-|Hr]; [assumption | now apply IHP].
  - destruct Hr as [<-|Hr]; [apply with_counts_not_pending|].
    apply IHP; [|assumption]. intros a0 res Hin. apply (Hall a0). now right.
  - destruct (Hall a (Rejected err)) as (c & n & E); [now left | discriminate].
Qed.

Lemma loop_no_pending : forall rows w,
  (forall r, In r rows -> pending r = false) ->
  loop rows w = (Some rows, w, []).
Proof.
  induction rows as [|row rest IH]; intros w H; simpl; [reflexivity|].
  rewrite has_results_pending, (H row) by now left. simpl.
  rewrite IH; [reflexivity|]. intros r Hr. apply H. now right.
Qed.

Lemma run_log : forall rows w,
  snd (run rows w) = match rows with [] => [] | _ => snd (loop rows w) end.
Proof.
  intros [|first rest] w; [reflexivity|]. unfold Orchestrator.run.
  destruct (Orchestrator.loop _ _ _ _ (first :: rest) w) as [[[rows'|] w'] log]; reflexivity.
Qed.


(** C4: with a non-empty, numbered store the run ends by writing the
    file; its header is the column order of the first row as read and
    every row is written.  The written rows relate to the rows read as
    [processed] says; in particular, around any pending row [r] the rows
    before and after it are processed on their own, every pending row
    after [r] is audited, and [r] itself is written unchanged (its blank
    count stays blank) when its audit rejects. *)
Theorem failed_range_is_isolated :
  forall rows w,
    rows <> [] -> numbered rows ->
    exists rows' w' log,
      run rows w
      = (Written (writeRecords GROUPINGS_FILE (keys (hd [] rows)) rows') rows',
         w', log)
      /\ processed rows log rows'
      /\ List.length rows' = List.length rows
      /\ map Some (map fst log) = map args_of (filter pending rows)
      /\ (forall pre r post,
            rows = pre ++ r :: post -> pending r = true ->
            exists pre' post' log1 a res log2,
              rows' = pre' ++ row_after res r :: post'
              /\ log = log1 ++ (a, res) :: log2
              /\ args_of r = Some a
              /\ processed pre log1 pre'
              /\ processed post log2 post'
              /\ map Some (map fst log2) = map args_of (filter pending post)
              /\ (forall err, res = Rejected err ->
                    row_after res r = r /\ pending (row_after res r) = true)).
Proof.
  intros rows w Hne Hn.
  destruct (loop_processed rows w Hn) as (rows' & w' & log & E & P).
  exists rows', w', log. repeat split.
  - destruct rows as [|first rest]; [contradiction|].
    unfold Orchestrator.run. fold (loop (first :: rest) w). now rewrite E.
  - exact P.
  - eapply processed_length; eassumption.
  - eapply processed_calls; eassumption.
  - intros pre r post -> Hp.
    destruct (processed_split _ _ _ _ _ P Hp)
      as (pre' & post' & log1 & a & res & log2 & E1 & E2 & E3 & P1 & P2).
    exists pre', post', log1, a, res, log2. repeat split; auto.
    + eapply processed_calls; eassumption.
    + now subst res.
    + now subst res.
Qed.

End Facts.

(** *** The facts on a store of three ranges *)

Lemma demo_store_numbered : numbered demo_store.
Proof.
  intros r Hin _. destruct Hin as [<-|[<-|[<-|[]]]]; discriminate.
Qed.


Lemma failed_range_is_isolated_witness :
  (demo_store <> [] /\ numbered demo_store)
  /\ exists rows' w' log,
       demo_run demo_store 0
       = (Written (writeRecords GROUPINGS_FILE (keys (hd [] demo_store)) rows') rows',
          w', log)
       /\ processed (option string) (fun v => v) demo_store log rows'
       /\ List.length rows' = List.length demo_store
       /\ map Some (map fst log) = map demo_args_of (filter pending demo_store).
Proof.
  assert (H : demo_store <> []) by discriminate.
  split; [split; [exact H | exact demo_store_numbered]|].
  destruct (failed_range_is_isolated (option string) (fun v => v) nat demo_audit
              demo_store 0 H demo_store_numbered)
    as (rows' & w' & log & E & P & L & C & _).
  exists rows', w', log. repeat split; assumption.
Defined.

(** Range 2 of 3 rejects: ranges 1 and 3 receive their counts, range 2 is
    written as it was read, and the header keeps the column order. *)
Example partial_failure_demo :
  fst (fst (demo_run demo_store 0))
  = Written
      (mkCsvFile "election_groupings.csv"
         ["Number"; "State"; "Type"; "First Row"; "Last Row"; "404s"; "Non-404 Errors"]
         [["1"; "ak"; "counties"; "949"; "1010"; "3"; "1"];
          ["2"; "al"; "counties"; "949"; "1010"; " "; ""];
          ["3"; "ar"; "counties"; "949"; "1010"; "3"; "1"]])
      [demo_row "1" "ak" "3" "1"; demo_row "2" "al" " " ""; demo_row "3" "ar" "3" "1"]
  /\ map (fun c => outputCsv _ (fst c)) (snd (demo_run demo_store 0))
     = ["csv_output/01_ak_elections_counties_non_200_responses.csv";
        "csv_output/02_al_elections_counties_non_200_responses.csv";
        "csv_output/03_ar_elections_counties_non_200_responses.csv"].
Proof. split; vm_compute; reflexivity. Qed.


End OrchestratorFacts.

(* ================================================================== *)
(** ** Facts about the validator                                       *)
(* ================================================================== *)

Module ValidatorFacts.
Import JS Validator ValidatorSpec.

Lemma framed_id : framed (fun v => v).
Proof. exists [], []. intros [e w]. unfold ext. simpl. now rewrite !app_nil_r. Qed.

Lemma framed_push_error : forall m, framed (push_error m).
Proof. intros m. exists [m], []. intros [e w]. unfold ext, push_error. simpl. now rewrite app_nil_r. Qed.

Lemma framed_push_warning : forall m, framed (push_warning m).
Proof. intros m. exists [], [m]. intros [e w]. unfold ext, push_warning. simpl. now rewrite app_nil_r. Qed.

Lemma framed_comp : forall f g, framed f -> framed g -> framed (fun v => g (f v)).
Proof.
  intros f g (e1 & w1 & Hf) (e2 & w2 & Hg). exists (e1 ++ e2), (w1 ++ w2).
  intros v. rewrite Hf, Hg. unfold ext. simpl. now rewrite !app_assoc.
Qed.

Lemma framed_if : forall (b : bool) f g, framed f -> framed g ->
  framed (fun v => if b then f v else g v).
Proof. intros [] f g Hf Hg; assumption. Qed.

Lemma framed_cond_error : forall (b : bool) m,
  framed (fun v => if b then push_error m v else v).
Proof. intros [] m; [apply framed_push_error | apply framed_id]. Qed.

Lemma framed_cond_warning : forall (b : bool) m,
  framed (fun v => if b then push_warning m v else v).
Proof. intros [] m; [apply framed_push_warning | apply framed_id]. Qed.

Lemma framed_ext_eq : forall f g, (forall v, f v = g v) -> framed f -> framed g.
Proof. intros f g E (es & ws & H). exists es, ws. intros v. now rewrite <- E. Qed.

Lemma ext_nil : forall v, ext v [] [] = v.
Proof. intros [e w]. unfold ext. simpl. now rewrite !app_nil_r. Qed.

Lemma ext_ext : forall v a b c d, ext (ext v a b) c d = ext v (a ++ c) (b ++ d).
Proof. intros v a b c d. unfold ext. simpl. now rewrite !app_assoc. Qed.

Lemma push_error_ext : forall m v, push_error m v = ext v [m] [].
Proof. intros m [e w]. unfold ext, push_error. simpl. now rewrite app_nil_r. Qed.

Lemma getResults_valid : forall v, valid (getResults v) = true <-> errors v = [].
Proof.
  intros v. simpl. destruct (errors v); simpl; split; intros H; try reflexivity; discriminate.
Qed.

Section Facts.

Variable URL_protocol : string -> option string.
Variable Date_isValid : xval -> bool.
Variable parseFloat : string -> option Q.
Variable Number_toString : Q -> string.
Variable World : Type.
Variable fetch : string -> World -> FetchResult * World.
Variable readFile : string -> World -> ReadResult * World.

Local Abbreviation check_url := (check_url URL_protocol Date_isValid parseFloat Number_toString).
Local Abbreviation forEach_urls := (forEach_urls URL_protocol Date_isValid parseFloat Number_toString).
Local Abbreviation validateUrlset := (validateUrlset URL_protocol Date_isValid parseFloat Number_toString).
Local Abbreviation validateSitemapIndex := (validateSitemapIndex URL_protocol Date_isValid Number_toString).
Local Abbreviation validateContent := (validateContent URL_protocol Date_isValid parseFloat Number_toString).
Local Abbreviation validateFile := (validateFile URL_protocol Date_isValid parseFloat Number_toString World readFile).
Local Abbreviation validateUrl_fuel := (validateUrl_fuel URL_protocol Date_isValid parseFloat Number_toString World fetch).
Local Abbreviation validateUrl := (validateUrl URL_protocol Date_isValid parseFloat Number_toString World fetch).

(** *** Results come from [getResults] *)

Lemma validateUrlset_getResults : forall node v r v',
  validateUrlset node v = (Normal r, v') -> r = getResults v'.
Proof.
  intros node v r v' H. unfold Validator.validateUrlset in H.
  destruct (Validator.forEach_urls _ _ _ _ _ _ _) as [[u|m] [v4 s]];
    [now injection H as <- <- | discriminate].
Qed.

Lemma validateContent_getResults : forall content v r v',
  validateContent content v = (Normal r, v') -> r = getResults v'.
Proof.
  intros content v r v' H. unfold Validator.validateContent in H.
  destruct (xml content) as [report|m|p].
  - now injection H as <- <-.
  - now injection H as <- <-.
  - destruct (sitemapindex p) as [node|].
    + unfold Validator.validateSitemapIndex in H. now injection H as <- <-.
    + destruct (urlset p) as [node|].
      * eapply validateUrlset_getResults; eassumption.
      * now injection H as <- <-.
Qed.

Lemma walk_getResults : forall self v options w,
  walk World self (getResults v) options w = (getResults v, w).
Proof. reflexivity. Qed.

(** Whatever the bound, the call fetches once and returns what
    [getResults] builds: no [childSitemaps], no [childResults]. *)
Lemma validateUrl_fuel_flat : forall fuel u options w,
  exists v, validateUrl_fuel fuel u options w = (getResults v, snd (fetch u w)).
Proof.
  intros fuel u options w.
  destruct fuel as [|fuel]; cbn [Validator.validateUrl_fuel];
    destruct (fetch u w) as [[m|ok st txt body] w1]; cbn [snd]; eauto;
    destruct ok; cbn [negb]; eauto;
    destruct body as [m|content]; eauto;
    destruct (Validator.validateContent _ _ _ _ content fresh) as [[r|m] v'] eqn:E; eauto;
    apply validateContent_getResults in E; subst r; rewrite ?walk_getResults; eauto.
Qed.

Lemma validateUrl_fuel_irrelevant : forall fuel u options w,
  validateUrl_fuel fuel u options w = validateUrl u options w.
Proof.
  intros fuel u options w. unfold Validator.validateUrl.
  generalize (levels options). intros n.
  destruct fuel as [|fuel], n as [|n]; cbn [Validator.validateUrl_fuel]; try reflexivity;
    destruct (fetch u w) as [[m|ok st txt body] w1]; try reflexivity;
    destruct ok; cbn [negb]; try reflexivity;
    destruct body as [m|content]; try reflexivity;
    destruct (Validator.validateContent _ _ _ _ content fresh) as [[r|m] v'] eqn:E; try reflexivity;
    apply validateContent_getResults in E; subst r; rewrite ?walk_getResults; reflexivity.
Qed.

Lemma validateUrl_flat : forall u options w,
  exists v, validateUrl u options w = (getResults v, snd (fetch u w)).
Proof. intros. apply validateUrl_fuel_flat. Qed.

Lemma validateFile_flat : forall path w,
  exists v, fst (validateFile path w) = getResults v.
Proof.
  intros path w. unfold Validator.validateFile.
  destruct (readFile path w) as [[m|content] w1]; simpl; eauto.
  destruct (Validator.validateContent _ _ _ _ content fresh) as [[r|m] v'] eqn:E; simpl; eauto.
  apply validateContent_getResults in E. eauto.
Qed.

(** *** The checks of a URL entry only push messages *)

Lemma check_lastmod_framed : forall i u,
  framed (check_lastmod Date_isValid Number_toString i u).
Proof.
  intros i u. unfold check_lastmod. destruct (truthy (lastmod u)); [|apply framed_id].
  destruct (negb _); [apply framed_push_warning | apply framed_id].
Qed.

Lemma check_changefreq_framed : forall i u,
  framed (check_changefreq Number_toString i u).
Proof.
  intros i u. unfold check_changefreq. destruct (truthy (changefreq u)); [|apply framed_id].
  destruct (negb _); [apply framed_push_warning | apply framed_id].
Qed.

Lemma check_priority_framed : forall i u,
  framed (check_priority parseFloat Number_toString i u).
Proof.
  intros i u. unfold check_priority. destruct (truthy (priority u)); [|apply framed_id].
  destruct (parseFloat _) as [p|]; [destruct (_ || _)|];
    first [apply framed_push_warning | apply framed_id].
Qed.

Lemma check_common_frame : forall i l,
  exists c es ws, forall v, check_common i l v = (c, ext v es ws).
Proof.
  intros i l.
  assert (Hthrow : exists c es ws, forall v : Instance,
            (Throw "loc.includes is not a function" : completion unit, v) = (c, ext v es ws)).
  { exists (Throw "loc.includes is not a function"), [], []. intros v. now rewrite ext_nil. }
  destruct l as [|[s|q]|t]; try exact Hthrow.
  unfold check_common.
  pose (f1 := fun v => if includes " " s
                       then push_error (label "URL" i ++ "Contains spaces (should be encoded): " ++ s) v
                       else v).
  pose (f2 := fun v => if includes "&" s && negb (includes "&amp;" s)
                       then push_error (label "URL" i ++ "Unescaped ampersand: " ++ s) v
                       else v).
  assert (F : framed (fun v => f2 (f1 v))).
  { apply (framed_comp f1 f2); apply framed_cond_error. }
  destruct F as (es & ws & F). exists (Normal tt), es, ws. intros v.
  f_equal. apply F.
Qed.

Lemma check_url_frame : forall i u S,
  exists c es ws S', forall v, check_url i u (v, S) = (c, (ext v es ws, S')).
Proof.
  intros i u S. unfold Validator.check_url.
  destruct (truthy (loc u)); cbn [negb].
  - set (l := text_or_self (loc u)).
    pose (f1 := fun v => if negb (isValidUrl URL_protocol Number_toString l)
                         then push_error (label "URL" i ++ "Invalid URL format: "
                                          ++ toString Number_toString l) v
                         else v).
    pose (f2 := fun v => if set_has l S
                         then push_warning (label "URL" i ++ "Duplicate URL: "
                                            ++ toString Number_toString l) v
                         else v).
    pose (f3 := check_lastmod Date_isValid Number_toString i u).
    pose (f4 := check_changefreq Number_toString i u).
    pose (f5 := check_priority parseFloat Number_toString i u).
    assert (F : framed (fun v => f5 ((fun v => f4 ((fun v => f3 ((fun v => f2 (f1 v)) v)) v)) v))).
    { apply (framed_comp _ f5); [|apply check_priority_framed].
      apply (framed_comp _ f4); [|apply check_changefreq_framed].
      apply (framed_comp _ f3); [|apply check_lastmod_framed].
      apply (framed_comp f1 f2); [apply framed_cond_error | apply framed_cond_warning]. }
    destruct F as (es & ws & F).
    destruct (check_common_frame i l) as (c & es' & ws' & C).
    exists c, (es ++ es'), (ws ++ ws'), (set_add l S). intros v.
    specialize (F v). unfold f1, f2, f3, f4, f5 in F. cbv beta in F.
    rewrite F, C. now rewrite ext_ext.
  - exists (Normal tt), [(label "URL" i ++ "Missing required <loc> element")%string], [], S.
    intros v. now rewrite push_error_ext.
Qed.

Lemma forEach_urls_frame : forall l i S,
  exists c es ws S', forall v, forEach_urls i l (v, S) = (c, (ext v es ws, S')).
Proof.
  induction l as [|u l IH]; intros i S.
  - exists (Normal tt), [], [], S. intros v. simpl. now rewrite ext_nil.
  - destruct (check_url_frame i u S) as (c & es & ws & S1 & H).
    destruct c as [[]|m].
    + destruct (IH (Datatypes.S i) S1) as (c2 & es2 & ws2 & S2 & H2).
      exists c2, (es ++ es2), (ws ++ ws2), S2. intros v.
      cbn [Validator.forEach_urls]. rewrite H, H2. now rewrite ext_ext.
    + exists (Throw m), es, ws, S1. intros v.
      cbn [Validator.forEach_urls]. now rewrite H.
Qed.

(** C10: a URL entry without [<loc>] is answered by the one missing-loc
    error and nothing else: no warning, no other error, and the set of
    seen locations is left as it was.  The entries after it are then
    checked as they would be, at their own indices, without it: the
    outcome differs by that one error only. *)
Theorem missing_loc_entry_is_only_reported :
  forall index lm cf pr S rest,
    let u := mkUrl VUndefined lm cf pr in
    let m := (label "URL" index ++ "Missing required <loc> element")%string in
    (forall v, check_url index u (v, S) = (Normal tt, (push_error m v, S)))
    /\ (forall v, forEach_urls index (u :: rest) (v, S)
                  = forEach_urls (Datatypes.S index) rest (push_error m v, S))
    /\ (exists c es ws S',
          (forall v, forEach_urls (Datatypes.S index) rest (v, S)
                     = (c, (ext v es ws, S')))
          /\ (forall v, forEach_urls index (u :: rest) (v, S)
                        = (c, (ext v (m :: es) ws, S')))).
Proof.
  intros index lm cf pr S rest u m.
  assert (H1 : forall v, check_url index u (v, S) = (Normal tt, (push_error m v, S)))
    by reflexivity.
  assert (H2 : forall v, forEach_urls index (u :: rest) (v, S)
                         = forEach_urls (Datatypes.S index) rest (push_error m v, S)).
  { intros v. cbn [Validator.forEach_urls]. now rewrite H1. }
  split; [exact H1|]. split; [exact H2|].
  destruct (forEach_urls_frame rest (Datatypes.S index) S) as (c & es & ws & S' & H).
  exists c, es, ws, S'. split; [exact H|].
  intros v. rewrite H2, H, push_error_ext, ext_ext. reflexivity.
Qed.

(** *** The ampersand check *)

Lemma prefix_cons : forall a s b t,
  String.prefix (String a s) (String b t) = Ascii.eqb a b && String.prefix s t.
Proof.
  intros a s b t. simpl. destruct (ascii_dec a b) as [->|n].
  - now rewrite Ascii.eqb_refl.
  - destruct (Ascii.eqb_spec a b); [contradiction | reflexivity].
Qed.

(** When every ampersand of the location starts an [&amp;], the test of
    line 257 is false. *)
Lemma escaped_ampersands_pass : forall s,
  has_bare_ampersand s = false ->
  includes "&" s && negb (includes "&amp;" s) = false.
Proof.
  intros s H.
  assert (G : includes "&" s = true -> includes "&amp;" s = true).
  { induction s as [|c s IH]; [discriminate|].
    cbn [has_bare_ampersand] in H. apply Bool.orb_false_iff in H. destruct H as [Hc Hs].
    cbn [includes]. rewrite !prefix_cons. intros Hin.
    apply Bool.orb_true_iff in Hin. apply Bool.orb_true_iff.
    destruct Hin as [Hin|Hin].
    - left. apply Bool.andb_true_iff in Hin. destruct Hin as [Hin _].
      rewrite Ascii.eqb_sym in Hin. rewrite Hin in Hc. cbn [andb] in Hc.
      apply Bool.negb_false_iff in Hc. rewrite Ascii.eqb_sym, Hin. exact Hc.
    - right. now apply IH. }
  destruct (includes "&" s); [|reflexivity]. now rewrite G.
Qed.

(** *** The valid flag *)


End Facts.

(** *** The validator on a small site *)

(** C6: on a sitemap index with two children, validated recursively at
    depth 0, no child is traversed: the only fetch is that of the index,
    and the result has neither [childSitemaps] nor [childResults].
    [validateSitemapIndex] returns [getResults()], which never carries
    the [childSitemaps] that line 68 asks for. *)
Theorem recursive_walk_traverses_no_child :
  demo_validateUrl "https://example.com/sitemap.xml"
                   (mkOptions true (Some 0%Z) (Some 3%Z)) []
  = (mkResults true [] [] None None, ["https://example.com/sitemap.xml"]).
Proof. vm_compute. reflexivity. Qed.

(** C7: with [maxDepth = 1] and recursion enabled, the depth-1 documents
    of an index of indexes are not validated, and the result does not
    list its children in [childSitemaps]: the call stops after the
    depth-0 document, as it does for every [maxDepth]. *)
Theorem maxDepth_1_validates_depth_0_only :
  demo_validateUrl "https://example.com/sitemap.xml"
                   (mkOptions true (Some 0%Z) (Some 1%Z)) []
  = (mkResults true [] [] None None, ["https://example.com/sitemap.xml"])
  /\ js_lt (Some 0%Z) (Some 1%Z) = true.
Proof. split; vm_compute; reflexivity. Qed.

(** C9: a location with one escaped and one bare ampersand has a bare
    ampersand, yet the closing checks push no error for it, and the
    document holding it is valid without errors. *)
Theorem mixed_ampersands_are_not_reported :
  let s := "http://a.com/?x=1&amp;y=2&z=3" in
  has_bare_ampersand s = true
  /\ check_common 0 (VPrim (PStr s)) fresh = (Normal tt, fresh)
  /\ demo_validateContent (demo_urlset [s]) fresh
     = (Normal (mkResults true [] [] None None), fresh).
Proof. cbv zeta. repeat split; vm_compute; reflexivity. Qed.

End ValidatorFacts.

(* ================================================================== *)
(** ** Facts about the grouping ranges                                 *)
(* ================================================================== *)

Module GroupingsFacts.
Import JS Groupings GroupingsSpec.

Local Opaque startRow.

Lemma split_nonempty : forall sep s, split sep s <> [].
Proof.
  intros sep s. destruct s as [|c s]; simpl; [discriminate|].
  destruct (Ascii.eqb c sep); [discriminate|].
  destruct (split sep s); discriminate.
Qed.

Lemma parseUrl_Some : forall url s t,
  parseUrl url = Some (s, t) ->
  String.length s = 2
  /\ ((t = "positions" /\ part 4 (split "/" url) = "position"
       /\ s = part 5 (split "/" url))
      \/ (t = "counties" /\ s = part 4 (split "/" url) /\ letters_only s = true))
  /\ part 3 (split "/" url) = "elections"
  /\ 5 <= List.length (split "/" url).
Proof.
  intros url s t H. unfold parseUrl in H.
  destruct (Nat.leb_spec 5 (List.length (split "/" url))) as [H5|]; [|discriminate].
  destruct (String.eqb_spec (part 3 (split "/" url)) "elections") as [E3|]; [|discriminate].
  cbn [andb] in H.
  destruct ((part 4 (split "/" url) =? "position")%string
            && (6 <=? List.length (split "/" url))
            && (String.length (part 5 (split "/" url)) =? 2)) eqn:P.
  - injection H as <- <-.
    apply Bool.andb_true_iff in P. destruct P as [P P2].
    apply Bool.andb_true_iff in P. destruct P as [P0 P1].
    apply String.eqb_eq in P0. apply Nat.eqb_eq in P2.
    repeat split; auto.
  - destruct ((String.length (part 4 (split "/" url)) =? 2)
              && letters_only (part 4 (split "/" url))) eqn:Q; [|discriminate].
    injection H as <- <-.
    apply Bool.andb_true_iff in Q. destruct Q as [Q1 Q2]. apply Nat.eqb_eq in Q1.
    repeat split; auto.
Qed.

Lemma chained_snoc : forall rs first next a b last,
  chained first rs next -> next <= last ->
  chained first (rs ++ [mkRange a b next last]) (S last).
Proof.
  induction rs as [|r rs IH]; intros first next a b last H Hle; simpl in *.
  - subst. now repeat split.
  - destruct H as (H1 & H2 & H3). repeat split; auto.
Qed.

Lemma distinct_snoc : forall rs r,
  distinct_neighbours rs -> last_differs rs (label r) ->
  distinct_neighbours (rs ++ [r]).
Proof.
  induction rs as [|a rs IH]; intros r H L; [exact I|].
  destruct rs as [|b rs].
  - simpl. split; [|exact I]. apply (L [] a). reflexivity.
  - destruct H as [H1 H2]. change ((a :: b :: rs) ++ [r]) with (a :: ((b :: rs) ++ [r])).
    cbn [app]. split; [exact H1|].
    change (b :: rs ++ [r]) with ((b :: rs) ++ [r]). apply IH; [exact H2|].
    intros pre x E. apply (L (a :: pre) x). simpl. now rewrite E.
Qed.

Lemma last_differs_snoc : forall rs r l,
  label r <> l -> last_differs (rs ++ [r]) l.
Proof.
  intros rs r l H pre x E. apply app_inj_tail in E. destruct E as [_ <-]. exact H.
Qed.

Lemma last_differs_nil : forall l, last_differs [] l.
Proof. intros l pre r E. destruct pre; discriminate. Qed.

Lemma open_at_mono : forall i st, open_at i st -> open_at (S i) st.
Proof.
  intros i st H. unfold open_at in *. destruct (currentState st) as [s|]; [|exact H].
  destruct H as (t & first & H1 & H2 & H3 & H4 & H5 & H6).
  exists t, first. repeat split; try tauto. lia.
Qed.

(** The variables after the changes of state and type, before the
    closing push: a group is current and began at or before [i]. *)
Lemma visit_update : forall i st state type,
  open_at i st ->
  String.length state = 2 -> (type = "positions" \/ type = "counties") ->
  let st1 :=
    if differs state (currentState st) then
      let st' := if truthy (currentState st)
                 then push_range (startRow + i - 1) st else st in
      mkLoop (Some state) (Some type) (startRow + i) (ranges st')
    else if differs type (currentType st) then
      let st' := push_range (startRow + i - 1) st in
      mkLoop (currentState st') (Some type) (startRow + i) (ranges st')
    else st in
  open_at (S i) st1
  /\ currentState st1 = Some state /\ currentType st1 = Some type.
Proof.
  intros i st state type H Hlen Hty. unfold open_at in H.
  destruct (currentState st) as [s|] eqn:Es.
  - destruct H as (t & first & Et & Hs & Ht & Hf & Hlt & Hch & Hlab & Hd & Hl).
    assert (Hpush : chained first
                      (ranges st ++ [mkRange (Some s) (Some t) (startRowNum st) (startRow + i - 1)])
                      (startRow + i)).
    { replace (startRow + i) with (S (startRow + i - 1)) at 2 by lia.
      apply chained_snoc; [exact Hch | lia]. }
    assert (Hlab' : Forall labelled
                      (ranges st ++ [mkRange (Some s) (Some t) (startRowNum st) (startRow + i - 1)])).
    { apply Forall_app. split; [exact Hlab|]. constructor; [|constructor].
      exists s, t. now repeat split. }
    assert (Hd' : distinct_neighbours
                    (ranges st ++ [mkRange (Some s) (Some t) (startRowNum st) (startRow + i - 1)])).
    { apply distinct_snoc; assumption. }
    cbn [differs truthy].
    destruct (String.eqb_spec state s) as [->|Hne]; cbn [negb].
    + rewrite Et. cbn [differs].
      destruct (String.eqb_spec type t) as [->|Hnt]; cbn [negb].
      * cbv zeta. split; [|now split].
        apply open_at_mono. unfold open_at. rewrite Es.
        exists t, first. now repeat split.
      * cbv zeta. unfold push_range. cbn. rewrite Es, Et. split; [|now split].
        unfold open_at. cbn. exists type, first. repeat split; auto; try lia.
        apply last_differs_snoc. unfold label. cbn. congruence.
    + assert (Hnz : negb (s =? "")%string = true).
      { destruct (String.eqb_spec s ""); [subst; discriminate | reflexivity]. }
      rewrite Hnz. cbv zeta. unfold push_range. cbn. rewrite Es, Et.
      split; [|now split].
      unfold open_at. cbn. exists type, first. repeat split; auto; try lia.
      apply last_differs_snoc. unfold label. cbn. congruence.
  - destruct H as [Hr Ht]. cbn [differs truthy]. cbv zeta. cbn. rewrite Hr.
    split; [|now split].
    unfold open_at. cbn. exists type, (startRow + i). repeat split; auto; try lia.
    apply last_differs_nil.
Qed.

Lemma visit_open : forall n i row st st',
  open_at i st -> visit n i row st = Some st' ->
  (i = n - 1 /\ parses row /\ closed_at (S i) st')
  \/ ((i <> n - 1 \/ unparsed row) /\ open_at (S i) st').
Proof.
  intros n i row st st' H Hv. unfold visit in Hv.
  destruct (first_cell row) as [u|] eqn:Eu; [|discriminate].
  destruct (parseUrl u) as [[state type]|] eqn:Ep.
  - destruct (parseUrl_Some _ _ _ Ep) as (Hlen & Hkind & _).
    assert (Hty : type = "positions" \/ type = "counties") by (destruct Hkind as [[? _]|[? _]]; auto).
    destruct (visit_update i st state type H Hlen Hty) as (Hopen & Ecs & Ect).
    cbv zeta in Hopen, Ecs, Ect.
    injection Hv as <-.
    destruct (Nat.eqb_spec i (n - 1)) as [Ei|Ei].
    + left. split; [exact Ei|]. split; [exists u, (state, type); now split|].
      set (st1 := if differs state (currentState st) then _ else _) in *.
      unfold open_at in Hopen. rewrite Ecs in Hopen.
      destruct Hopen as (t & first & Et & Hs & Ht & Hf & Hlt & Hch & Hlab & Hd & Hl).
      unfold closed_at, push_range. cbn [ranges]. rewrite Ecs, Ect.
      split; [intros E; apply app_eq_nil in E; destruct E; discriminate|].
      split; [apply Forall_app; split; [exact Hlab|];
              constructor; [exists state, type; now repeat split | constructor]|].
      split.
      * apply distinct_snoc; [exact Hd|]. unfold label. cbn.
        assert (t = type) by congruence. subst t. exact Hl.
      * exists first. split; [exact Hf|].
        replace (startRow + S i) with (S (startRow + i)) by lia.
        apply chained_snoc; [exact Hch | lia].
    + right. split; [now left | exact Hopen].
  - injection Hv as <-. right. split; [right; now exists u|]. now apply open_at_mono.
Qed.

(** After the loop over [n] rows: the closing push was made, or the
    loop variables are still as before any closing push. *)
Lemma forEach_open : forall rows n i st st',
  i + List.length rows = n ->
  open_at i st -> forEach n i rows st = Some st' ->
  closed_at n st' \/ open_at n st'.
Proof.
  induction rows as [|row rows IH]; intros n i st st' Hn H Hf; simpl in *.
  - injection Hf as <-. right. now replace n with i by lia.
  - destruct (visit n i row st) as [st1|] eqn:Ev; [|discriminate].
    destruct (visit_open _ _ _ _ _ H Ev) as [(Ei & _ & Hc)|(_ & Ho)].
    + destruct rows as [|x rows]; [|simpl in Hn; lia].
      simpl in Hf. injection Hf as <-. left. now replace n with (S i) by lia.
    + apply (IH n (S i) st1); auto. lia.
Qed.

Lemma open_at_init : open_at 0 loop_init.
Proof. unfold open_at. simpl. now split. Qed.

(** The same loop, with what the last row was. *)
Lemma forEach_last : forall rows n i st st',
  i + List.length rows = n ->
  open_at i st -> forEach n i rows st = Some st' ->
  (closed_at n st' /\ exists pre l, rows = pre ++ [l] /\ parses l)
  \/ (open_at n st' /\ (rows = [] \/ exists pre l, rows = pre ++ [l] /\ unparsed l)).
Proof.
  induction rows as [|row rows IH]; intros n i st st' Hn H Hf.
  - simpl in *. injection Hf as <-. right. split; [now replace n with i by lia | now left].
  - cbn [forEach] in Hf. destruct (visit n i row st) as [st1|] eqn:Ev; [|discriminate].
    destruct rows as [|x rows].
    + simpl in Hf. injection Hf as <-. simpl in Hn.
      destruct (visit_open _ _ _ _ _ H Ev) as [(Ei & Hp & Hc)|([Ei|Hu] & Ho)].
      * left. split; [now replace n with (S i) by lia|]. exists [], row. now split.
      * lia.
      * right. split; [now replace n with (S i) by lia|]. right. exists [], row. now split.
    + destruct (visit_open _ _ _ _ _ H Ev) as [(Ei & _ & _)|(_ & Ho)].
      * simpl in Hn. lia.
      * destruct (IH n (S i) st1 st') as [(Hc & pre & l & E & Hp)|(Ho' & [E|(pre & l & E & Hu)])];
          auto; [simpl in *; lia | | discriminate |].
        -- left. split; [exact Hc|]. exists (row :: pre), l. split; [now rewrite E | exact Hp].
        -- right. split; [exact Ho'|]. right. exists (row :: pre), l.
           split; [now rewrite E | exact Hu].
Qed.

Lemma head_start_push : forall last st,
  head_start (push_range last st) = head_start st.
Proof.
  intros last st. unfold head_start, push_range. cbn [ranges startRowNum].
  destruct (ranges st); reflexivity.
Qed.

Lemma head_start_update : forall i st state type,
  open_at i st ->
  head_start
    (if differs state (currentState st) then
       let st' := if truthy (currentState st)
                  then push_range (startRow + i - 1) st else st in
       mkLoop (Some state) (Some type) (startRow + i) (ranges st')
     else if differs type (currentType st) then
       let st' := push_range (startRow + i - 1) st in
       mkLoop (currentState st') (Some type) (startRow + i) (ranges st')
     else st)
  = match currentState st with
    | None => startRow + i
    | Some _ => head_start st
    end.
Proof.
  intros i st state type H. unfold open_at in H.
  destruct (currentState st) as [s|] eqn:Es.
  - destruct H as (t & first & Et & Hs & _).
    assert (Hnz : negb (s =? "")%string = true).
    { destruct (String.eqb_spec s ""); [subst; discriminate | reflexivity]. }
    assert (Hp : forall last a b n,
               head_start (mkLoop a b n (ranges (push_range last st))) = head_start st).
    { intros last a b n. unfold head_start, push_range. cbn [ranges startRowNum].
      destruct (ranges st); reflexivity. }
    cbn [differs truthy]. rewrite Hnz.
    destruct (negb (state =? s)%string); cbv zeta; [apply Hp|].
    destruct (differs type (currentType st)); [apply Hp | reflexivity].
  - destruct H as [Hr _]. cbn [differs truthy]. cbv zeta.
    unfold head_start. cbn [ranges startRowNum]. now rewrite Hr.
Qed.

Lemma anchored_visit : forall n seen row st st',
  open_at (List.length seen) st ->
  anchored seen st -> visit n (List.length seen) row st = Some st' ->
  anchored (seen ++ [row]) st'.
Proof.
  intros n seen row st st' Ho H Hv. unfold visit in Hv.
  destruct (first_cell row) as [u|] eqn:Eu; [|discriminate].
  destruct (parseUrl u) as [[state type]|] eqn:Ep.
  - destruct (parseUrl_Some _ _ _ Ep) as (Hlen & Hkind & _).
    assert (Hty : type = "positions" \/ type = "counties")
      by (destruct Hkind as [[? _]|[? _]]; auto).
    destruct (visit_update _ st state type Ho Hlen Hty) as (_ & Ecs & _).
    pose proof (head_start_update _ st state type Ho) as Hh.
    cbv zeta in Ecs. injection Hv as <-.
    set (st1 := if differs state (currentState st) then _ else _) in *.
    assert (H1 : exists pre x post,
               seen ++ [row] = pre ++ x :: post /\ Forall unparsed pre /\ parses x
               /\ head_start st1 = startRow + List.length pre).
    { rewrite Hh. unfold anchored in H. destruct (currentState st) as [s|].
      - destruct H as (pre & x & post & E & Hpre & Hx & Hs).
        exists pre, x, (post ++ [row]). rewrite E, <- app_assoc. now repeat split.
      - destruct H as [Hall _]. exists seen, row, []. repeat split; auto.
        exists u, (state, type). now split. }
    unfold anchored.
    destruct (List.length seen =? n - 1).
    + cbn [currentState push_range]. rewrite Ecs.
      destruct H1 as (p0 & x0 & q0 & E0 & F0 & P0 & Hs0).
      exists p0, x0, q0. repeat split; auto.
      rewrite <- Hs0. apply (head_start_push (startRow + List.length seen) st1).
    + rewrite Ecs. exact H1.
  - injection Hv as <-. unfold anchored in *.
    destruct (currentState st) as [s|].
    + destruct H as (pre & x & post & E & Hpre & Hx & Hh).
      exists pre, x, (post ++ [row]). rewrite E, <- app_assoc. now repeat split.
    + destruct H as [Hall Hr]. split; [|exact Hr].
      apply Forall_app. split; [exact Hall|]. constructor; [now exists u | constructor].
Qed.

(** Both invariants along the loop. *)
Lemma forEach_anchored : forall rows n seen st st',
  List.length seen + List.length rows = n ->
  open_at (List.length seen) st -> anchored seen st ->
  forEach n (List.length seen) rows st = Some st' ->
  anchored (seen ++ rows) st'.
Proof.
  induction rows as [|row rows IH]; intros n seen st st' Hn Ho Ha Hf.
  - simpl in Hf. injection Hf as <-. now rewrite app_nil_r.
  - cbn [forEach] in Hf.
    destruct (visit n (List.length seen) row st) as [st1|] eqn:Ev; [|discriminate].
    pose proof (anchored_visit _ _ _ _ _ Ho Ha Ev) as Ha1.
    destruct rows as [|x rows].
    + simpl in Hf. injection Hf as <-. exact Ha1.
    + destruct (visit_open _ _ _ _ _ Ho Ev) as [(Ei & _ & _)|(_ & Ho1)];
        [simpl in Hn; lia|].
      replace (seen ++ row :: x :: rows) with ((seen ++ [row]) ++ x :: rows)
        by (now rewrite <- app_assoc).
      apply (IH n (seen ++ [row]) st1).
      * rewrite length_app. simpl in *. lia.
      * rewrite length_app. simpl. now replace (List.length seen + 1) with (S (List.length seen)) by lia.
      * exact Ha1.
      * rewrite length_app. simpl.
        now replace (List.length seen + 1) with (S (List.length seen)) by lia.
Qed.

Lemma chained_head : forall rs first next,
  chained first rs next -> rs <> [] ->
  exists r rs', rs = r :: rs' /\ First_Row r = first.
Proof.
  intros [|r rs] first next H Hne; [contradiction|].
  destruct H as (H1 & _). now exists r, rs.
Qed.

Lemma started_visit : forall n seen row st st',
  started seen st -> visit n (List.length seen) row st = Some st' ->
  started (seen ++ [row]) st'.
Proof.
  intros n seen row st st' H Hv. unfold visit in Hv.
  destruct (first_cell row) as [u|] eqn:Eu; [|discriminate].
  assert (Hkeep : forall st0, currentState st0 = currentState st ->
                    currentType st0 = currentType st ->
                    startRowNum st0 = startRowNum st ->
                    started (seen ++ [row]) st0).
  { intros st0 E1 E2 E3. unfold started in *. rewrite E1.
    destruct (currentState st) as [s|]; [|exact I].
    destruct H as (t & pre & x & post & u0 & Et & E & Hc & Hp & Hs).
    exists t, pre, x, (post ++ [row]), u0. rewrite E2, E3, E, <- app_assoc.
    now repeat split. }
  destruct (parseUrl u) as [[state type]|] eqn:Ep.
  - injection Hv as <-.
    assert (Hnew : forall rs, started (seen ++ [row])
                                (mkLoop (Some state) (Some type)
                                        (startRow + List.length seen) rs)).
    { intros rs. unfold started. cbn [currentState currentType startRowNum].
      exists type, seen, row, [], u. now repeat split. }
    assert (H1 : started (seen ++ [row])
              (if differs state (currentState st) then
                 let st' := if truthy (currentState st)
                            then push_range (startRow + List.length seen - 1) st else st in
                 mkLoop (Some state) (Some type) (startRow + List.length seen) (ranges st')
               else if differs type (currentType st) then
                 let st' := push_range (startRow + List.length seen - 1) st in
                 mkLoop (currentState st') (Some type) (startRow + List.length seen) (ranges st')
               else st)).
    { destruct (differs state (currentState st)) eqn:Ed; [apply Hnew|].
      destruct (differs type (currentType st)); [|now apply Hkeep].
      cbv zeta. cbn [push_range currentState].
      destruct (currentState st) as [s|] eqn:Es; [|discriminate].
      cbn [differs] in Ed. apply Bool.negb_false_iff, String.eqb_eq in Ed. subst s.
      apply Hnew. }
    destruct (List.length seen =? n - 1); [|exact H1].
    unfold started in *. cbn [push_range currentState currentType startRowNum]. exact H1.
  - injection Hv as <-. now apply Hkeep.
Qed.

Lemma forEach_started : forall rows n seen st st',
  started seen st ->
  forEach n (List.length seen) rows st = Some st' ->
  started (seen ++ rows) st'.
Proof.
  induction rows as [|row rows IH]; intros n seen st st' H Hf.
  - simpl in Hf. injection Hf as <-. now rewrite app_nil_r.
  - cbn [forEach] in Hf.
    destruct (visit n (List.length seen) row st) as [st1|] eqn:Ev; [|discriminate].
    replace (seen ++ row :: rows) with ((seen ++ [row]) ++ rows) by (now rewrite <- app_assoc).
    apply (IH n (seen ++ [row]) st1).
    + eapply started_visit; eassumption.
    + rewrite length_app. simpl.
      now replace (List.length seen + 1) with (S (List.length seen)) by lia.
Qed.

Lemma chained_bounds : forall rs first next,
  chained first rs next ->
  first <= next
  /\ Forall (fun r => first <= First_Row r /\ First_Row r <= Last_Row r
                      /\ Last_Row r < next) rs.
Proof.
  induction rs as [|r rs IH]; intros first next H; simpl in H.
  - subst. split; [lia | constructor].
  - destruct H as (H1 & H2 & H3). destruct (IH _ _ H3) as [Hle Hall].
    split; [lia|]. constructor; [lia|].
    eapply Forall_impl; [|exact Hall]. simpl. intros a Ha. lia.
Qed.

Lemma parses_not_unparsed : forall row, parses row -> unparsed row -> False.
Proof.
  intros row (u & g & E1 & E2) (u' & E3 & E4). congruence.
Qed.

(** X1: when the last kept row is an election URL, the ranges written are
    not empty, each names a two-character state and a type, neighbours
    name different groups, and together they tile the rows from the
    first election URL to the last row: each range is non-empty, the
    next starts right after it, the first starts at the first election
    URL and the last ends at the last row. *)
Theorem ranges_tile_the_election_rows :
  forall pre l st,
    parses l ->
    forEach (List.length (pre ++ [l])) 0 (pre ++ [l]) loop_init = Some st ->
    ranges st <> []
    /\ Forall labelled (ranges st)
    /\ distinct_neighbours (ranges st)
    /\ exists p x q,
         pre ++ [l] = p ++ x :: q /\ Forall unparsed p /\ parses x
         /\ chained (startRow + List.length p) (ranges st)
                    (startRow + List.length (pre ++ [l])).
Proof.
  intros pre l st Hl Hf.
  destruct (forEach_last (pre ++ [l]) _ 0 loop_init st eq_refl open_at_init Hf)
    as [(Hc & _)|(_ & [E|(p0 & l0 & E & Hu)])].
  - destruct Hc as (Hne & Hlab & Hd & first & Hfirst & Hch).
    repeat split; auto.
    pose proof (forEach_anchored (pre ++ [l]) _ [] loop_init st eq_refl open_at_init) as Ha.
    cbn [List.length app] in Ha.
    assert (H0 : anchored [] loop_init) by (unfold anchored; simpl; now split).
    specialize (Ha H0 Hf). unfold anchored in Ha.
    destruct (currentState st) as [s|].
    + destruct Ha as (p & x & q & E & Hp & Hx & Hh).
      exists p, x, q. repeat split; auto.
      destruct (chained_head _ _ _ Hch Hne) as (r & rs' & Er & Hr).
      unfold head_start in Hh. rewrite Er in Hh. rewrite <- Hh, Hr. exact Hch.
    + destruct Ha as [_ Hr]. contradiction.
  - destruct pre; discriminate.
  - apply app_inj_tail in E. destruct E as [_ <-]. exfalso.
    eapply parses_not_unparsed; eassumption.
Qed.

(** X2: when the last kept row is no election URL, the group in progress
    gets no range: the row that opened it, an election URL of the
    current state and type, has the number [startRowNum], and every
    range written ends before that row. *)
Theorem trailing_group_gets_no_range :
  forall pre l st,
    unparsed l -> Exists parses pre ->
    forEach (List.length (pre ++ [l])) 0 (pre ++ [l]) loop_init = Some st ->
    exists s t p x q u,
      currentState st = Some s /\ currentType st = Some t
      /\ pre ++ [l] = p ++ x :: q
      /\ first_cell x = Some u /\ parseUrl u = Some (s, t)
      /\ startRowNum st = startRow + List.length p
      /\ startRowNum st < startRow + List.length (pre ++ [l])
      /\ Forall (fun r => Last_Row r < startRowNum st) (ranges st).
Proof.
  intros pre l st Hl Hex Hf.
  destruct (forEach_last (pre ++ [l]) _ 0 loop_init st eq_refl open_at_init Hf)
    as [(_ & p0 & l0 & E & Hp)|(Ho & _)].
  - apply app_inj_tail in E. destruct E as [_ <-]. exfalso.
    eapply parses_not_unparsed; eassumption.
  - pose proof (forEach_anchored (pre ++ [l]) _ [] loop_init st eq_refl open_at_init) as Ha.
    assert (H0 : anchored [] loop_init) by (unfold anchored; simpl; now split).
    specialize (Ha H0 Hf). cbn [app] in Ha.
    pose proof (forEach_started (pre ++ [l]) (List.length (pre ++ [l])) [] loop_init st I Hf) as Hs.
    cbn [app] in Hs.
    unfold open_at in Ho. unfold anchored in Ha. unfold started in Hs.
    destruct (currentState st) as [s|].
    + destruct Ho as (t & first & Et & _ & _ & _ & Hlt & Hch & _).
      destruct Hs as (t' & p & x & q & u & Et' & E & Hc & Hpu & Hstart).
      assert (t' = t) by congruence. subst t'.
      exists s, t, p, x, q, u. repeat split; auto.
      destruct (chained_bounds _ _ _ Hch) as [_ Hall].
      eapply Forall_impl; [|exact Hall]. simpl. intros a Ha'. lia.
    + destruct Ha as [Hall _]. exfalso.
      apply Forall_app in Hall. destruct Hall as [Hall _].
      apply Exists_exists in Hex. destruct Hex as (r & Hin & Hr).
      rewrite Forall_forall in Hall.
      eapply parses_not_unparsed; [exact Hr | now apply Hall].
Qed.

(** *** Election URLs read back *)

Lemma split_app : forall sep a b,
  split sep (a ++ String sep b)%string = split sep a ++ split sep b.
Proof.
  intros sep a b. induction a as [|c a IH]; cbn [String.append split].
  - now rewrite Ascii.eqb_refl.
  - destruct (Ascii.eqb c sep); [now rewrite IH|].
    rewrite IH. destruct (split sep a) as [|p ps] eqn:E; [|reflexivity].
    exfalso. eapply split_nonempty; eassumption.
Qed.

Lemma split_free : forall sep s, free_of sep s = true -> split sep s = [s].
Proof.
  intros sep s. unfold free_of. induction s as [|c s IH]; intros H; simpl in *.
  - reflexivity.
  - apply Bool.andb_true_iff in H. destruct H as [Hc Hs].
    apply Bool.negb_true_iff in Hc. rewrite Hc, (IH Hs). reflexivity.
Qed.

Lemma letters_free_of_slash : forall s, letters_only s = true -> free_of "/" s = true.
Proof.
  intros s H. unfold letters_only in H. apply Bool.andb_true_iff in H. destruct H as [_ H].
  unfold free_of. induction (list_ascii_of_string s) as [|c l IH]; simpl in *; [reflexivity|].
  apply Bool.andb_true_iff in H. destruct H as [Hc Hl]. rewrite (IH Hl), Bool.andb_true_r.
  destruct (Ascii.eqb_spec c "/") as [->|]; [discriminate Hc | reflexivity].
Qed.

Lemma split_election_url : forall host rest,
  free_of "/" host = true ->
  split "/" ("https://" ++ host ++ "/elections/" ++ rest)%string
  = "https:" :: "" :: host :: "elections" :: split "/" rest.
Proof.
  intros host rest H.
  change ("https://" ++ host ++ "/elections/" ++ rest)%string
    with ("https:" ++ String "/" ("" ++ String "/" (host ++ String "/" ("elections" ++ String "/" rest))))%string.
  rewrite !split_app, (split_free _ _ H). reflexivity.
Qed.

(** X3: an election URL built from a host without slash and a state of
    two characters is read back: as a county URL with that state when
    the state is made of letters, as a position URL with that state when
    it follows the [position] segment and has no slash. *)
Theorem parseUrl_reads_election_urls :
  forall host s tail,
    free_of "/" host = true -> String.length s = 2 ->
    (letters_only s = true ->
     parseUrl ("https://" ++ host ++ "/elections/" ++ s ++ "/" ++ tail)
     = Some (s, "counties"))
    /\ (free_of "/" s = true ->
        parseUrl ("https://" ++ host ++ "/elections/position/" ++ s ++ "/" ++ tail)
        = Some (s, "positions")).
Proof.
  intros host s tail Hh Hlen. split; intros Hs.
  - unfold parseUrl. rewrite (split_election_url host _ Hh).
    change (s ++ "/" ++ tail)%string with (s ++ String "/" tail)%string.
    rewrite split_app, (split_free _ _ (letters_free_of_slash _ Hs)).
    cbn [app List.length part nth]. cbn [Nat.leb andb String.eqb Ascii.eqb Bool.eqb].
    destruct (String.eqb_spec s "position") as [->|_]; [discriminate Hlen|].
    cbn [andb]. now rewrite Hlen, Hs.
  - unfold parseUrl.
    change ("https://" ++ host ++ "/elections/position/" ++ s ++ "/" ++ tail)%string
      with ("https://" ++ host ++ "/elections/" ++ ("position" ++ String "/" (s ++ String "/" tail)))%string.
    rewrite (split_election_url host _ Hh), !split_app, (split_free _ _ Hs).
    cbn [app List.length part nth split String.append Ascii.eqb Bool.eqb].
    cbn [Nat.leb andb String.eqb Ascii.eqb Bool.eqb].
    now rewrite Hlen.
Qed.

Lemma parseUrl_reads_election_urls_witness :
  (free_of "/" "goodparty.org" = true /\ String.length "ak" = 2)
  /\ (letters_only "ak" = true ->
      parseUrl ("https://" ++ "goodparty.org" ++ "/elections/" ++ "ak" ++ "/" ++ "anchorage")
      = Some ("ak", "counties"))
  /\ (free_of "/" "ak" = true ->
      parseUrl ("https://" ++ "goodparty.org" ++ "/elections/position/" ++ "ak" ++ "/" ++ "mayor")
      = Some ("ak", "positions")).
Proof.
  split; [split; reflexivity|].
  exact (parseUrl_reads_election_urls "goodparty.org" "ak" "anchorage" eq_refl eq_refl).
Defined.

(** *** The facts on a sitemap tail *)

Lemma demo_last_parses : parses (demo_url "al/shelby").
Proof. exists "https://goodparty.org/elections/al/shelby", ("al", "counties"). now split. Qed.

Lemma demo_other_unparsed : unparsed demo_other.
Proof. exists "https://goodparty.org/about". now split. Qed.

Lemma ranges_tile_the_election_rows_witness :
  (parses (demo_url "al/shelby")
   /\ forEach (List.length (demo_kept ++ [demo_url "al/shelby"])) 0
              (demo_kept ++ [demo_url "al/shelby"]) loop_init = Some demo_tiled)
  /\ ranges demo_tiled
     = [mkRange (Some "ak") (Some "counties") 949 950;
        mkRange (Some "ak") (Some "positions") 951 952;
        mkRange (Some "al") (Some "counties") 953 954]
  /\ ranges demo_tiled <> []
  /\ Forall labelled (ranges demo_tiled)
  /\ distinct_neighbours (ranges demo_tiled).
Proof.
  assert (H : forEach (List.length (demo_kept ++ [demo_url "al/shelby"])) 0
                (demo_kept ++ [demo_url "al/shelby"]) loop_init = Some demo_tiled)
    by (vm_compute; reflexivity).
  split; [split; [exact demo_last_parses | exact H]|].
  split; [vm_compute; reflexivity|].
  destruct (ranges_tile_the_election_rows demo_kept (demo_url "al/shelby") demo_tiled
              demo_last_parses H) as (H1 & H2 & H3 & _).
  now repeat split.
Defined.

Lemma trailing_group_gets_no_range_witness :
  (unparsed demo_other /\ Exists parses demo_kept
   /\ forEach (List.length (demo_kept ++ [demo_other])) 0
              (demo_kept ++ [demo_other]) loop_init = Some demo_cut)
  /\ ranges demo_cut
     = [mkRange (Some "ak") (Some "counties") 949 950;
        mkRange (Some "ak") (Some "positions") 951 952]
  /\ exists s t p x q u,
       currentState demo_cut = Some s /\ currentType demo_cut = Some t
       /\ demo_kept ++ [demo_other] = p ++ x :: q
       /\ first_cell x = Some u /\ parseUrl u = Some (s, t)
       /\ startRowNum demo_cut = startRow + List.length p
       /\ startRowNum demo_cut < startRow + List.length (demo_kept ++ [demo_other])
       /\ Forall (fun r => Last_Row r < startRowNum demo_cut) (ranges demo_cut).
Proof.
  assert (H : forEach (List.length (demo_kept ++ [demo_other])) 0
                (demo_kept ++ [demo_other]) loop_init = Some demo_cut)
    by (vm_compute; reflexivity).
  assert (He : Exists parses demo_kept).
  { apply Exists_cons_hd.
    exists "https://goodparty.org/elections/ak/anchorage", ("ak", "counties"). now split. }
  split; [split; [exact demo_other_unparsed | split; [exact He | exact H]]|].
  split; [vm_compute; reflexivity|].
  exact (trailing_group_gets_no_range demo_kept demo_other demo_cut
           demo_other_unparsed He H).
Defined.

(** *** From the grouping file to the orchestrator *)

(** X4: the file [processCsv] writes has the four columns State, Type,
    First Row and Last Row only; read back as the range-tracking store,
    every range is pending and the first has no ['Number'], so the
    orchestrator stops before any audit and writes nothing. *)
Theorem grouping_file_stops_the_orchestrator :
  forall data file,
    processCsv data = Some file ->
    Orchestrator.csv_records file <> [] ->
    Orchestrator.csv_header file = ["State"; "Type"; "First Row"; "Last Row"]
    /\ forall (Num : Type) (Number : option string -> Num) (World : Type)
              (audit : Orchestrator.AuditArgs Num -> World
                       -> Orchestrator.AuditResult * World) (w : World),
         Orchestrator.run Num Number World audit (read_back file) w
         = (Orchestrator.Fatal, w, []).
Proof.
  intros data file H Hne. unfold processCsv in H.
  destruct (forEach _ 0 (kept data) loop_init) as [st|]; [|discriminate].
  injection H as <-. cbn [Orchestrator.csv_header Orchestrator.csv_records] in *.
  split; [reflexivity|].
  intros Num Number World audit w. unfold read_back.
  cbn [Orchestrator.csv_header Orchestrator.csv_records].
  destruct (ranges st) as [|r rs]; [contradiction|].
  reflexivity.
Qed.

Lemma grouping_file_stops_the_orchestrator_witness :
  (processCsv demo_data = Some demo_file /\ Orchestrator.csv_records demo_file <> [])
  /\ Orchestrator.csv_records demo_file
     = [["ak"; "counties"; "949"; "950"]; ["ak"; "positions"; "951"; "952"];
        ["al"; "counties"; "953"; "954"]]
  /\ Orchestrator.run (option string) (fun v => v) nat OrchestratorSpec.demo_audit
       (read_back demo_file) 0
     = (Orchestrator.Fatal, 0, []).
Proof.
  assert (H : processCsv demo_data = Some demo_file) by (vm_compute; reflexivity).
  assert (Hne : Orchestrator.csv_records demo_file <> []) by discriminate.
  split; [split; assumption|]. split; [reflexivity|].
  exact (proj2 (grouping_file_stops_the_orchestrator demo_data demo_file H Hne)
           (option string) (fun v => v) nat OrchestratorSpec.demo_audit 0).
Defined.

End GroupingsFacts.

(* ================================================================== *)
(** ** Further facts about the sweep                                   *)
(* ================================================================== *)

Module AuditorMoreFacts.
Import Auditor AuditorSpec AuditorFacts AuditorMoreSpec.

Lemma exec_invariant : forall (P : State -> Prop) o,
  (forall s e s', step o s e = Some s' -> P s -> P s') ->
  forall evs s s', exec o s evs = Some s' -> P s -> P s'.
Proof.
  intros P o Hstep evs. induction evs as [|e evs IH]; intros s s' Hrun H; simpl in Hrun.
  - now injection Hrun as <-.
  - destruct (step o s e) as [s1|] eqn:Hs; [|discriminate]. eauto.
Qed.

Lemma take_task_length : forall id l t rest,
  take_task id l = Some (t, rest) -> List.length l = S (List.length rest).
Proof.
  intros id l. induction l as [|a l IH]; intros t rest H; simpl in H; [discriminate|].
  destruct (task_row a =? id).
  - now injection H as <- <-.
  - destruct (take_task id l) as [[t' r]|]; [|discriminate].
    injection H as <- <-. simpl. now rewrite (IH t' r eq_refl).
Qed.

Lemma take_task_perm : forall id l t rest,
  take_task id l = Some (t, rest) -> Permutation l (t :: rest).
Proof.
  intros id l. induction l as [|a l IH]; intros t rest H; simpl in H; [discriminate|].
  destruct (task_row a =? id).
  - now injection H as <- <-.
  - destruct (take_task id l) as [[t' r]|]; [|discriminate].
    injection H as <- <-. rewrite (IH t' r eq_refl). apply perm_swap.
Qed.

(** *** The stop overshoots by less than the concurrency limit *)

Lemma bounded_step : forall o s e s',
  step o s e = Some s' -> bounded o s -> bounded o s'.
Proof.
  intros o s e s' Hs (Ha & Hf & Hb).
  pose proof (step_flag _ _ _ _ Hs Hf) as Hf'.
  destruct e as [| |id r]; simpl in Hs.
  - destruct (stream s) as [|row rest]; [discriminate|]. injection Hs as <-.
    match goal with |- bounded _ (on_data ?o ?r ?x) =>
      destruct (on_data_accounting o r x) as (_ & _ & E3 & _ & E5 & E6 & _) end.
    unfold bounded. rewrite E3, E5, E6. simpl. now repeat split.
  - destruct (Nat.ltb_spec (List.length (active s)) (concurrencyLimit o)); [|discriminate].
    destruct (queue s) as [|t q]; [discriminate|]. injection Hs as <-.
    unfold checkUrl_begin. cbn [shouldStop].
    destruct (shouldStop s) eqn:Es.
    + unfold bounded. cbn [active non404ErrorCount shouldStop].
      split; [exact Ha|]. split; [|intros _; apply Hb; reflexivity].
      unfold stop_flag_ok in *. cbn [shouldStop non404ErrorCount]. now rewrite <- Hf, Es.
    + unfold bounded. cbn [active non404ErrorCount shouldStop].
      rewrite length_app. cbn [List.length].
      split; [lia|]. split; [|discriminate].
      unfold stop_flag_ok in *. cbn [shouldStop non404ErrorCount]. now rewrite <- Hf, Es.
  - destruct (take_task id (active s)) as [[t rest]|] eqn:Et; [|discriminate].
    injection Hs as <-. apply take_task_length in Et.
    match goal with |- bounded _ (checkUrl_resume ?o ?u (axios_get ?r) ?x) =>
      destruct (resume_frame o u (axios_get r) x) as (_ & Ea & _);
      destruct (resume_counters o u r x) as (_ & En);
      set (s1 := checkUrl_resume o u (axios_get r) x) in *
    end.
    simpl in Ea, En. unfold bounded. rewrite Ea, En. split; [lia|]. split; [exact Hf'|].
    intros Hstop'. destruct (shouldStop s) eqn:Es.
    + specialize (Hb eq_refl). unfold b2n. destruct (is_non404_error r); lia.
    + unfold stop_flag_ok in Hf, Hf'. rewrite Es in Hf. rewrite Hstop', En in Hf'.
      symmetry in Hf, Hf'. apply Bool.andb_true_iff in Hf'. destruct Hf' as [HT Hge].
      rewrite HT in Hf. simpl in Hf.
      apply Nat.ltb_lt in HT. apply Nat.leb_le in Hge. apply Nat.leb_gt in Hf.
      unfold b2n in *. destruct (is_non404_error r); lia.
Qed.

(** X5: in every state of a sweep at most [concurrencyLimit] requests are
    in flight, and with a threshold [T > 0] the counter of non-404 errors
    never exceeds [T + concurrencyLimit - 1]: the stop is late by less
    than the number of requests that can be in flight. *)
Theorem early_stop_overshoot_is_bounded :
  forall o rows evs s,
    exec o (init rows) evs = Some s ->
    List.length (active s) <= concurrencyLimit o
    /\ (0 < maxNon404Results o ->
        non404ErrorCount s <= maxNon404Results o + concurrencyLimit o - 1).
Proof.
  intros o rows evs s Hrun.
  assert (H : bounded o s).
  { eapply (exec_invariant (bounded o)); [apply bounded_step | exact Hrun |].
    unfold bounded, stop_flag_ok. simpl. split; [lia|]. split; [|discriminate].
    destruct (0 <? maxNon404Results o) eqn:E; [|reflexivity].
    apply Nat.ltb_lt in E. simpl.
    destruct (Nat.leb_spec (maxNon404Results o) 0); [lia | reflexivity]. }
  destruct H as (Ha & Hf & Hb). split; [exact Ha|]. intros HT.
  destruct (shouldStop s) eqn:Es.
  - specialize (Hb eq_refl). lia.
  - unfold stop_flag_ok in Hf. rewrite Es in Hf. symmetry in Hf.
    apply Bool.andb_false_iff in Hf. destruct Hf as [Hf|Hf].
    + apply Nat.ltb_ge in Hf. lia.
    + apply Nat.leb_gt in Hf. lia.
Qed.

Lemma early_stop_overshoot_is_bounded_witness :
  exec (demo_options 1) (init demo_rows) (demo_until_stop ++ demo_after_stop)
  = Some demo_drained
  /\ (List.length (active demo_drained) <= 2
      /\ (0 < 1 -> non404ErrorCount demo_drained <= 1 + 2 - 1)).
Proof.
  assert (H : exec (demo_options 1) (init demo_rows) (demo_until_stop ++ demo_after_stop)
              = Some demo_drained) by (vm_compute; reflexivity).
  split; [exact H|].
  exact (early_stop_overshoot_is_bounded (demo_options 1) demo_rows
           (demo_until_stop ++ demo_after_stop) demo_drained H).
Defined.

(** *** The counters are tallies of the recorded rows *)

Lemma outcome_rows_tally : forall u r,
  List.length (filter row_is_404 (outcome_rows u r)) = b2n (is_404 r)
  /\ List.length (filter (fun row => negb (row_is_404 row)) (outcome_rows u r))
     = b2n (is_non404_error r)
  /\ Forall one_populated (outcome_rows u r).
Proof.
  intros u r.
  assert (Hs : forall st, one_populated (mkRow u (Some st) None))
    by (intros st; left; split; [discriminate | reflexivity]).
  assert (He : forall m, one_populated (mkRow u None (Some m)))
    by (intros m; right; split; [reflexivity | discriminate]).
  destruct r as [st| |m]; cbn [outcome_rows is_404 is_non404_error].
  - destruct (Z.eqb_spec st 200) as [->|Hne].
    + repeat split. constructor.
    + cbn [filter negb andb]. unfold row_is_404. cbn [status].
      destruct (st =? 404)%Z; cbn [negb List.length b2n]; repeat split; auto.
  - cbn [filter]. unfold row_is_404. cbn [status negb List.length b2n]. repeat split; auto.
  - cbn [filter]. unfold row_is_404. cbn [status negb List.length b2n]. repeat split; auto.
Qed.

Lemma tallied_step : forall o s e s',
  step o s e = Some s' -> tallied s -> tallied s'.
Proof.
  intros o s e s' Hs (H4 & Hn & Hall). destruct e as [| |id r]; simpl in Hs.
  - destruct (stream s) as [|row rest]; [discriminate|]. injection Hs as <-.
    match goal with |- tallied (on_data ?o ?r ?x) =>
      destruct (on_data_accounting o r x) as (E1 & E2 & E3 & _) end.
    unfold tallied. rewrite E1, E2, E3. simpl. now repeat split.
  - destruct (List.length (active s) <? concurrencyLimit o); [|discriminate].
    destruct (queue s) as [|t q]; [discriminate|]. injection Hs as <-.
    match goal with |- tallied (checkUrl_begin ?t ?x) =>
      destruct (checkUrl_begin_accounting t x) as (E1 & E2 & E3 & _) end.
    unfold tallied. rewrite E1, E2, E3. simpl. now repeat split.
  - destruct (take_task id (active s)) as [[t rest]|]; [|discriminate].
    injection Hs as <-.
    match goal with |- tallied (checkUrl_resume ?o ?u (axios_get ?r) ?x) =>
      destruct (resume_counters o u r x) as (E4 & En);
      pose proof (results_resume o u r x) as Er
    end.
    destruct (outcome_rows_tally (task_url t) r) as (T4 & Tn & Tall).
    unfold tallied. rewrite E4, En, Er. simpl.
    rewrite !filter_app, !length_app, T4, Tn. repeat split; try lia.
    apply Forall_app. now split.
Qed.

(** X6: when a sweep ends, [count404] is the number of recorded rows with
    status 404 and [non404ErrorCount] the number of all other recorded
    rows, and every recorded row has exactly one of [status] and
    [error]. *)
Theorem counters_tally_the_recorded_rows :
  forall o rows evs summary written final,
    auditSitemapURLs o rows evs = Done summary written final ->
    sum_count404 summary = List.length (filter row_is_404 written)
    /\ sum_non404ErrorCount summary
       = List.length (filter (fun row => negb (row_is_404 row)) written)
    /\ Forall one_populated written.
Proof.
  intros o rows evs summary written final H.
  apply auditSitemapURLs_Done in H. destruct H as (Hrun & _ & -> & -> & _).
  apply (exec_invariant tallied o (tallied_step o) evs (init rows) final Hrun).
  repeat split. constructor.
Qed.

Lemma counters_tally_the_recorded_rows_witness :
  auditSitemapURLs (demo_options 0) demo_rows demo_schedule
  = Done (mkSummary 1 1) (results demo_final) demo_final
  /\ (1 = List.length (filter row_is_404 (results demo_final))
      /\ 1 = List.length (filter (fun row => negb (row_is_404 row)) (results demo_final))
      /\ Forall one_populated (results demo_final)).
Proof.
  assert (H : auditSitemapURLs (demo_options 0) demo_rows demo_schedule
              = Done (mkSummary 1 1) (results demo_final) demo_final)
    by (vm_compute; reflexivity).
  split; [exact H|].
  exact (counters_tally_the_recorded_rows (demo_options 0) demo_rows demo_schedule
           (mkSummary 1 1) (results demo_final) demo_final H).
Defined.

(** *** Every request is answered once *)

Lemma answered_step : forall o s e s',
  step o s e = Some s' -> answered s -> answered s'.
Proof.
  intros o s e s' Hs H. unfold answered in *. destruct e as [| |id r]; simpl in Hs.
  - destruct (stream s) as [|row rest]; [discriminate|]. injection Hs as <-.
    match goal with |- context [on_data ?o ?r ?x] =>
      destruct (on_data_accounting o r x) as (_ & _ & _ & E4 & _ & E6 & E7) end.
    rewrite E4, E6, E7. exact H.
  - destruct (List.length (active s) <? concurrencyLimit o); [|discriminate].
    destruct (queue s) as [|t q]; [discriminate|]. injection Hs as <-.
    unfold checkUrl_begin. simpl. destruct (shouldStop s); simpl; [exact H|].
    rewrite app_assoc. apply Permutation_app_tail. exact H.
  - destruct (take_task id (active s)) as [[t rest]|] eqn:Et; [|discriminate].
    injection Hs as <-. apply take_task_perm in Et.
    match goal with |- context [checkUrl_resume ?o ?u ?res ?x] =>
      destruct (resume_frame o u res x) as (_ & Ea & _ & Er & _);
      pose proof (replies_resume o u res x) as Ep
    end.
    rewrite Ea, Er, Ep. simpl. rewrite map_app. simpl.
    rewrite H, Et, <- app_assoc. simpl.
    apply Permutation_app_head. apply Permutation_refl.
Qed.

(** X7: when a sweep ends, the replies received are those to the requests
    issued, one per request. *)
Theorem every_request_is_answered_once :
  forall o rows evs summary written final,
    auditSitemapURLs o rows evs = Done summary written final ->
    Permutation (requested final) (map fst (replies final))
    /\ List.length (replies final) = List.length (requested final).
Proof.
  intros o rows evs summary written final H.
  apply auditSitemapURLs_Done in H. destruct H as (Hrun & Hset & _).
  assert (Ha : answered final).
  { apply (exec_invariant answered o (answered_step o) evs (init rows) final Hrun).
    unfold answered. simpl. constructor. }
  apply settled_inv in Hset. destruct Hset as (_ & _ & Eact).
  unfold answered in Ha. rewrite Eact, app_nil_r in Ha.
  split; [exact Ha|].
  apply Permutation_length in Ha. now rewrite length_map in Ha.
Qed.

Lemma every_request_is_answered_once_witness :
  auditSitemapURLs (demo_options 0) demo_rows demo_schedule
  = Done (mkSummary 1 1) (results demo_final) demo_final
  /\ (Permutation (requested demo_final) (map fst (replies demo_final))
      /\ List.length (replies demo_final) = List.length (requested demo_final)).
Proof.
  assert (H : auditSitemapURLs (demo_options 0) demo_rows demo_schedule
              = Done (mkSummary 1 1) (results demo_final) demo_final)
    by (vm_compute; reflexivity).
  split; [exact H|].
  exact (every_request_is_answered_once (demo_options 0) demo_rows demo_schedule
           (mkSummary 1 1) (results demo_final) demo_final H).
Defined.

(** *** Requests follow the row order *)

Lemma tasks_of_app : forall o done rest,
  exists more, tasks_of o (done ++ rest) = tasks_of o done ++ more.
Proof.
  intros o done rest. revert done. induction rest as [|row rest IH]; intros done.
  - exists []. now rewrite !app_nil_r.
  - destruct (IH (done ++ [row])) as (more & E).
    rewrite <- app_assoc in E. simpl in E. rewrite E, tasks_of_snoc, <- app_assoc.
    eauto.
Qed.

Lemma shouldStop_step_mono : forall o s e s',
  step o s e = Some s' -> shouldStop s = true -> shouldStop s' = true.
Proof.
  intros o s e s' Hs H. destruct (stopped_step _ _ _ _ H Hs) as (new & Hn).
  exact (se_stop _ _ _ _ Hn).
Qed.

Lemma in_row_order_step : forall o rows s e s',
  step o s e = Some s' -> in_row_order o rows s -> in_row_order o rows s'.
Proof.
  intros o rows s e s' Hs (done & rest & q & Hrows & Hreq & Hrun).
  destruct (shouldStop s) eqn:Es.
  - (* stopped: nothing is requested any more *)
    pose proof (shouldStop_step_mono _ _ _ _ Hs Es) as Es'.
    destruct (stopped_step _ _ _ _ Es Hs) as (new & Hn).
    exists done, rest, q. rewrite (se_requested _ _ _ _ Hn).
    split; [exact Hrows|]. split; [exact Hreq|].
    intros Hc. rewrite Es' in Hc. discriminate.
  - destruct (Hrun eq_refl) as (Hstream & Hq & Hrn).
    destruct e as [| |id r]; simpl in Hs.
    + destruct (stream s) as [|row rest'] eqn:Est; [discriminate|]. injection Hs as <-.
      match goal with |- context [on_data ?o ?r ?x] =>
        destruct (on_data_running o r x Es) as (_ & E2 & E3 & _ & E5 & E6) end.
      exists (done ++ [row]), rest', (q ++ (if picked o (rowNumber s, row)
                                            then [task_of (rowNumber s, row)] else [])).
      rewrite E5. cbn [requested]. repeat split.
      * rewrite Hrows, Hstream, <- app_assoc. reflexivity.
      * rewrite app_assoc, Hreq, tasks_of_snoc, <- Hrn. reflexivity.
      * rewrite E3. reflexivity.
      * rewrite E6, Hq. reflexivity.
      * rewrite E2, length_app. cbn [rowNumber List.length]. lia.
    + destruct (List.length (active s) <? concurrencyLimit o); [|discriminate].
      destruct (queue s) as [|t q0] eqn:Eq; [discriminate|]. injection Hs as <-.
      unfold checkUrl_begin. cbn [shouldStop]. rewrite Es.
      exists done, rest, q0. cbn [requested stream queue rowNumber shouldStop].
      repeat split; auto.
      rewrite <- app_assoc. cbn [app]. now rewrite <- Hq.
    + destruct (take_task id (active s)) as [[t rest']|]; [|discriminate].
      injection Hs as <-.
      match goal with |- context [checkUrl_resume ?o ?u ?res ?x] =>
        destruct (resume_frame o u res x) as (E1 & _ & E3 & E4 & E5) end.
      exists done, rest, q. rewrite E4. cbn [requested]. repeat split; auto.
      * now rewrite E3.
      * now rewrite E1.
      * now rewrite E5.
Qed.

(** X8: whatever the threshold and the schedule, the requests a sweep has
    issued at any moment are the first ones of the range, in row order:
    followed by some further rows of the range they make up the data
    rows [firstRow..lastRow] of the input.  An early stop leaves out a
    tail of the range, never a row in the middle. *)
Theorem requests_are_a_prefix_of_the_range :
  forall o header data evs s,
    exec o (init (header :: data)) evs = Some s ->
    exists later,
      requested s ++ later
      = map task_of (filter (in_range o) (combine (seq 1 (List.length data)) data)).
Proof.
  intros o header data evs s Hrun.
  assert (H : in_row_order o (header :: data) s).
  { apply (exec_invariant (in_row_order o (header :: data)) o
             (in_row_order_step o (header :: data)) evs _ s Hrun).
    exists [], (header :: data), []. now repeat split. }
  destruct H as (done & rest & q & Hrows & Hreq & _).
  destruct (tasks_of_app o done rest) as (more & E).
  exists (q ++ more).
  rewrite <- tasks_of_header with (header := header), Hrows, E, <- Hreq, app_assoc.
  reflexivity.
Qed.

Lemma requests_are_a_prefix_of_the_range_witness :
  exec (demo_options 1) (init (["URL"] :: tl demo_rows))
       (demo_until_stop ++ demo_after_stop) = Some demo_drained
  /\ exists later,
       requested demo_drained ++ later
       = map task_of (filter (in_range (demo_options 1))
                        (combine (seq 1 (List.length (tl demo_rows))) (tl demo_rows))).
Proof.
  assert (H : exec (demo_options 1) (init (["URL"] :: tl demo_rows))
                (demo_until_stop ++ demo_after_stop) = Some demo_drained)
    by (vm_compute; reflexivity).
  split; [exact H|].
  exact (requests_are_a_prefix_of_the_range (demo_options 1) ["URL"] (tl demo_rows)
           (demo_until_stop ++ demo_after_stop) demo_drained H).
Defined.

End AuditorMoreFacts.

(* ================================================================== *)
(** ** Further facts about the batch orchestrator                      *)
(* ================================================================== *)

Module OrchestratorMoreFacts.
Import JS Orchestrator OrchestratorSpec OrchestratorFacts.

(** X9: the test of line 44 skips a row exactly when its ['404s'] cell is
    there and holds some character that is not white space; no other
    column is looked at. *)
Theorem skip_test_reads_the_404s_cell :
  forall row,
    has_results row = true
    <-> exists v, get "404s" row = Some v
                  /\ existsb (fun c => negb (isWhiteSpace c)) (list_ascii_of_string v) = true.
Proof.
  intros row. rewrite has_results_pending. unfold pending, blank.
  destruct (get "404s" row) as [v|].
  - assert (E : negb (forallb isWhiteSpace (list_ascii_of_string v))
                = existsb (fun c => negb (isWhiteSpace c)) (list_ascii_of_string v)).
    { induction (list_ascii_of_string v) as [|c l IH]; simpl; [reflexivity|].
      rewrite Bool.negb_andb, IH. reflexivity. }
    rewrite E. split.
    + intros H. now exists v.
    + intros (v' & Hv & H). now injection Hv as <-.
  - simpl. split; [discriminate|]. intros (v & Hv & _). discriminate.
Qed.

Lemma keys_set_present : forall k v r,
  get k r <> None -> keys (set k v r) = keys r.
Proof.
  intros k v r. induction r as [|[k' v'] r IH]; intros H; simpl in *.
  - contradiction.
  - destruct (String.eqb_spec k' k) as [->|Hne]; simpl; [reflexivity|].
    unfold keys in *. now rewrite IH.
Qed.

Lemma keys_set_absent : forall k v r,
  get k r = None -> keys (set k v r) = keys r ++ [k].
Proof.
  intros k v r. induction r as [|[k' v'] r IH]; intros H; simpl in *.
  - reflexivity.
  - destruct (String.eqb_spec k' k) as [->|Hne]; [discriminate|].
    simpl. unfold keys in *. now rewrite IH.
Qed.

(** X10: writing the two counts back to a row makes them the values of
    ['404s'] and ['Non-404 Errors'], leaves every other cell as it was,
    and keeps the order of the columns when the row had both; a column
    the row did not have is added after the others. *)
Theorem counts_update_keeps_the_columns :
  forall c n row,
    get "404s" (with_counts c n row) = Some (String_of_nat c)
    /\ get "Non-404 Errors" (with_counts c n row) = Some (String_of_nat n)
    /\ (forall k, k <> "404s" -> k <> "Non-404 Errors" ->
                  get k (with_counts c n row) = get k row)
    /\ (get "404s" row <> None -> get "Non-404 Errors" row <> None ->
        keys (with_counts c n row) = keys row)
    /\ (get "404s" row = None -> get "Non-404 Errors" row = None ->
        keys (with_counts c n row) = keys row ++ ["404s"; "Non-404 Errors"]).
Proof.
  intros c n row. unfold with_counts. repeat split.
  - rewrite get_set_other by discriminate. apply get_set_same.
  - apply get_set_same.
  - intros k H1 H2. now rewrite !get_set_other by congruence.
  - intros H1 H2. rewrite keys_set_present.
    + now apply keys_set_present.
    + now rewrite get_set_other by discriminate.
  - intros H1 H2. rewrite keys_set_absent.
    + rewrite keys_set_absent by assumption. now rewrite <- app_assoc.
    + now rewrite get_set_other by discriminate.
Qed.

Lemma counts_update_keeps_the_columns_witness :
  (get "404s" (demo_row "1" "ak" "" "") <> None
   /\ get "Non-404 Errors" (demo_row "1" "ak" "" "") <> None)
  /\ keys (with_counts 3 1 (demo_row "1" "ak" "" "")) = keys (demo_row "1" "ak" "" "").
Proof.
  assert (H1 : get "404s" (demo_row "1" "ak" "" "") <> None) by discriminate.
  assert (H2 : get "Non-404 Errors" (demo_row "1" "ak" "" "") <> None) by discriminate.
  split; [split; assumption|].
  destruct (counts_update_keeps_the_columns 3 1 (demo_row "1" "ak" "" ""))
    as (_ & _ & _ & H & _).
  exact (H H1 H2).
Defined.

Section More.

Variable Num : Type.
Variable Number : option string -> Num.
Variable World : Type.
Variable auditSitemapURLs : AuditArgs Num -> World -> AuditResult * World.

Local Abbreviation args_of := (args_of Num Number).
Local Abbreviation loop := (loop Num Number World auditSitemapURLs).
Local Abbreviation run := (run Num Number World auditSitemapURLs).

Lemma loop_app : forall pre rest w pre' w1 log1,
  loop pre w = (Some pre', w1, log1) ->
  loop (pre ++ rest) w
  = (option_map (app pre') (fst (fst (loop rest w1))),
     snd (fst (loop rest w1)), log1 ++ snd (loop rest w1)).
Proof.
  induction pre as [|row pre IH]; intros rest w pre' w1 log1 H.
  - simpl in H. injection H as <- <- <-. simpl.
    destruct (Orchestrator.loop _ _ _ _ rest w) as [[[x|] w2] log2]; reflexivity.
  - cbn [app Orchestrator.loop] in *. destruct (has_results row).
    + destruct (Orchestrator.loop _ _ _ _ pre w) as [[[p|] w2] log2] eqn:E; [|discriminate].
      injection H as <- <- <-. rewrite (IH rest w p w2 log2 E).
      destruct (Orchestrator.loop _ _ _ _ rest w2) as [[[x|] w3] log3]; reflexivity.
    + destruct (Orchestrator.args_of Num Number row) as [a|]; [|discriminate].
      destruct (auditSitemapURLs a w) as [res w0].
      destruct (Orchestrator.loop _ _ _ _ pre w0) as [[[p|] w2] log2] eqn:E; [|discriminate].
      injection H as <- <- <-. rewrite (IH rest w0 p w2 log2 E).
      destruct (Orchestrator.loop _ _ _ _ rest w2) as [[[x|] w3] log3]; reflexivity.
Qed.

Lemma run_fatal : forall rows w w' log,
  loop rows w = (None, w', log) -> run rows w = (Fatal, w', log).
Proof.
  intros rows w w' log H. unfold Orchestrator.run. destruct rows as [|first rest].
  - simpl in H. discriminate.
  - fold (loop (first :: rest) w). now rewrite H.
Qed.

(** X11: a pending row without ['Number'] ends the run with the fatal
    exit: nothing is written, although the pending rows before it have
    been audited; the rows after it are not reached. *)
Theorem missing_number_aborts_without_writing :
  forall pre r post w,
    numbered pre -> pending r = true -> get "Number" r = None ->
    exists w' log,
      run (pre ++ r :: post) w = (Fatal, w', log)
      /\ map Some (map fst log) = map args_of (filter pending pre).
Proof.
  intros pre r post w Hn Hp Hr.
  destruct (loop_processed Num Number World auditSitemapURLs pre w Hn)
    as (pre' & w1 & log1 & E & P).
  assert (Er : loop (r :: post) w1 = (None, w1, [])).
  { cbn [Orchestrator.loop]. rewrite has_results_pending, Hp. cbn [negb].
    unfold Orchestrator.args_of, buildOutputFilename. now rewrite Hr. }
  pose proof (loop_app pre (r :: post) w pre' w1 log1 E) as Ea.
  rewrite Er in Ea. cbn [fst snd option_map] in Ea. rewrite app_nil_r in Ea.
  exists w1, log1. split.
  - apply run_fatal. exact Ea.
  - eapply processed_calls; eassumption.
Qed.

End More.

Lemma missing_number_aborts_without_writing_witness :
  (numbered [demo_row "1" "ak" "" ""]
   /\ pending [("State", "al"); ("404s", "")] = true
   /\ get "Number" [("State", "al"); ("404s", "")] = None)
  /\ exists w' log,
       demo_run ([demo_row "1" "ak" "" ""] ++ [("State", "al"); ("404s", "")]
                 :: [demo_row "3" "ar" "" ""]) 0
       = (Fatal, w', log)
       /\ map Some (map fst log)
          = map demo_args_of (filter pending [demo_row "1" "ak" "" ""]).
Proof.
  assert (H1 : numbered [demo_row "1" "ak" "" ""]).
  { intros r Hin _. destruct Hin as [<-|[]]. discriminate. }
  split; [split; [exact H1 | split; reflexivity]|].
  exact (missing_number_aborts_without_writing (option string) (fun v => v) nat demo_audit
           [demo_row "1" "ak" "" ""] [("State", "al"); ("404s", "")]
           [demo_row "3" "ar" "" ""] 0 H1 eq_refl eq_refl).
Defined.

End OrchestratorMoreFacts.

(* ================================================================== *)
(** ** Further facts about the validator                               *)
(* ================================================================== *)

Module ValidatorMoreFacts.
Import JS Validator ValidatorSpec ValidatorFacts ValidatorMoreSpec.

Lemma ext_errors_nil : forall v es ws,
  errors (ext v es ws) = errors v -> es = [].
Proof.
  intros v es ws H. unfold ext in H. simpl in H.
  rewrite <- (app_nil_r (errors v)) in H at 2. now apply app_inv_head in H.
Qed.

Lemma valid_getResults_ext : forall es ws,
  valid (getResults (ext fresh es ws)) = true <-> es = [].
Proof.
  intros es ws. rewrite getResults_valid. unfold ext. simpl. tauto.
Qed.

Section More.

Variable URL_protocol : string -> option string.
Variable Date_isValid : xval -> bool.
Variable parseFloat : string -> option Q.
Variable Number_toString : Q -> string.
Variable World : Type.
Variable fetch : string -> World -> FetchResult * World.
Variable readFile : string -> World -> ReadResult * World.

Local Abbreviation isValidUrl := (isValidUrl URL_protocol Number_toString).
Local Abbreviation isValidDate := (isValidDate Date_isValid Number_toString).
Local Abbreviation toString := (toString Number_toString).
Local Abbreviation check_url := (check_url URL_protocol Date_isValid parseFloat Number_toString).
Local Abbreviation forEach_urls := (forEach_urls URL_protocol Date_isValid parseFloat Number_toString).
Local Abbreviation check_sitemap := (check_sitemap URL_protocol Date_isValid Number_toString).
Local Abbreviation forEach_sitemaps := (forEach_sitemaps URL_protocol Date_isValid Number_toString).
Local Abbreviation validateUrlset := (validateUrlset URL_protocol Date_isValid parseFloat Number_toString).
Local Abbreviation validateSitemapIndex := (validateSitemapIndex URL_protocol Date_isValid Number_toString).
Local Abbreviation validateContent := (validateContent URL_protocol Date_isValid parseFloat Number_toString).
Local Abbreviation validateFile := (validateFile URL_protocol Date_isValid parseFloat Number_toString World readFile).
Local Abbreviation validateUrl := (validateUrl URL_protocol Date_isValid parseFloat Number_toString World fetch).
Local Abbreviation accepted := (accepted URL_protocol Number_toString).
Local Abbreviation listed := (listed URL_protocol Number_toString).

(** *** What one entry of a URL set does *)

(** The optional fields push warnings only. *)
Lemma optional_checks_errors : forall i u v,
  errors (check_priority parseFloat Number_toString i u
            (check_changefreq Number_toString i u
               (check_lastmod Date_isValid Number_toString i u v)))
  = errors v.
Proof.
  intros i u v.
  assert (H1 : forall x, errors (check_lastmod Date_isValid Number_toString i u x) = errors x).
  { intros x. unfold check_lastmod. destruct (truthy (lastmod u)); [|reflexivity].
    now destruct (negb _). }
  assert (H2 : forall x, errors (check_changefreq Number_toString i u x) = errors x).
  { intros x. unfold check_changefreq. destruct (truthy (changefreq u)); [|reflexivity].
    now destruct (negb _). }
  assert (H3 : forall x, errors (check_priority parseFloat Number_toString i u x) = errors x).
  { intros x. unfold check_priority. destruct (truthy (priority u)); [|reflexivity].
    destruct (parseFloat _); [now destruct (_ || _) | reflexivity]. }
  now rewrite H3, H2, H1.
Qed.

Lemma app_eq_self : forall (A : Type) (l es : list A), l ++ es = l -> es = [].
Proof.
  intros A l es H. rewrite <- (app_nil_r l) in H at 2. now apply app_inv_head in H.
Qed.

(** The closing checks on a text: no throw, and no new error exactly
    when the text has no space and passes the ampersand test. *)
Lemma check_common_text : forall i s v,
  exists es,
    check_common i (VPrim (PStr s)) v = (Normal tt, ext v es [])
    /\ (es = [] <-> includes " " s = false
                   /\ includes "&" s && negb (includes "&amp;" s) = false).
Proof.
  intros i s v. unfold check_common.
  destruct (includes " " s); destruct (includes "&" s && negb (includes "&amp;" s)).
  - eexists [_; _]. split.
    + f_equal. destruct v. unfold ext, push_error. cbn. now rewrite <- app_assoc, app_nil_r.
    + split; [discriminate | intros [H _]; discriminate].
  - eexists [_]. split.
    + f_equal. destruct v. unfold ext, push_error. cbn. now rewrite app_nil_r.
    + split; [discriminate | intros [H _]; discriminate].
  - eexists [_]. split.
    + f_equal. destruct v. unfold ext, push_error. cbn. now rewrite app_nil_r.
    + split; [discriminate | intros [_ H]; discriminate].
  - exists []. split; [now rewrite ext_nil | now split].
Qed.

(** The checks before the closing ones: an error exactly when the
    location is no http or https URL. *)
Lemma check_url_head_errors : forall i u l S v,
  errors
    (check_priority parseFloat Number_toString i u
       (check_changefreq Number_toString i u
          (check_lastmod Date_isValid Number_toString i u
             (if set_has l S
              then push_warning (label "URL" i ++ "Duplicate URL: " ++ toString l)
                     (if negb (isValidUrl l)
                      then push_error (label "URL" i ++ "Invalid URL format: " ++ toString l) v
                      else v)
              else if negb (isValidUrl l)
                   then push_error (label "URL" i ++ "Invalid URL format: " ++ toString l) v
                   else v))))
  = errors v ++ (if isValidUrl l then []
                 else [(label "URL" i ++ "Invalid URL format: " ++ toString l)%string]).
Proof.
  intros i u l S v. rewrite optional_checks_errors.
  destruct (set_has l S); destruct (isValidUrl l); cbn; now rewrite ?app_nil_r.
Qed.

(** The outcome of one entry: it throws exactly when it [breaks], and it
    returns without a new error exactly when it is [accepted]. *)
Lemma check_url_outcome : forall i u v S,
  exists c v' S',
    check_url i u (v, S) = (c, (v', S'))
    /\ (breaks u = true -> c = Throw "loc.includes is not a function")
    /\ (breaks u = false -> c = Normal tt)
    /\ (exists es, errors v' = errors v ++ es
                   /\ (breaks u = false -> (es = [] <-> accepted u = true))).
Proof.
  intros i u v S. unfold Validator.check_url, breaks, ValidatorMoreSpec.accepted.
  destruct (truthy (loc u)) eqn:Et; cbn [negb andb].
  - pose proof (check_url_head_errors i u (text_or_self (loc u)) S v) as Hh.
    set (v3 := check_priority _ _ _ _ _) in *.
    destruct (text_or_self (loc u)) as [|[s|q]|t] eqn:El.
    + cbn [check_common]. eexists _, _, _. split; [reflexivity|].
      split; [reflexivity|]. split; [discriminate|].
      eexists. split; [exact Hh | discriminate].
    + destruct (check_common_text i s v3) as (es & Hc & Hes). rewrite Hc.
      eexists _, _, _. split; [reflexivity|].
      split; [discriminate|]. split; [reflexivity|].
      eexists. split.
      * unfold ext. cbn [errors]. rewrite Hh, <- app_assoc. reflexivity.
      * intros _. cbn [Validator.toString].
        destruct (isValidUrl (VPrim (PStr s))); cbn [app andb].
        -- rewrite Hes. destruct (includes " " s);
             destruct (includes "&" s && negb (includes "&amp;" s)); cbn;
             split; try tauto; try discriminate; intros [? ?]; discriminate.
        -- split; discriminate.
    + cbn [check_common]. eexists _, _, _. split; [reflexivity|].
      split; [reflexivity|]. split; [discriminate|].
      eexists. split; [exact Hh | discriminate].
    + cbn [check_common]. eexists _, _, _. split; [reflexivity|].
      split; [reflexivity|]. split; [discriminate|].
      eexists. split; [exact Hh | discriminate].
  - eexists _, _, _. split; [reflexivity|].
    split; [discriminate|]. split; [reflexivity|].
    eexists. split; [reflexivity|]. intros _. split; discriminate.
Qed.

Lemma accepted_not_breaks : forall u, accepted u = true -> breaks u = false.
Proof.
  intros u H. unfold ValidatorMoreSpec.accepted in H. unfold breaks.
  destruct (truthy (loc u)); [|discriminate]. cbn [andb] in *.
  destruct (text_or_self (loc u)) as [|[s|q]|t]; try discriminate. reflexivity.
Qed.

(** The outcome of the loop over the entries. *)
Lemma forEach_urls_outcome : forall l i v S,
  exists c v' S',
    forEach_urls i l (v, S) = (c, (v', S'))
    /\ (existsb breaks l = true -> c = Throw "loc.includes is not a function")
    /\ (existsb breaks l = false -> c = Normal tt)
    /\ (exists es, errors v' = errors v ++ es
                   /\ (existsb breaks l = false ->
                       (es = [] <-> forallb accepted l = true))).
Proof.
  induction l as [|u l IH]; intros i v S.
  - exists (Normal tt), v, S. split; [reflexivity|]. split; [discriminate|].
    split; [reflexivity|]. exists []. split; [now rewrite app_nil_r|]. intros _. now split.
  - destruct (check_url_outcome i u v S) as (c1 & v1 & S1 & E1 & Ht1 & Hn1 & es1 & He1 & Ha1).
    cbn [Validator.forEach_urls existsb forallb]. rewrite E1.
    destruct (breaks u) eqn:Eb.
    + rewrite (Ht1 eq_refl). exists (Throw "loc.includes is not a function"), v1, S1.
      split; [reflexivity|]. split; [reflexivity|]. split; [discriminate|].
      exists es1. split; [exact He1 | discriminate].
    + rewrite (Hn1 eq_refl).
      destruct (IH (Datatypes.S i) v1 S1) as (c & v' & S' & E & Ht & Hn & es & He & Ha).
      exists c, v', S'. split; [exact E|]. cbn [orb]. split; [exact Ht|]. split; [exact Hn|].
      exists (es1 ++ es). split; [now rewrite He, He1, app_assoc|].
      intros Hb. specialize (Ha Hb). specialize (Ha1 eq_refl).
      rewrite Bool.andb_true_iff, <- Ha1, <- Ha. split.
      * intros H. now apply app_eq_nil in H.
      * intros [-> ->]. reflexivity.
Qed.

Lemma check_xmlns_errors : forall x v,
  exists es, errors (check_xmlns x v) = errors v ++ es
             /\ warnings (check_xmlns x v) = warnings v
             /\ (es = [] <-> xmlns_ok x = true).
Proof.
  intros x v. unfold check_xmlns, xmlns_ok. destruct x as [s|].
  - destruct ((s =? "")%string || negb (includes "sitemaps.org" s)) eqn:E.
    + eexists [_]. split; [reflexivity|]. split; [reflexivity|].
      split; [discriminate|]. intros H. apply Bool.andb_true_iff in H. destruct H as [H1 H2].
      rewrite H2 in E. apply Bool.negb_true_iff in H1. rewrite H1 in E. discriminate.
    + exists []. split; [now rewrite app_nil_r|]. split; [reflexivity|].
      split; [|reflexivity]. intros _. apply Bool.orb_false_iff in E. destruct E as [E1 E2].
      rewrite E1. apply Bool.negb_false_iff in E2. now rewrite E2.
  - eexists [_]. split; [reflexivity|]. split; [reflexivity|]. split; discriminate.
Qed.


(** *** A location that is no text *)


(** *** Sitemap indexes *)

Lemma check_sitemap_errors : forall i e v,
  exists es, errors (check_sitemap i e v) = errors v ++ es
             /\ (es = [] <-> listed e = true).
Proof.
  intros i e v. unfold Validator.check_sitemap, ValidatorMoreSpec.listed.
  set (v1 := if negb (truthy (sm_loc e)) then _ else _).
  assert (H : exists es, errors v1 = errors v ++ es
                         /\ (es = [] <-> truthy (sm_loc e) && isValidUrl (sm_loc e) = true)).
  { subst v1. destruct (truthy (sm_loc e)); cbn [negb andb].
    - destruct (isValidUrl (sm_loc e)); cbn [negb].
      + exists []. split; [now rewrite app_nil_r | now split].
      + eexists [_]. split; [reflexivity | split; discriminate].
    - eexists [_]. split; [reflexivity | split; discriminate]. }
  destruct H as (es & He & Hes). exists es. split; [|exact Hes].
  now destruct (truthy (sm_lastmod e) && negb (isValidDate (sm_lastmod e))).
Qed.

Lemma forEach_sitemaps_errors : forall l i v,
  exists es, errors (forEach_sitemaps i l v) = errors v ++ es
             /\ (es = [] <-> forallb listed l = true).
Proof.
  induction l as [|e l IH]; intros i v.
  - exists []. split; [cbn; now rewrite app_nil_r | now split].
  - destruct (check_sitemap_errors i e v) as (es1 & H1 & Hl1).
    destruct (IH (Datatypes.S i) (check_sitemap i e v)) as (es & H & Hl).
    exists (es1 ++ es). split; [cbn [Validator.forEach_sitemaps]; now rewrite H, H1, app_assoc|].
    cbn [forallb]. rewrite Bool.andb_true_iff, <- Hl1, <- Hl. split.
    + intros E. now apply app_eq_nil in E.
    + intros [-> ->]. reflexivity.
Qed.

(** X14: validating a sitemap index never throws, and the index is
    reported valid exactly when it is at most 50 MB, its namespace
    attribute contains [sitemaps.org], and every entry has a location
    that is an http or https URL; an index without entries is valid. *)
Theorem index_is_valid_iff :
  forall size node,
    exists r v',
      validateContent (index_document size node) fresh = (Normal r, v')
      /\ (valid r = true
          <-> ((size <=? MAX_SITEMAP_SIZE)%N = true
               /\ xmlns_ok (index_xmlns node) = true
               /\ forallb listed (as_array (sitemap node)) = true)).
Proof.
  intros size node. unfold index_document, Validator.validateContent.
  cbn [xml byteLength sitemapindex]. unfold Validator.validateSitemapIndex.
  eexists _, _. split; [reflexivity|].
  set (v1 := if (MAX_SITEMAP_SIZE <? size)%N then _ else fresh).
  destruct (check_xmlns_errors (index_xmlns node) v1) as (ex & Hx & _ & Hxok).
  set (vx := check_xmlns (index_xmlns node) v1) in *.
  set (v2 := if List.length (as_array (sitemap node)) =? 0 then _ else vx).
  destruct (forEach_sitemaps_errors (as_array (sitemap node)) 0 v2) as (es & He & Hes).
  rewrite getResults_valid, He.
  assert (H1 : errors v1 = [] <-> (size <=? MAX_SITEMAP_SIZE)%N = true).
  { subst v1. rewrite N.leb_antisym. destruct (MAX_SITEMAP_SIZE <? size)%N; cbn; split;
      try discriminate; reflexivity. }
  assert (H2 : errors v2 = errors vx).
  { subst v2. now destruct (List.length (as_array (sitemap node)) =? 0). }
  rewrite H2, Hx, <- H1, <- Hxok, <- Hes. split.
  - intros E. apply app_eq_nil in E. destruct E as [E ->].
    apply app_eq_nil in E. destruct E as [-> ->]. now repeat split.
  - intros (-> & -> & ->). reflexivity.
Qed.

(** *** Duplicates *)

Lemma same_value_trans : forall x l y,
  same_value x l = true -> same_value l y = true -> same_value x y = true.
Proof.
  intros x l y H1 H2.
  destruct x as [|[a|a]|a], l as [|[b|b]|b]; try discriminate;
    destruct y as [|[c|c]|c]; try discriminate; cbn in *.
  - reflexivity.
  - apply String.eqb_eq in H1, H2. subst. apply String.eqb_refl.
  - apply Qeq_bool_iff in H1, H2. apply Qeq_bool_iff. now rewrite H1.
Qed.

Lemma same_value_sym : forall x y, same_value x y = same_value y x.
Proof.
  intros x y. destruct x as [|[a|a]|a], y as [|[b|b]|b]; try reflexivity; cbn.
  - apply String.eqb_sym.
  - destruct (Qeq_bool a b) eqn:E1, (Qeq_bool b a) eqn:E2; try reflexivity.
    + apply Qeq_bool_iff in E1. symmetry in E1. apply Qeq_bool_iff in E1. congruence.
    + apply Qeq_bool_iff in E2. symmetry in E2. apply Qeq_bool_iff in E2. congruence.
Qed.

Lemma set_has_add : forall x l S,
  set_has x (set_add l S) = set_has x S || same_value x l.
Proof.
  intros x l S. unfold set_add. destruct (set_has l S) eqn:E.
  - destruct (same_value x l) eqn:Ex; [|now rewrite Bool.orb_false_r].
    rewrite Bool.orb_true_r. unfold set_has in *.
    apply existsb_exists in E. destruct E as (y & Hin & Hy).
    apply existsb_exists. exists y. split; [exact Hin|].
    eapply same_value_trans; eassumption.
  - unfold set_has. rewrite existsb_app. cbn. now rewrite Bool.orb_false_r.
Qed.

Lemma check_url_set : forall i u v S c v' S',
  check_url i u (v, S) = (c, (v', S')) ->
  forall x, set_has x S' = set_has x S || seen_as x u.
Proof.
  intros i u v S c v' S' H x. unfold Validator.check_url in H. unfold seen_as.
  destruct (truthy (loc u)); cbn [negb andb] in *.
  - destruct (check_common _ _ _) as [c0 v4]. injection H as _ _ <-. apply set_has_add.
  - injection H as _ _ <-. now rewrite Bool.orb_false_r.
Qed.

Lemma forEach_urls_set : forall l i v S c v' S',
  forEach_urls i l (v, S) = (c, (v', S')) -> c = Normal tt ->
  forall x, set_has x S' = set_has x S || existsb (seen_as x) l.
Proof.
  induction l as [|u l IH]; intros i v S c v' S' H Hc x.
  - cbn in H. injection H as _ _ <-. cbn. now rewrite Bool.orb_false_r.
  - cbn [Validator.forEach_urls] in H.
    destruct (check_url i u (v, S)) as [[[]|m] [v1 S1]] eqn:E1.
    + rewrite (IH _ _ _ _ _ _ H Hc x), (check_url_set _ _ _ _ _ _ _ E1 x).
      cbn [existsb]. now rewrite Bool.orb_assoc.
    + injection H as <- _ _. discriminate.
Qed.

(** The warnings of one entry whose location is there: the duplicate
    notice when the set has the location, then the warnings of the
    optional fields. *)
Lemma check_url_warnings : forall i u,
  truthy (loc u) = true ->
  exists ws, forall v S,
    warnings (fst (snd (check_url i u (v, S))))
    = warnings v
      ++ (if set_has (text_or_self (loc u)) S
          then [(label "URL" i ++ "Duplicate URL: " ++ toString (text_or_self (loc u)))%string]
          else [])
      ++ ws.
Proof.
  intros i u Ht.
  destruct (check_lastmod_framed Date_isValid Number_toString i u) as (e1 & w1 & F1).
  destruct (check_changefreq_framed Number_toString i u) as (e2 & w2 & F2).
  destruct (check_priority_framed parseFloat Number_toString i u) as (e3 & w3 & F3).
  exists (w1 ++ w2 ++ w3). intros v S. unfold Validator.check_url. rewrite Ht. cbn [negb].
  set (l := text_or_self (loc u)).
  set (v2 := if set_has l S then _ else _).
  assert (H2 : warnings v2
               = warnings v ++ (if set_has l S
                                then [(label "URL" i ++ "Duplicate URL: " ++ toString l)%string]
                                else [])).
  { subst v2. destruct (set_has l S); destruct (negb (isValidUrl l)); cbn;
      now rewrite ?app_nil_r. }
  rewrite F1, F2, F3.
  assert (Hc : forall x, warnings (snd (check_common i l x)) = warnings x
                         /\ fst (snd (let (c, v4) := check_common i l x
                                      in (c, (v4, set_add l S)))) = snd (check_common i l x)).
  { intros x. unfold check_common. destruct l as [|[s|q]|t]; try (now split).
    split; [|reflexivity]. cbn [snd].
    destruct (includes "&" s && negb (includes "&amp;" s)); destruct (includes " " s);
      reflexivity. }
  match goal with |- context [check_common i l ?x] => destruct (Hc x) as [Hw Hf] end.
  rewrite Hf, Hw. unfold ext. cbn [warnings]. rewrite H2, <- !app_assoc. reflexivity.
Qed.

(** X15: an entry of a URL set gets the duplicate notice exactly when an
    earlier entry has the same location; the notice comes first among
    the warnings of the entry, whose other warnings are those it would
    get as the first entry. *)
Theorem duplicate_notice_iff_seen_before :
  forall pre u v v1 S1,
    forEach_urls 0 pre (v, []) = (Normal tt, (v1, S1)) ->
    truthy (loc u) = true ->
    exists ws,
      warnings (fst (snd (check_url (List.length pre) u (v1, S1))))
      = warnings v1
        ++ (if existsb (seen_as (text_or_self (loc u))) pre
            then [(label "URL" (List.length pre) ++ "Duplicate URL: "
                   ++ toString (text_or_self (loc u)))%string]
            else [])
        ++ ws
      /\ warnings (fst (snd (check_url (List.length pre) u (v1, []))))
         = warnings v1 ++ ws.
Proof.
  intros pre u v v1 S1 H Ht.
  destruct (check_url_warnings (List.length pre) u Ht) as (ws & Hw).
  exists ws. split.
  - rewrite Hw, (forEach_urls_set _ _ _ _ _ _ _ H eq_refl). reflexivity.
  - rewrite Hw. reflexivity.
Qed.

(** *** The size check *)

Lemma check_xmlns_framed : forall x, framed (check_xmlns x).
Proof.
  intros x. unfold check_xmlns.
  destruct (match x with None => true | Some s => _ end);
    [apply framed_push_error | apply framed_id].
Qed.

Lemma check_sitemap_framed : forall i e, framed (check_sitemap i e).
Proof.
  intros i e. unfold Validator.check_sitemap.
  destruct (truthy (sm_loc e)), (isValidUrl (sm_loc e)),
           (truthy (sm_lastmod e) && negb (isValidDate (sm_lastmod e)));
    cbn [negb];
    first [ apply framed_id | apply framed_push_error | apply framed_push_warning
          | apply (framed_comp (push_error _) (push_warning _));
            [apply framed_push_error | apply framed_push_warning] ].
Qed.

Lemma forEach_sitemaps_framed : forall l i, framed (forEach_sitemaps i l).
Proof.
  induction l as [|e l IH]; intros i.
  - cbn. apply framed_id.
  - cbn [Validator.forEach_sitemaps].
    apply (framed_comp (check_sitemap i e) (forEach_sitemaps (Datatypes.S i) l)).
    + apply check_sitemap_framed.
    + apply IH.
Qed.

(** What [validateContent] does after the size check depends on the
    document only; [None] is a normal return. *)
Lemma structure_frame : forall x,
  exists (thr : option string) es ws, forall size v,
    let v1 := if (MAX_SITEMAP_SIZE <? size)%N then push_error (size_message size) v else v in
    validateContent (mkContent size x) v
    = (match thr with
       | Some m => Throw m
       | None => Normal (getResults (ext v1 es ws))
       end, ext v1 es ws).
Proof.
  intros x. destruct x as [report|m|p].
  - exists None, [("Invalid XML: " ++ report)%string], []. intros size v v1.
    unfold Validator.validateContent. cbn [xml byteLength].
    fold (size_message size). fold v1. now rewrite push_error_ext.
  - exists None, [("XML parsing error: " ++ m)%string], []. intros size v v1.
    unfold Validator.validateContent. cbn [xml byteLength].
    fold (size_message size). fold v1. now rewrite push_error_ext.
  - destruct (sitemapindex p) as [node|] eqn:Ei; [|destruct (urlset p) as [node|] eqn:Eu].
    + set (f1 := check_xmlns (index_xmlns node)).
      set (f2 := fun v : Instance =>
                   if List.length (as_array (sitemap node)) =? 0
                   then push_warning "Sitemap index contains no sitemaps" v else v).
      assert (F : framed (fun v => forEach_sitemaps 0 (as_array (sitemap node)) (f2 (f1 v)))).
      { apply (framed_comp (fun v => f2 (f1 v)) (forEach_sitemaps 0 (as_array (sitemap node)))).
        - apply (framed_comp f1 f2); [apply check_xmlns_framed | apply framed_cond_warning].
        - apply forEach_sitemaps_framed. }
      destruct F as (es & ws & F). exists None, es, ws. intros size v v1.
      unfold Validator.validateContent. cbn [xml byteLength]. rewrite Ei.
      fold (size_message size). fold v1. unfold Validator.validateSitemapIndex.
      specialize (F v1). subst f1 f2. cbn beta in F. now rewrite F.
    + set (f1 := check_xmlns (urlset_xmlns node)).
      set (f2 := fun v : Instance =>
                   if List.length (as_array (url node)) =? 0
                   then push_warning "Sitemap contains no URLs" v else v).
      set (f3 := fun v : Instance =>
                   if (MAX_URLS_PER_SITEMAP <? N.of_nat (List.length (as_array (url node))))%N
                   then push_error ("Too many URLs ("
                                    ++ String_of_nat (List.length (as_array (url node)))
                                    ++ "). Maximum is " ++ String_of_N MAX_URLS_PER_SITEMAP) v
                   else v).
      assert (F : framed (fun v => f3 (f2 (f1 v)))).
      { apply (framed_comp (fun v => f2 (f1 v)) f3).
        - apply (framed_comp f1 f2); [apply check_xmlns_framed | apply framed_cond_warning].
        - apply framed_cond_error. }
      destruct F as (es & ws & F).
      destruct (forEach_urls_frame URL_protocol Date_isValid parseFloat Number_toString
                  (as_array (url node)) 0 []) as (c & es2 & ws2 & S' & G).
      exists (match c with Throw m => Some m | Normal _ => None end), (es ++ es2), (ws ++ ws2).
      intros size v v1.
      unfold Validator.validateContent. cbn [xml byteLength]. rewrite Ei, Eu.
      fold (size_message size). fold v1. unfold Validator.validateUrlset.
      specialize (F v1). subst f1 f2 f3. cbn beta in F. rewrite F, G, ext_ext.
      now destruct c.
    + exists None, ["Root element must be either <urlset> or <sitemapindex>"], [].
      intros size v v1.
      unfold Validator.validateContent. cbn [xml byteLength]. rewrite Ei, Eu.
      fold (size_message size). fold v1. now rewrite push_error_ext.
Qed.

(** X16: a document over 50 MB is not turned away: it is validated like
    the same document within the limit, with the same outcome (a return
    or a throw), the same warnings and the same errors after the size
    error, which comes first. *)
Theorem oversize_document_is_still_validated :
  forall size small x c v,
    (MAX_SITEMAP_SIZE < size)%N ->
    (small <= MAX_SITEMAP_SIZE)%N ->
    validateContent (mkContent small x) fresh = (c, v) ->
    let v' := mkInstance (size_message size :: errors v) (warnings v) in
    validateContent (mkContent size x) fresh
    = (match c with
       | Normal _ => Normal (mkResults false (errors v') (warnings v') None None)
       | Throw m => Throw m
       end, v').
Proof.
  intros size small x c v Hbig Hsmall H v'.
  destruct (structure_frame x) as (thr & es & ws & F).
  rewrite F in H. rewrite F.
  apply N.ltb_lt in Hbig. apply N.ltb_ge in Hsmall. rewrite Hsmall in H. rewrite Hbig.
  injection H as Hc Hv. subst v'. rewrite <- Hv. unfold ext, push_error, fresh.
  cbn [errors warnings app]. f_equal.
  destruct thr as [m|]; subst c; reflexivity.
Qed.

(** *** Dates *)

Lemma test_length : forall p s, test p s = true -> String.length s = List.length p.
Proof.
  induction p as [|x p IH]; intros [|c s] H; try discriminate; [reflexivity|].
  cbn in H. apply Bool.andb_true_iff in H. cbn. f_equal. now apply IH.
Qed.

Lemma test_prefix : forall p q s,
  test (p ++ q) s = true -> test p (substring 0 (List.length p) s) = true.
Proof.
  induction p as [|x p IH]; intros q s H.
  - cbn. now destruct s.
  - destruct s as [|c s]; [discriminate|]. cbn in H. apply Bool.andb_true_iff in H.
    destruct H as [H1 H2]. cbn. rewrite H1. cbn. now apply (IH q).
Qed.

(** X17: a date the validator accepts has one of four lengths (10, 20,
    24 or 25 characters), starts with four digits, a dash, two digits,
    a dash and two digits, and is a date to [new Date]. *)
Theorem accepted_dates_have_four_shapes :
  forall v,
    isValidDate v = true ->
    Date_isValid v = true
    /\ In (String.length (toString v)) [10; 20; 24; 25]
    /\ test pat_date (substring 0 10 (toString v)) = true.
Proof.
  intros v H. unfold Validator.isValidDate in H.
  destruct (existsb (fun p => test p (toString v)) patterns) eqn:E; [|discriminate].
  cbn [negb] in H. split; [exact H|]. clear H.
  unfold patterns in E. cbn [existsb] in E.
  repeat (apply Bool.orb_true_iff in E; destruct E as [E|E]); try discriminate.
  - split; [rewrite (test_length _ _ E); cbn; auto|].
    rewrite <- (app_nil_r pat_date) in E. exact (test_prefix pat_date [] _ E).
  - split; [rewrite (test_length _ _ E); cbn; auto 6|]. exact (test_prefix pat_date _ _ E).
  - split; [rewrite (test_length _ _ E); cbn; auto 6|]. exact (test_prefix pat_date _ _ E).
  - split; [rewrite (test_length _ _ E); cbn; auto 6|]. exact (test_prefix pat_date _ _ E).
Qed.

End More.

(** *** The theorems at work *)


Lemma duplicate_notice_iff_seen_before_witness :
  exists ws,
    warnings (fst (snd (check_url demo_protocol (fun _ => true) (fun _ => None) (fun _ => "0")
                          1 (nth 1 demo_duplicates (mkUrl VUndefined VUndefined VUndefined VUndefined))
                          (fresh, [VPrim (PStr "https://example.com/a")]))))
    = [] ++ ["URL 2: Duplicate URL: https://example.com/a"] ++ ws
    /\ warnings (fst (snd (check_url demo_protocol (fun _ => true) (fun _ => None) (fun _ => "0")
                             1 (nth 1 demo_duplicates (mkUrl VUndefined VUndefined VUndefined VUndefined))
                             (fresh, []))))
       = [] ++ ws.
Proof.
  exact (duplicate_notice_iff_seen_before
           demo_protocol (fun _ => true) (fun _ => None) (fun _ => "0")
           (firstn 1 demo_duplicates)
           (nth 1 demo_duplicates (mkUrl VUndefined VUndefined VUndefined VUndefined))
           fresh fresh [VPrim (PStr "https://example.com/a")] eq_refl eq_refl).
Defined.

Lemma oversize_document_is_still_validated_witness :
  (MAX_SITEMAP_SIZE < 62914560)%N
  /\ (400 <= MAX_SITEMAP_SIZE)%N
  /\ demo_validateContent (mkContent 62914560 (xml (demo_urlset ["https://example.com/page"]))) fresh
     = (Normal (mkResults false ["File size (60.00MB) exceeds 50MB limit"] [] None None),
        mkInstance ["File size (60.00MB) exceeds 50MB limit"] []).
Proof.
  assert (H1 : (MAX_SITEMAP_SIZE < 62914560)%N) by (vm_compute; reflexivity).
  assert (H2 : (400 <= MAX_SITEMAP_SIZE)%N) by (vm_compute; discriminate).
  split; [exact H1|]. split; [exact H2|].
  exact (oversize_document_is_still_validated
           demo_protocol (fun _ => true) (fun _ => None) (fun _ => "0")
           62914560%N 400%N (xml (demo_urlset ["https://example.com/page"]))
           (Normal (mkResults true [] [] None None)) fresh H1 H2 eq_refl).
Defined.

Lemma accepted_dates_have_four_shapes_witness :
  isValidDate (fun _ => true) (fun _ => "0") (VPrim (PStr "2024-01-15T10:30:00Z")) = true
  /\ In 20 [10; 20; 24; 25].
Proof.
  assert (H : isValidDate (fun _ => true) (fun _ => "0")
                          (VPrim (PStr "2024-01-15T10:30:00Z")) = true) by reflexivity.
  split; [exact H|].
  exact (proj1 (proj2 (accepted_dates_have_four_shapes
                         (fun _ => true) (fun _ => "0")
                         (VPrim (PStr "2024-01-15T10:30:00Z")) H))).
Defined.

End ValidatorMoreFacts.

(* ================================================================== *)
(** ** Facts about the health check                                    *)
(* ================================================================== *)

Module HealthFacts.
Import JS Validator ValidatorMoreSpec HealthCheck HealthSpec.

(** *** Strings *)

Lemma includes_unfold : forall needle hay,
  includes needle hay
  = String.prefix needle hay
    || match hay with
       | EmptyString => false
       | String _ hay' => includes needle hay'
       end.
Proof. intros needle [|c hay]; reflexivity. Qed.

Lemma scheme_has_double_slash : forall u,
  includes "://" u = true -> includes "//" u = true.
Proof.
  induction u as [|c u IH]; intros H.
  - discriminate.
  - rewrite includes_unfold in H. rewrite includes_unfold.
    apply Bool.orb_true_iff in H. destruct H as [H|H].
    + apply Bool.orb_true_iff. right.
      cbn [String.prefix] in H. destruct (ascii_dec ":" c); [|discriminate].
      rewrite includes_unfold. now rewrite H.
    + rewrite (IH H). apply Bool.orb_true_r.
Qed.

Lemma to_uint_nonnil : forall n, Nat.to_uint n <> Decimal.Nil.
Proof.
  intros n E. pose proof (Unsigned.to_of (Nat.to_uint n)) as H.
  rewrite Unsigned.of_to, E in H. discriminate.
Qed.

Lemma String_of_nat_inj : forall a b, String_of_nat a = String_of_nat b -> a = b.
Proof.
  intros a b H. unfold String_of_nat in H. apply Unsigned.to_uint_inj.
  pose proof (NilZero.usu _ (to_uint_nonnil a)) as Ha.
  pose proof (NilZero.usu _ (to_uint_nonnil b)) as Hb.
  rewrite H in Ha. congruence.
Qed.

Lemma status_key_404 : forall status,
  (String_of_nat status =? "404")%string = (status =? 404).
Proof.
  intros status. destruct (status =? 404) eqn:E.
  - apply Nat.eqb_eq in E. now subst.
  - apply String.eqb_neq. intros H. apply Nat.eqb_neq in E. apply E.
    now apply String_of_nat_inj.
Qed.

(** *** The patterns *)

Lemma flagged_reason : forall u,
  isSuspiciousUrl u = true ->
  (getSuspiciousReason u =? "Unknown pattern")%string = false.
Proof.
  intros u H. unfold isSuspiciousUrl in H. unfold getSuspiciousReason.
  destruct (includes "-(joint)" u); [reflexivity|].
  rewrite Bool.andb_false_r in H.
  destruct (includes "//" u); [reflexivity|]. cbn [andb] in H.
  destruct (includes " " u || includes "%20" u); [reflexivity | discriminate].
Qed.

(** X18: every URL the health check flags is listed with a reason that
    names a pattern, never with the fall-back reason. *)
Theorem flagged_urls_get_a_named_reason :
  forall u,
    isSuspiciousUrl u = true ->
    In (getSuspiciousReason u)
       ["Malformed position name"; "Double slashes in path"; "Contains spaces"].
Proof.
  intros u H. unfold isSuspiciousUrl in H. unfold getSuspiciousReason.
  destruct (includes "-(joint)" u); [cbn; auto|].
  rewrite Bool.andb_false_r in H.
  destruct (includes "//" u); [cbn; auto|]. cbn [andb] in H.
  destruct (includes " " u || includes "%20" u); [cbn; auto | discriminate].
Qed.

(** X19: for a URL with a scheme separator the double-slash rule never
    fires, so that a doubled slash in its path goes unflagged; and when
    such a URL is flagged for a space, the reason given is about the
    position name or about double slashes, never about spaces. *)
Theorem absolute_urls_are_never_said_to_contain_spaces :
  forall u,
    includes "://" u = true ->
    isSuspiciousUrl u
    = (includes "/elections/position/" u && includes "-(joint)" u)
      || (includes " " u || includes "%20" u)
    /\ In (getSuspiciousReason u) ["Malformed position name"; "Double slashes in path"].
Proof.
  intros u H. pose proof (scheme_has_double_slash u H) as H2.
  unfold isSuspiciousUrl, getSuspiciousReason. rewrite H, H2. cbn [negb andb].
  split.
  - destruct (includes "/elections/position/" u && includes "-(joint)" u); [reflexivity|].
    now destruct (includes " " u || includes "%20" u).
  - destruct (includes "-(joint)" u); cbn; auto.
Qed.

(** *** The status object *)

Lemma lookup_assign : forall k k' v o,
  lookup k (assign k' v o) = if (k' =? k)%string then Some v else lookup k o.
Proof.
  intros k k' v o. induction o as [|[a n] o IH]; [reflexivity|].
  cbn [assign lookup]. destruct (a =? k')%string eqn:E.
  - apply String.eqb_eq in E. subst a. cbn [lookup].
    now destruct (k' =? k)%string.
  - cbn [lookup]. rewrite IH. destruct (a =? k)%string eqn:E1; [|reflexivity].
    apply String.eqb_eq in E1. subst a. now rewrite String.eqb_sym, E.
Qed.

Lemma tallied_tally : forall k k' o,
  tallied k (tally k' o) = if (k' =? k)%string then tallied k o + 1 else tallied k o.
Proof.
  intros k k' o. unfold tallied, tally. rewrite lookup_assign.
  destruct (k' =? k)%string eqn:E; [|reflexivity].
  apply String.eqb_eq in E. now subst.
Qed.

Lemma total_assign : forall k v o,
  total (assign k v o) + tallied k o = total o + v.
Proof.
  intros k v o. unfold total, tallied. induction o as [|[a n] o IH].
  - cbn [assign lookup map snd]. unfold list_sum. cbn [fold_right]. lia.
  - unfold list_sum in *. cbn [assign lookup].
    destruct (a =? k)%string; cbn [map snd fold_right]; lia.
Qed.

Lemma total_tally : forall k o, total (tally k o) = total o + 1.
Proof.
  intros k o. pose proof (total_assign k (tallied k o + 1) o) as H.
  unfold tally. fold (tallied k o). lia.
Qed.

(** *** [processUrlset] *)

Lemma truthy_text_or_self : forall v, truthy (text_or_self v) = truthy v.
Proof.
  intros [| p | [p|]]; try reflexivity. cbn.
  destruct (truthy_prim p) eqn:E; cbn; now rewrite ?E.
Qed.

Lemma set_add_length : forall l S,
  List.length (set_add l S) <= List.length S + 1.
Proof.
  intros l S. unfold set_add. destruct (set_has l S); [lia|].
  rewrite length_app. cbn. lia.
Qed.

Lemma count_url_spec : forall u r,
  totalUrls (count_url u r) = totalUrls r + (if located u then 1 else 0)
  /\ (forall x, set_has x (duplicateUrls (count_url u r))
                = set_has x (duplicateUrls r) || seen_as x u)
  /\ List.length (duplicateUrls (count_url u r))
     <= List.length (duplicateUrls r) + (if located u then 1 else 0)
  /\ urlsByStatus (count_url u r) = urlsByStatus r
  /\ urlsWith404s (count_url u r) = urlsWith404s r
  /\ urlsWithRedirects (count_url u r) = urlsWithRedirects r
  /\ suspiciousUrls (count_url u r) = suspiciousUrls r
  /\ brokenSitemaps (count_url u r) = brokenSitemaps r
  /\ emptySitemaps (count_url u r) = emptySitemaps r.
Proof.
  intros u r. unfold count_url, located, seen_as. rewrite truthy_text_or_self.
  destruct (truthy (loc u)); cbn [andb].
  - cbn. repeat split; try reflexivity.
    + intros x. apply ValidatorMoreFacts.set_has_add.
    + apply set_add_length.
  - repeat split; try reflexivity; try lia.
    intros x. now rewrite Bool.orb_false_r.
Qed.

Lemma fold_count_url_spec : forall urls r,
  let r' := fold_left (fun r u => count_url u r) urls r in
  totalUrls r' = totalUrls r + List.length (filter located urls)
  /\ (forall x, set_has x (duplicateUrls r')
                = set_has x (duplicateUrls r) || existsb (seen_as x) urls)
  /\ List.length (duplicateUrls r')
     <= List.length (duplicateUrls r) + List.length (filter located urls)
  /\ urlsByStatus r' = urlsByStatus r
  /\ urlsWith404s r' = urlsWith404s r
  /\ urlsWithRedirects r' = urlsWithRedirects r
  /\ suspiciousUrls r' = suspiciousUrls r
  /\ brokenSitemaps r' = brokenSitemaps r
  /\ emptySitemaps r' = emptySitemaps r.
Proof.
  induction urls as [|u urls IH]; intros r.
  - cbn. repeat split; try lia. intros x. now rewrite Bool.orb_false_r.
  - cbn [fold_left]. specialize (IH (count_url u r)). cbn zeta in IH.
    destruct IH as (I1 & I2 & I3 & I4 & I5 & I6 & I7 & I8 & I9).
    destruct (count_url_spec u r) as (C1 & C2 & C3 & C4 & C5 & C6 & C7 & C8 & C9).
    cbn zeta. cbn [filter existsb].
    repeat split; try congruence.
    + rewrite I1, C1. destruct (located u); cbn [List.length]; lia.
    + intros x. now rewrite I2, C2, Bool.orb_assoc.
    + destruct (located u); cbn [List.length]; lia.
Qed.

(** X20: [processUrlset] counts every entry that has a location, and the
    set of unique URLs gains exactly the locations of those entries: a
    value is in the set afterwards when it was there before or is the
    location of an entry.  The set grows by no more than the count, and
    nothing else in the results changes. *)
Theorem processUrlset_counts_located_entries :
  forall node r,
    let r' := processUrlset node r in
    totalUrls r' = totalUrls r + List.length (filter located (as_array (url node)))
    /\ (forall x, set_has x (duplicateUrls r')
                  = set_has x (duplicateUrls r)
                    || existsb (seen_as x) (as_array (url node)))
    /\ List.length (duplicateUrls r') - List.length (duplicateUrls r)
       <= totalUrls r' - totalUrls r
    /\ (urlsByStatus r', brokenSitemaps r', emptySitemaps r',
        urlsWithRedirects r', urlsWith404s r', suspiciousUrls r')
       = (urlsByStatus r, brokenSitemaps r, emptySitemaps r,
          urlsWithRedirects r, urlsWith404s r, suspiciousUrls r).
Proof.
  intros node r. unfold processUrlset.
  destruct (fold_count_url_spec (as_array (url node)) r)
    as (I1 & I2 & I3 & I4 & I5 & I6 & I7 & I8 & I9).
  cbn zeta in *. repeat split; try assumption; try lia; try congruence.
Qed.

(** *** The figures agree *)

Lemma consistent_constructor : consistent constructor.
Proof. unfold consistent. cbn. repeat split; lia. Qed.

Lemma consistent_push_broken : forall b r, consistent r -> consistent (push_broken b r).
Proof. intros b r H. exact H. Qed.

Lemma consistent_push_empty : forall e r, consistent r -> consistent (push_empty e r).
Proof. intros e r H. exact H. Qed.

Lemma consistent_count_url : forall u r, consistent r -> consistent (count_url u r).
Proof.
  intros u r (H1 & H2 & H3 & H4 & H5).
  destruct (count_url_spec u r) as (C1 & _ & C3 & C4 & C5 & C6 & C7 & _ & _).
  unfold consistent. rewrite C4, C5, C6, C7, C1.
  repeat split; try assumption. destruct (located u); lia.
Qed.

Lemma consistent_processUrlset : forall node r,
  consistent r -> consistent (processUrlset node r).
Proof.
  intros node r. unfold processUrlset. generalize (as_array (url node)). intros urls.
  revert r. induction urls as [|u urls IH]; intros r H; [exact H|].
  cbn [fold_left]. apply IH. now apply consistent_count_url.
Qed.

Section Net.

Variable World : Type.
Variable fetch : xval -> World -> Reply * World.
Variable head : string -> World -> HeadReply * World.
Variable random : World -> Q * World.

Local Abbreviation checkUrlStatus := (checkUrlStatus World head).
Local Abbreviation sampleCheckUrls := (sampleCheckUrls World head random).
Local Abbreviation checkSingleSitemap := (checkSingleSitemap World fetch head random).
Local Abbreviation checkStates := (checkStates World fetch head random).
Local Abbreviation checkStateSitemaps := (checkStateSitemaps World fetch head random).
Local Abbreviation fetchAndParseSitemap := (fetchAndParseSitemap World fetch).
Local Abbreviation processSitemaps := (processSitemaps World fetch).
Local Abbreviation processSitemapIndex := (processSitemapIndex World fetch).
Local Abbreviation runFullCheck := (runFullCheck World fetch head random).

(** A status check leaves the counts of URLs alone. *)
Lemma checkUrlStatus_counts : forall u r w,
  totalUrls (fst (checkUrlStatus u (r, w))) = totalUrls r
  /\ duplicateUrls (fst (checkUrlStatus u (r, w))) = duplicateUrls r.
Proof.
  intros u r w. unfold HealthCheck.checkUrlStatus.
  destruct (head u w) as [[|status location] w1]; [now split|].
  destruct (status =? 404); [now split|].
  destruct ((300 <=? status) && (status <? 400)); now split.
Qed.

(** A status check of a URL that was counted keeps the figures in
    agreement. *)
Lemma checkUrlStatus_consistent : forall u r w,
  consistent r ->
  consistent (fst (checkUrlStatus u (incr_totalUrls r, w))).
Proof.
  intros u r w (H1 & H2 & H3 & H4 & H5). unfold HealthCheck.checkUrlStatus.
  destruct (head u w) as [[|status location] w1]; cbn [fst].
  - unfold consistent. cbn [incr_totalUrls set_urlsByStatus totalUrls urlsByStatus
      urlsWith404s urlsWithRedirects duplicateUrls suspiciousUrls].
    rewrite tallied_tally, total_tally. cbn [String.eqb Ascii.eqb Bool.eqb].
    repeat split; try assumption; lia.
  - destruct (status =? 404) eqn:E4; [|destruct ((300 <=? status) && (status <? 400)) eqn:E3];
      cbn [fst]; unfold consistent;
      cbn [incr_totalUrls set_urlsByStatus push_404 push_redirect totalUrls urlsByStatus
           urlsWith404s urlsWithRedirects duplicateUrls suspiciousUrls];
      rewrite tallied_tally, total_tally, status_key_404, E4, ?length_app; cbn [List.length].
    + repeat split; try assumption; lia.
    + repeat split; try assumption; try lia.
      rewrite forallb_app, H4. cbn [forallb]. unfold is_redirect. cbn [redirect_status].
      now rewrite E3.
    + repeat split; try assumption; lia.
Qed.

Lemma sampleCheckUrls_counts : forall urls identifier s c s',
  sampleCheckUrls urls identifier s = (c, s') ->
  duplicateUrls (fst s') = duplicateUrls (fst s)
  /\ totalUrls (fst s) <= totalUrls (fst s')
  /\ totalUrls (fst s') <= totalUrls (fst s) + List.length urls.
Proof.
  induction urls as [|u urls IH]; intros identifier s c s' H.
  - cbn in H. injection H as _ <-. repeat split; lia.
  - cbn [HealthCheck.sampleCheckUrls] in H. cbn [List.length].
    destruct (truthy (text_or_self (loc u))); cbn [negb] in H.
    + destruct (text_or_self (loc u)) as [|[a|q]|t];
        try (injection H as _ <-; repeat split; lia).
      destruct s as [r w].
      set (r1 := if isSuspiciousUrl a then _ else r) in H.
      assert (Hr1 : totalUrls r1 = totalUrls r /\ duplicateUrls r1 = duplicateUrls r)
        by (subst r1; destruct (isSuspiciousUrl a); now split).
      destruct Hr1 as [T1 D1].
      destruct (random w) as [x w1].
      destruct (Qlt_le_dec x (1 # 10)).
      * destruct (checkUrlStatus_counts a (incr_totalUrls r1) w1) as [T2 D2].
        apply IH in H. destruct H as (D & T & T').
        cbn [fst incr_totalUrls totalUrls duplicateUrls] in *.
        rewrite D, D2, D1. rewrite T2, T1 in T, T'. repeat split; lia.
      * apply IH in H. destruct H as (D & T & T').
        cbn [fst incr_totalUrls totalUrls duplicateUrls] in *.
        rewrite D, D1. rewrite T1 in T, T'. repeat split; lia.
    + apply IH in H. destruct H as (D & T & T'). repeat split; try assumption; lia.
Qed.

Lemma sampleCheckUrls_consistent : forall urls identifier s c s',
  sampleCheckUrls urls identifier s = (c, s') ->
  consistent (fst s) -> consistent (fst s').
Proof.
  induction urls as [|u urls IH]; intros identifier s c s' H Hs.
  - cbn in H. now injection H as _ <-.
  - cbn [HealthCheck.sampleCheckUrls] in H.
    destruct (truthy (text_or_self (loc u))); cbn [negb] in H.
    + destruct (text_or_self (loc u)) as [|[a|q]|t];
        try (now injection H as _ <-).
      destruct s as [r w]. cbn [fst] in Hs.
      set (r1 := if isSuspiciousUrl a then _ else r) in H.
      assert (Hr1 : consistent r1).
      { subst r1. destruct (isSuspiciousUrl a) eqn:Ea; [|exact Hs].
        destruct Hs as (H1 & H2 & H3 & H4 & H5). unfold consistent.
        cbn [push_suspicious totalUrls urlsByStatus urlsWith404s urlsWithRedirects
             duplicateUrls suspiciousUrls].
        repeat split; try assumption.
        rewrite forallb_app, H5. cbn [forallb]. unfold well_flagged.
        cbn [suspicious_url suspicious_reason]. now rewrite Ea, flagged_reason. }
      destruct (random w) as [x w1].
      destruct (Qlt_le_dec x (1 # 10)).
      * apply IH in H; [exact H|]. now apply checkUrlStatus_consistent.
      * apply IH in H; [exact H|]. cbn [fst].
        destruct Hr1 as (H1 & H2 & H3 & H4 & H5). unfold consistent.
        cbn [incr_totalUrls totalUrls urlsByStatus urlsWith404s urlsWithRedirects
             duplicateUrls suspiciousUrls].
        repeat split; try assumption; lia.
    + now apply IH in H.
Qed.

Lemma checkSingleSitemap_counts : forall u identifier s,
  duplicateUrls (fst (checkSingleSitemap u identifier s)) = duplicateUrls (fst s)
  /\ totalUrls (fst s) <= totalUrls (fst (checkSingleSitemap u identifier s))
  /\ totalUrls (fst (checkSingleSitemap u identifier s)) <= totalUrls (fst s) + 10.
Proof.
  intros u identifier [r w]. unfold HealthCheck.checkSingleSitemap. cbn [fst].
  destruct (fetch (VPrim (PStr u)) w) as [[m|ok status body] w1];
    [cbn; repeat split; lia|].
  destruct ok; cbn [negb]; [|destruct (status =? 404); cbn; repeat split; lia].
  destruct body as [m|page]; [cbn; repeat split; lia|].
  destruct (blank page); [cbn; repeat split; lia|].
  destruct (parse page) as [m|p]; [cbn; repeat split; lia|].
  destruct (urlset p) as [node|]; [|cbn; repeat split; lia].
  destruct (List.length (as_array (url node)) =? 0); [cbn; repeat split; lia|].
  destruct (sampleCheckUrls (firstn 10 (as_array (url node))) identifier (r, w1))
    as [c [r2 w2]] eqn:E.
  apply sampleCheckUrls_counts in E. cbn [fst] in E. destruct E as (D & T & T').
  pose proof (firstn_le_length 10 (as_array (url node))) as L.
  destruct c as [[]|m]; cbn [fst push_broken duplicateUrls totalUrls];
    repeat split; try assumption; lia.
Qed.

Lemma checkSingleSitemap_consistent : forall u identifier s,
  consistent (fst s) -> consistent (fst (checkSingleSitemap u identifier s)).
Proof.
  intros u identifier [r w] H. unfold HealthCheck.checkSingleSitemap. cbn [fst] in *.
  destruct (fetch (VPrim (PStr u)) w) as [[m|ok status body] w1]; [exact H|].
  destruct ok; cbn [negb]; [|destruct (status =? 404); exact H].
  destruct body as [m|page]; [exact H|].
  destruct (blank page); [exact H|].
  destruct (parse page) as [m|p]; [exact H|].
  destruct (urlset p) as [node|]; [|exact H].
  destruct (List.length (as_array (url node)) =? 0); [exact H|].
  destruct (sampleCheckUrls (firstn 10 (as_array (url node))) identifier (r, w1))
    as [c [r2 w2]] eqn:E.
  apply sampleCheckUrls_consistent in E; [|exact H].
  destruct c as [[]|m]; exact E.
Qed.

Lemma checkStates_counts : forall baseUrl l i s,
  duplicateUrls (fst (checkStates baseUrl i l s)) = duplicateUrls (fst s)
  /\ totalUrls (fst s) <= totalUrls (fst (checkStates baseUrl i l s))
  /\ totalUrls (fst (checkStates baseUrl i l s)) <= totalUrls (fst s) + 20 * List.length l.
Proof.
  intros baseUrl. induction l as [|state l IH]; intros i s.
  - cbn. repeat split; lia.
  - cbn [HealthCheck.checkStates List.length].
    match goal with |- context [checkStates baseUrl (Datatypes.S i) l ?s2] =>
      destruct (IH (Datatypes.S i) s2) as (D & T & T') end.
    match type of D with context [checkSingleSitemap ?e ?ie (checkSingleSitemap ?c ?ic s)] =>
      destruct (checkSingleSitemap_counts e ie (checkSingleSitemap c ic s)) as (D2 & T2 & T2');
      destruct (checkSingleSitemap_counts c ic s) as (D1 & T1 & T1') end.
    repeat split; try congruence; lia.
Qed.

Lemma checkStates_consistent : forall baseUrl l i s,
  consistent (fst s) -> consistent (fst (checkStates baseUrl i l s)).
Proof.
  intros baseUrl. induction l as [|state l IH]; intros i s H; [exact H|].
  cbn [HealthCheck.checkStates]. apply IH.
  now do 2 apply checkSingleSitemap_consistent.
Qed.

Lemma processSitemaps_consistent : forall l s,
  consistent (fst s) -> consistent (fst (processSitemaps l s)).
Proof.
  induction l as [|e l IH]; intros [r w] H; [exact H|].
  cbn [HealthCheck.processSitemaps]. cbn [fst] in H.
  destruct (truthy (text_or_self (sm_loc e))); [|now apply IH].
  destruct (HealthCheck.fetchAndParseSitemap World fetch (text_or_self (sm_loc e)) w)
    as [[p|] w1]; [|now apply IH].
  destruct (urlset p) as [node|]; apply IH; cbn [fst]; [|exact H].
  now apply consistent_processUrlset.
Qed.

(** X21: the sitemaps of the states never feed the set of unique URLs:
    whatever the network answers, [checkStateSitemaps] leaves the
    unique-URLs figure of the report as it was, while every URL it
    counts (at most ten for each of the seventy sitemaps) raises both the
    total and the duplicates figure, though none was compared with
    another. *)
Theorem state_sitemaps_never_feed_the_unique_set :
  forall baseUrl r w,
    let r' := fst (checkStateSitemaps baseUrl (r, w)) in
    let '(found, unique, duplicates) := overview r in
    let '(found', unique', duplicates') := overview r' in
    unique' = unique
    /\ (duplicates' - duplicates = found' - found)%Z
    /\ (0 <= found' - found <= 700)%Z.
Proof.
  intros baseUrl r w. unfold HealthCheck.checkStateSitemaps, overview.
  destruct (checkStates_counts baseUrl states 0 (r, w)) as (D & T & T').
  cbn [fst] in *. cbn zeta. rewrite D.
  change (20 * List.length states) with 700 in T'.
  repeat split; lia.
Qed.

(** X22: whatever the network answers and whatever [Math.random] draws,
    the figures [runFullCheck] returns agree with each other: the tally
    of status 404 is the length of the 404 list; the 404s and the
    redirects are among the statuses tallied; the unique URLs and the
    tallied statuses are among the URLs counted, so the duplicates
    figure of the report is not negative; every redirect listed has a
    status from 300 to 399; every suspicious URL listed is flagged by
    [isSuspiciousUrl] and has a named reason. *)
Theorem health_figures_are_consistent :
  forall baseUrl w, consistent (fst (runFullCheck baseUrl w)).
Proof.
  intros baseUrl w. unfold HealthCheck.runFullCheck.
  destruct (HealthCheck.fetchAndParseSitemap World fetch _ w) as [[p|] w1];
    [|exact consistent_constructor].
  unfold HealthCheck.checkStateSitemaps. apply checkStates_consistent.
  destruct (sitemapindex p) as [node|].
  - unfold HealthCheck.processSitemapIndex. apply processSitemaps_consistent.
    exact consistent_constructor.
  - destruct (urlset p) as [node|]; cbn [fst].
    + apply consistent_processUrlset. exact consistent_constructor.
    + exact consistent_constructor.
Qed.

End Net.

(** *** The theorems at work *)

Lemma flagged_urls_get_a_named_reason_witness :
  isSuspiciousUrl demo_joint = true
  /\ In (getSuspiciousReason demo_joint)
        ["Malformed position name"; "Double slashes in path"; "Contains spaces"].
Proof.
  assert (H : isSuspiciousUrl demo_joint = true) by (vm_compute; reflexivity).
  split; [exact H|]. exact (flagged_urls_get_a_named_reason demo_joint H).
Defined.

Lemma absolute_urls_are_never_said_to_contain_spaces_witness :
  includes "://" demo_spaced = true
  /\ In (getSuspiciousReason demo_spaced)
        ["Malformed position name"; "Double slashes in path"].
Proof.
  assert (H : includes "://" demo_spaced = true) by (vm_compute; reflexivity).
  split; [exact H|].
  exact (proj2 (absolute_urls_are_never_said_to_contain_spaces demo_spaced H)).
Defined.

End HealthFacts.

(* ================================================================== *)
(** ** Facts about validating several sitemaps                         *)
(* ================================================================== *)

Module BatchFacts.
Import JS Validator ValidatorSpec ValidatorFacts ValidatorMoreSpec Batch BatchSpec.

Lemma prefix_app : forall p a b,
  String.prefix p a = true -> String.prefix p (a ++ b) = true.
Proof.
  induction p as [|c p IH]; intros a b H; [now destruct (a ++ b)%string|].
  destruct a as [|d a]; [discriminate|].
  cbn [String.prefix String.append] in *.
  destruct (ascii_dec c d); [now apply IH | discriminate].
Qed.

Lemma isUrl_app : forall a b, isUrl a = true -> isUrl (a ++ b) = true.
Proof.
  intros a b H. unfold isUrl in *. apply Bool.orb_true_iff in H.
  apply Bool.orb_true_iff. destruct H as [H|H]; [left|right]; now apply prefix_app.
Qed.

Lemma property_assign : forall q p r results,
  property q (assign p r results)
  = if (p =? q)%string then Some r else property q results.
Proof.
  intros q p r results. induction results as [|[a x] results IH]; [reflexivity|].
  cbn [assign property]. destruct (a =? p)%string eqn:E.
  - apply String.eqb_eq in E. subst a. cbn [property].
    now destruct (p =? q)%string.
  - cbn [property]. rewrite IH. destruct (a =? q)%string eqn:E1; [|reflexivity].
    apply String.eqb_eq in E1. subst a. now rewrite String.eqb_sym, E.
Qed.

Section Facts.

Variable URL_protocol : string -> option string.
Variable Date_isValid : xval -> bool.
Variable parseFloat : string -> option Q.
Variable Number_toString : Q -> string.
Variable World : Type.
Variable fetch : string -> World -> FetchResult * World.
Variable readFile : string -> World -> ReadResult * World.

Local Abbreviation validateUrl :=
  (validateUrl URL_protocol Date_isValid parseFloat Number_toString World fetch).
Local Abbreviation validateFile :=
  (validateFile URL_protocol Date_isValid parseFloat Number_toString World readFile).
Local Abbreviation validateOne :=
  (validateOne URL_protocol Date_isValid parseFloat Number_toString World fetch readFile).
Local Abbreviation validateMultipleSitemaps :=
  (validateMultipleSitemaps URL_protocol Date_isValid parseFloat Number_toString
                            World fetch readFile).
Local Abbreviation validateGoodPartySitemaps :=
  (validateGoodPartySitemaps URL_protocol Date_isValid parseFloat Number_toString
                             World fetch readFile).
Local Abbreviation validateState :=
  (validateState URL_protocol Date_isValid parseFloat Number_toString World fetch).
Local Abbreviation validateGoodPartyProblemSitemaps :=
  (validateGoodPartyProblemSitemaps URL_protocol Date_isValid parseFloat Number_toString
                                    World fetch).
Local Abbreviation main :=
  (main URL_protocol Date_isValid parseFloat Number_toString World fetch readFile).

(** One turn of the loop: the result is what [getResults] builds, it is
    stored under the path, and its messages are added to the totals;
    the count of child sitemaps stays. *)
Lemma validateOne_spec : forall p options results t w,
  exists v w1,
    validateOne p options (results, t, w)
    = (assign p (getResults v) results,
       mkTotals (totalErrors t + List.length (errors v))
                (totalWarnings t + List.length (warnings v))
                (totalChildSitemaps t),
       w1)
    /\ w1 = (if isUrl p then snd (fetch p w) else snd (readFile p w)).
Proof.
  intros p options results t w. unfold Batch.validateOne. fold (isUrl p).
  destruct (isUrl p).
  - destruct (validateUrl_flat URL_protocol Date_isValid parseFloat Number_toString
                World fetch p options w) as (v & Hv).
    exists v, (snd (fetch p w)). rewrite Hv. split; reflexivity.
  - destruct (validateFile p w) as [r w1] eqn:E.
    destruct (validateFile_flat URL_protocol Date_isValid parseFloat Number_toString
                World readFile p w) as (v & Hv).
    rewrite E in Hv. cbn [fst] in Hv. subst r.
    exists v, w1. split; [reflexivity|].
    unfold Validator.validateFile in E.
    destruct (readFile p w) as [[m|content] w2]; cbn [snd].
    + apply (f_equal snd) in E. cbn [snd] in E. now subst.
    + destruct (validateContent _ _ _ _ content fresh) as [[r|m] v'];
        apply (f_equal snd) in E; cbn [snd] in E; now subst.
Qed.

Lemma distinct_cons : forall p l,
  distinct (p :: l) = true -> ~ In p l /\ distinct l = true.
Proof.
  intros p l H. cbn [distinct] in H. apply Bool.andb_true_iff in H.
  destruct H as [H1 H2]. split; [|exact H2]. intros Hin.
  apply Bool.negb_true_iff in H1.
  assert (E : existsb (String.eqb p) l = true).
  { apply existsb_exists. exists p. split; [exact Hin | apply String.eqb_refl]. }
  congruence.
Qed.

Lemma loop_spec : forall options paths results t w,
  distinct paths = true ->
  forall results' t' w',
    fold_left (fun acc p => validateOne p options acc) paths (results, t, w)
    = (results', t', w') ->
    (forall q, ~ In q paths -> property q results' = property q results)
    /\ (forall q, In q paths -> property q results' <> None)
    /\ totalErrors t' = totalErrors t + list_sum (map (errors_at results') paths)
    /\ totalWarnings t' = totalWarnings t + list_sum (map (warnings_at results') paths)
    /\ totalChildSitemaps t' = totalChildSitemaps t.
Proof.
  intros options. induction paths as [|p l IH]; intros results t w Hd results' t' w' H.
  - cbn in H. injection H as <- <- <-. cbn. repeat split; lia.
  - apply distinct_cons in Hd. destruct Hd as [Hp Hd].
    cbn [fold_left] in H.
    destruct (validateOne_spec p options results t w) as (v & w1 & E & _).
    rewrite E in H. apply (IH _ _ _ Hd) in H.
    destruct H as (K1 & K2 & K3 & K4 & K5).
    cbn [totalErrors totalWarnings totalChildSitemaps] in K3, K4, K5.
    assert (Kp : property p results' = Some (getResults v)).
    { rewrite (K1 p Hp), property_assign. now rewrite String.eqb_refl. }
    repeat split.
    + intros q Hq. rewrite K1 by (intros Hin; apply Hq; now right).
      rewrite property_assign. destruct (p =? q)%string eqn:Epq; [|reflexivity].
      apply String.eqb_eq in Epq. subst q. exfalso. apply Hq. now left.
    + intros q [<-|Hq]; [rewrite Kp; discriminate | now apply K2].
    + cbn [map]. unfold list_sum in *. cbn [fold_right].
      unfold errors_at at 1. rewrite Kp. cbn [getResults result_errors]. lia.
    + cbn [map]. unfold list_sum in *. cbn [fold_right].
      unfold warnings_at at 1. rewrite Kp. cbn [getResults result_warnings]. lia.
    + exact K5.
Qed.

(** X23: when no path is given twice, the returned object holds a result
    for exactly the paths given, and the totals of the summary are the
    numbers of errors and of warnings in those results; the count of
    child sitemaps is 0 whatever the options, recursive or not. *)
Theorem summary_totals_are_those_of_the_results :
  forall paths options w,
    distinct paths = true ->
    let '(results, t, _) := validateMultipleSitemaps paths options w in
    (forall q, In q paths <-> property q results <> None)
    /\ totalErrors t = list_sum (map (errors_at results) paths)
    /\ totalWarnings t = list_sum (map (warnings_at results) paths)
    /\ totalChildSitemaps t = 0.
Proof.
  intros paths options w Hd. unfold Batch.validateMultipleSitemaps.
  destruct (fold_left _ paths _) as [[results t] w'] eqn:E.
  apply (loop_spec options paths [] (mkTotals 0 0 0) w Hd) in E.
  destruct E as (K1 & K2 & K3 & K4 & K5). cbn in K3, K4, K5.
  repeat split; try assumption.
  - apply K2.
  - intros Hq. destruct (in_dec string_dec q paths) as [Hin|Hn]; [exact Hin|].
    rewrite (K1 q Hn) in Hq. now elim Hq.
Qed.

(** X24: for a base URL that starts with [http://] or [https://],
    [validateGoodPartySitemaps] fetches the main sitemap and nothing
    else: one result, without child results, is returned, no child
    sitemap is counted, and the world is the one the single fetch left,
    although the options ask for a recursive validation. *)
Theorem goodparty_validation_fetches_one_document :
  forall baseUrl w,
    isUrl baseUrl = true ->
    exists v,
      validateGoodPartySitemaps (Some baseUrl) w
      = ([((baseUrl ++ "/sitemap.xml")%string, getResults v)],
         mkTotals (List.length (errors v)) (List.length (warnings v)) 0,
         snd (fetch (baseUrl ++ "/sitemap.xml")%string w)).
Proof.
  intros baseUrl w H. unfold Batch.validateGoodPartySitemaps, Batch.validateMultipleSitemaps.
  cbn [fold_left template].
  destruct (validateOne_spec (baseUrl ++ "/sitemap.xml")%string (mkOptions true None None)
              [] (mkTotals 0 0 0) w) as (v & w1 & E & Hw).
  exists v. rewrite E, Hw, (isUrl_app _ _ H). reflexivity.
Qed.

(** *** The command line *)

Lemma given_cons : forall flag a rest,
  given flag (a :: rest) = (a =? flag)%string || given flag rest.
Proof. intros. unfold given. cbn [existsb]. now rewrite String.eqb_sym. Qed.

(** When no argument starts with [http], the base URL stays as it was,
    and each of the two flags is set when it is among the arguments. *)
Lemma parseArgs_no_base_url : forall args c,
  no_base_url args = true ->
  cli_baseUrl (parseArgs args c) = cli_baseUrl c
  /\ cli_goodparty (parseArgs args c) = cli_goodparty c || given "--goodparty" args
  /\ cli_problemSitemaps (parseArgs args c)
     = cli_problemSitemaps c || given "--problem-sitemaps" args.
Proof.
  induction args as [|a rest IH]; intros c H.
  - cbn. now rewrite !Bool.orb_false_r.
  - cbn [no_base_url forallb] in H. apply Bool.andb_true_iff in H.
    destruct H as [Ha Hrest]. fold (no_base_url rest) in Hrest.
    rewrite !given_cons. cbn [parseArgs].
    destruct (a =? "--recursive")%string eqn:E1.
    { apply String.eqb_eq in E1. subst a. cbn [String.eqb Ascii.eqb Bool.eqb orb].
      destruct (IH (mkCli true (cli_goodparty c) (cli_problemSitemaps c)
                          (cli_baseUrl c) (cli_paths c)) Hrest) as (I1 & I2 & I3).
      now rewrite I1, I2, I3. }
    destruct (a =? "--goodparty")%string eqn:E2.
    { apply String.eqb_eq in E2. subst a. cbn [String.eqb Ascii.eqb Bool.eqb orb].
      destruct rest as [|next rest'].
      - cbn. now rewrite !Bool.orb_true_r, !Bool.orb_false_r.
      - assert (Hn : String.prefix "http" next = false).
        { cbn [no_base_url forallb] in Hrest. apply Bool.andb_true_iff in Hrest.
          now apply Bool.negb_true_iff. }
        rewrite Hn.
        destruct (IH (mkCli (cli_recursive c) true (cli_problemSitemaps c)
                            (cli_baseUrl c) (cli_paths c)) Hrest) as (I1 & I2 & I3).
        rewrite I1, I2, I3. cbn [cli_baseUrl cli_goodparty cli_problemSitemaps orb].
        now rewrite Bool.orb_true_r. }
    destruct (a =? "--problem-sitemaps")%string eqn:E3.
    { apply String.eqb_eq in E3. subst a. cbn [String.eqb Ascii.eqb Bool.eqb orb].
      destruct rest as [|next rest'].
      - cbn. now rewrite !Bool.orb_true_r, !Bool.orb_false_r.
      - assert (Hn : String.prefix "http" next = false).
        { cbn [no_base_url forallb] in Hrest. apply Bool.andb_true_iff in Hrest.
          now apply Bool.negb_true_iff. }
        rewrite Hn.
        destruct (IH (mkCli (cli_recursive c) (cli_goodparty c) true
                            (cli_baseUrl c) (cli_paths c)) Hrest) as (I1 & I2 & I3).
        rewrite I1, I2, I3. cbn [cli_baseUrl cli_goodparty cli_problemSitemaps orb].
        now rewrite Bool.orb_true_r. }
    cbn [orb].
    destruct (IH (mkCli (cli_recursive c) (cli_goodparty c) (cli_problemSitemaps c)
                        (cli_baseUrl c) (cli_paths c ++ [a])) Hrest) as (I1 & I2 & I3).
    now rewrite I1, I2, I3.
Qed.

(** X25: run with [--goodparty] and no base URL (no argument that starts
    with [http], and no [--problem-sitemaps]), the command line does not
    validate the sitemaps of goodparty.org: the base URL is [null], the
    default of [validateGoodPartySitemaps] is not applied, and the one
    thing validated is the local file [null/sitemap.xml], read from the
    disk without any request to the network. *)
Theorem goodparty_flag_without_url_reads_a_local_file :
  forall args w,
    given "--goodparty" args = true ->
    given "--problem-sitemaps" args = false ->
    no_base_url args = true ->
    exists v,
      main args w
      = (Sitemaps [("null/sitemap.xml", getResults v)]
                  (mkTotals (List.length (errors v)) (List.length (warnings v)) 0),
         snd (readFile "null/sitemap.xml" w)).
Proof.
  intros args w Hg Hp Hn. unfold Batch.main.
  destruct args as [|a rest]; [discriminate|]. cbn [List.length Nat.eqb].
  destruct (parseArgs_no_base_url (a :: rest) (mkCli false false false None []) Hn)
    as (I1 & I2 & I3).
  rewrite I3, I2, I1, Hg, Hp. cbn [cli_baseUrl cli_goodparty cli_problemSitemaps orb].
  unfold Batch.validateGoodPartySitemaps, Batch.validateMultipleSitemaps.
  cbn [fold_left template].
  change ("null" ++ "/sitemap.xml")%string with "null/sitemap.xml".
  destruct (validateOne_spec "null/sitemap.xml" (mkOptions true None None)
              [] (mkTotals 0 0 0) w) as (v & w1 & E & Hw).
  exists v. rewrite E, Hw. reflexivity.
Qed.

(** *** The problem sitemaps *)

Lemma pair_at_assign : forall q p r results,
  pair_at q (assign p r results)
  = if (p =? q)%string then Some r else pair_at q results.
Proof.
  intros q p r results. induction results as [|[a x] results IH]; [reflexivity|].
  cbn [assign pair_at]. destruct (a =? p)%string eqn:E.
  - apply String.eqb_eq in E. subst a. cbn [pair_at].
    now destruct (p =? q)%string.
  - cbn [pair_at]. rewrite IH. destruct (a =? q)%string eqn:E1; [|reflexivity].
    apply String.eqb_eq in E1. subst a. now rewrite String.eqb_sym, E.
Qed.

Lemma validateState_spec : forall baseUrl state results validCount errorCount w,
  exists c s w2,
    validateState baseUrl state (results, validCount, errorCount, w)
    = (assign state (c, s) results,
       validCount + (valid_count c + valid_count s),
       errorCount + (2 - (valid_count c + valid_count s)),
       w2).
Proof.
  intros baseUrl state results validCount errorCount w. unfold Batch.validateState.
  destruct (Validator.validateUrl _ _ _ _ _ _ _ _ w) as [c w1].
  destruct (Validator.validateUrl _ _ _ _ _ _ _ _ w1) as [s w2].
  exists c, s, w2. unfold valid_count.
  destruct (valid c), (valid s); cbn [Nat.sub Nat.add];
    (apply f_equal2; [apply f_equal2; [apply f_equal2; [reflexivity | lia] | lia]
                     | reflexivity]).
Qed.

Lemma states_loop_spec : forall baseUrl states results validCount errorCount w,
  distinct states = true ->
  forall results' validCount' errorCount' w',
    fold_left (fun acc state => validateState baseUrl state acc) states
              (results, validCount, errorCount, w)
    = (results', validCount', errorCount', w') ->
    (forall q, ~ In q states -> pair_at q results' = pair_at q results)
    /\ (forall q, In q states -> pair_at q results' <> None)
    /\ validCount' = validCount + list_sum (map (valid_at results') states)
    /\ validCount' + errorCount' = validCount + errorCount + 2 * List.length states.
Proof.
  intros baseUrl. induction states as [|p l IH];
    intros results validCount errorCount w Hd results' validCount' errorCount' w' H.
  - cbn in H. injection H as <- <- <- <-. cbn. repeat split; lia.
  - apply distinct_cons in Hd. destruct Hd as [Hp Hd].
    cbn [fold_left] in H.
    destruct (validateState_spec baseUrl p results validCount errorCount w)
      as (c & s & w2 & E).
    rewrite E in H. apply (IH _ _ _ _ Hd) in H.
    destruct H as (K1 & K2 & K3 & K4).
    assert (Kp : pair_at p results' = Some (c, s)).
    { rewrite (K1 p Hp), pair_at_assign. now rewrite String.eqb_refl. }
    repeat split.
    + intros q Hq. rewrite K1 by (intros Hin; apply Hq; now right).
      rewrite pair_at_assign. destruct (p =? q)%string eqn:Epq; [|reflexivity].
      apply String.eqb_eq in Epq. subst q. exfalso. apply Hq. now left.
    + intros q [<-|Hq]; [rewrite Kp; discriminate | now apply K2].
    + cbn [map]. unfold list_sum in *. cbn [fold_right].
      unfold valid_at at 1. rewrite Kp. lia.
    + cbn [List.length]. unfold valid_count in *. destruct (valid c), (valid s); cbn in *; lia.
Qed.

(** X26: [validateGoodPartyProblemSitemaps] returns a pair of results for
    exactly its fifty-one states; the two counts of its summary add up
    to the 102 sitemaps, and the count of valid ones is the number of
    valid results in what is returned. *)
Theorem problem_summary_counts_the_results :
  forall baseUrl w,
    let '(results, validCount, errorCount, _) :=
      validateGoodPartyProblemSitemaps baseUrl w in
    (forall state, In state problemStates <-> pair_at state results <> None)
    /\ validCount = list_sum (map (valid_at results) problemStates)
    /\ validCount + errorCount = 102.
Proof.
  intros baseUrl w. unfold Batch.validateGoodPartyProblemSitemaps.
  destruct (fold_left _ problemStates _) as [[[results validCount] errorCount] w'] eqn:E.
  assert (Hd : distinct problemStates = true) by (vm_compute; reflexivity).
  apply (states_loop_spec baseUrl problemStates [] 0 0 w Hd) in E.
  destruct E as (K1 & K2 & K3 & K4).
  repeat split.
  - apply K2.
  - intros Hq. destruct (in_dec string_dec state problemStates) as [Hin|Hn]; [exact Hin|].
    rewrite (K1 state Hn) in Hq. now elim Hq.
  - exact K3.
  - change (List.length problemStates) with 51 in K4. lia.
Qed.

End Facts.

(** *** The theorems at work *)

Lemma summary_totals_are_those_of_the_results_witness :
  distinct demo_paths = true
  /\ let '(results, t, _) := demo_validateMultipleSitemaps demo_paths
                               (mkOptions true None None) [] in
     (forall q, In q demo_paths <-> property q results <> None)
     /\ totalErrors t = list_sum (map (errors_at results) demo_paths)
     /\ totalWarnings t = list_sum (map (warnings_at results) demo_paths)
     /\ totalChildSitemaps t = 0.
Proof.
  assert (H : distinct demo_paths = true) by reflexivity.
  split; [exact H|].
  exact (summary_totals_are_those_of_the_results
           demo_protocol (fun _ => true) (fun _ => None) (fun _ => "123")
           (list string) demo_fetch demo_readFile
           demo_paths (mkOptions true None None) [] H).
Defined.

Lemma goodparty_validation_fetches_one_document_witness :
  isUrl "https://example.com" = true
  /\ exists v,
       demo_validateGoodPartySitemaps (Some "https://example.com") []
       = ([("https://example.com/sitemap.xml", getResults v)],
          mkTotals (List.length (errors v)) (List.length (warnings v)) 0,
          ["https://example.com/sitemap.xml"]).
Proof.
  assert (H : isUrl "https://example.com" = true) by reflexivity.
  split; [exact H|].
  exact (goodparty_validation_fetches_one_document
           demo_protocol (fun _ => true) (fun _ => None) (fun _ => "123")
           (list string) demo_fetch demo_readFile "https://example.com" [] H).
Defined.

Lemma goodparty_flag_without_url_reads_a_local_file_witness :
  given "--goodparty" ["--recursive"; "--goodparty"] = true
  /\ given "--problem-sitemaps" ["--recursive"; "--goodparty"] = false
  /\ no_base_url ["--recursive"; "--goodparty"] = true
  /\ exists v,
       demo_main ["--recursive"; "--goodparty"] []
       = (Sitemaps [("null/sitemap.xml", getResults v)]
                   (mkTotals (List.length (errors v)) (List.length (warnings v)) 0),
          ["null/sitemap.xml"]).
Proof.
  assert (H1 : given "--goodparty" ["--recursive"; "--goodparty"] = true) by reflexivity.
  assert (H2 : given "--problem-sitemaps" ["--recursive"; "--goodparty"] = false)
    by reflexivity.
  assert (H3 : no_base_url ["--recursive"; "--goodparty"] = true) by reflexivity.
  split; [exact H1|]. split; [exact H2|]. split; [exact H3|].
  exact (goodparty_flag_without_url_reads_a_local_file
           demo_protocol (fun _ => true) (fun _ => None) (fun _ => "123")
           (list string) demo_fetch demo_readFile
           ["--recursive"; "--goodparty"] [] H1 H2 H3).
Defined.

End BatchFacts.
